(** * SPWidgets: src/spapi/updateListItems.js

    A shallow embedding of [updateListItems]: the batch builder
    ([getBatchUpdateList]), the launch-on-completion scheduler
    ([execBatchUpdate], [onUpdateDone]), the response aggregation
    ([resolveUpdateListItems], [processAjaxResponses]) and the option
    handling of the entry point ([$.extend], [getUpdateArray]).

    JavaScript is single threaded: every handler below runs to completion
    before the next ajax completion is delivered, so one dispatch is a
    state machine driven by a list of completion events.  The requests are
    asynchronous ([opt.async] is [true], its default): no completion is
    delivered while [execBatchUpdate] runs. *)

From Stdlib Require Import ZArith Lia.
From stdpp Require Import base option list strings gmap pretty.

Set Warnings "-register-all".
Local Open Scope Z_scope.

(** ** JavaScript values reaching the aggregation code *)

Module Js.

(** The values that flow through [processAjaxResponses]: what jQuery hands
    to the callbacks of an ajax promise, and arrays of those. *)
Inductive JsVal : Type :=
| JUndefined
| JString (s : string)
| JXml (doc : string)          (* the parsed XML document of a response *)
| JXhr (id : nat)              (* a jqXHR object, known by its identity *)
| JArray (elems : list JsVal).

(** [v[i]]: arrays give their element, strings their i-th character,
    other objects have no numeric property. *)
Definition index (v : JsVal) (i : nat) : JsVal :=
  match v with
  | JArray l => nth i l JUndefined
  | JString s =>
      match String.get i s with
      | Some c => JString (String c EmptyString)
      | None => JUndefined
      end
  | _ => JUndefined
  end.

(** ToBoolean *)
Definition truthy (v : JsVal) : bool :=
  match v with
  | JUndefined => false
  | JString EmptyString => false
  | _ => true
  end.

(** [a || b] *)
Definition or (a b : JsVal) : JsVal := if truthy a then a else b.

(** [arr.push(v)]; the receiver is always an array where the code pushes. *)
Definition push (arr v : JsVal) : JsVal :=
  match arr with
  | JArray l => JArray (l ++ [v])
  | other => other
  end.

(** The double quote character, and a string between double quotes. *)
Definition dquote : string := String (Ascii.ascii_of_nat 34) EmptyString.
Definition quoted (s : string) : string := dquote +:+ s +:+ dquote.

(** [/pat/.test(s)] for a pattern without metacharacters: [s] has [pat]
    as a substring. *)
Fixpoint includes (pat s : string) : bool :=
  String.prefix pat s ||
  match s with
  | EmptyString => false
  | String _ s' => includes pat s'
  end.

End Js.

Import Js.

(** ** jQuery ajax promises *)

(** How one [$.ajax] promise settles: [done] callbacks get
    [(data, textStatus, jqXHR)], [fail] callbacks get
    [(jqXHR, textStatus, errorThrown)]. *)
Inductive Outcome : Type :=
| Resolved (data : string) (textStatus : string) (jqXHR : nat)
| Rejected (jqXHR : nat) (textStatus : string) (errorThrown : string).

Definition isRejected (o : Outcome) : bool :=
  match o with
  | Resolved _ _ _ => false
  | Rejected _ _ _ => true
  end.

Definition callbackArgs (o : Outcome) : list JsVal :=
  match o with
  | Resolved d t x => [JXml d; JString t; JXhr x]
  | Rejected x t e => [JXhr x; JString t; JString e]
  end.

(** The order in which [$.when] attaches its callbacks to the promises it
    is given: first to last up to jQuery 2, last to first from jQuery 3. *)
Inductive AttachOrder : Type :=
| FirstToLast
| LastToFirst.

(** [$.when.apply($, promises)] as [resolveUpdateListItems] calls it: from
    inside the [always] callback of promise [firing], the last one to
    complete, when every other promise has settled before.  A single
    promise is returned as it is.  Several promises that all resolved
    resolve the master with one array of arguments per promise, in the
    order they were passed.  Otherwise the master is rejected with the
    arguments of one rejected promise alone.  [$.when] attaches its
    callbacks promise by promise; a [fail] callback attached to a promise
    that was rejected before runs at once, while one attached to promise
    [firing] is appended to the callback list that is being fired and runs
    only after [onUpdateDone] has returned.  So the first promise in attach
    order among those rejected before rejects the master, and promise
    [firing] does only when no other promise was rejected.  The result is
    the master's state ([true]: rejected) and its callback arguments. *)
Definition jq_when (order : AttachOrder) (firing : nat) (ps : list Outcome)
    : bool * list JsVal :=
  match ps with
  | [] => (false, [])
  | [p] => (isRejected p, callbackArgs p)
  | _ =>
      let before := List.filter isRejected (delete firing ps) in
      let first :=
        match order with
        | FirstToLast => head before
        | LastToFirst => last before
        end in
      match first with
      | Some p => (true, callbackArgs p)
      | None =>
          match List.find isRejected ps with
          | Some p => (true, callbackArgs p)
          | None => (false, map (fun p => JArray (callbackArgs p)) ps)
          end
      end
  end.

(** ** Dispatcher state *)

(** [updateListItemsResponse] *)
Record Response : Type := mkResponse {
  status : string;
  message : JsVal;
  httpData : JsVal;
  xhrRequest : JsVal
}.

(** How the overall Deferred [dfd] was settled. *)
Inductive Settlement : Type :=
| resolveWith (response : Response)
| rejectWith (response : Response).

Definition responseOf (s : Settlement) : Response :=
  match s with
  | resolveWith r => r
  | rejectWith r => r
  end.

(** One promise returned by [$.ajax]: the [<Batch>] string that
    [getBatchUpdateList] produced for its request body, and its state. *)
Record Promise : Type := mkPromise {
  batch : string;
  settled : option Outcome
}.

(** The merged options the dispatcher reads; [opt._updates] is mutable and
    lives in the state. *)
Record Opt : Type := mkOpt {
  listName : string;
  webURL : string;
  updateOnError : string;
  batchSize : Z;
  concurrency : Z
}.

(** The variables closed over by the [$.Deferred] callback, together with
    [opt._updates].  [inFlightLog] is a ghost field: the value of
    [updatesInFlight] after each assignment to it, oldest first. *)
Record State : Type := mkState {
  _updates : list string;
  batchProcessingDone : bool;
  updatesInFlight : Z;
  updatePromisesList : list Promise;
  dfd : option Settlement;
  inFlightLog : list Z
}.

Definition set_updatesInFlight (v : Z) (st : State) : State :=
  mkState (_updates st) (batchProcessingDone st) v
          (updatePromisesList st) (dfd st) (inFlightLog st ++ [v]).

Definition push_promise (p : Promise) (st : State) : State :=
  mkState (_updates st) (batchProcessingDone st) (updatesInFlight st)
          (updatePromisesList st ++ [p]) (dfd st) (inFlightLog st).

Definition set_promises (ps : list Promise) (st : State) : State :=
  mkState (_updates st) (batchProcessingDone st) (updatesInFlight st)
          ps (dfd st) (inFlightLog st).

Definition settle_dfd (s : Settlement) (st : State) : State :=
  match dfd st with
  | Some _ => st
  | None =>
      mkState (_updates st) (batchProcessingDone st) (updatesInFlight st)
              (updatePromisesList st) (Some s) (inFlightLog st)
  end.

(** ** The batch builder *)

(** The [while] loop of [getBatchUpdateList]: shift descriptors off the
    queue and append them to [xmlUpdateString] while the queue is not empty
    and [count < opt.batchSize]. *)
Fixpoint shiftLoop (size : Z) (queue : list string) (count : Z)
    (xmlUpdateString : string) : string * list string :=
  match queue with
  | [] => (xmlUpdateString, [])
  | u :: rest =>
      if count <? size
      then shiftLoop size rest (count + 1) (xmlUpdateString +:+ u)
      else (xmlUpdateString, queue)
  end.

(** The wrapping step: unless the string already holds a [</Batch>] tag it
    is put in a [<Batch OnError="Continue">] element. *)
Definition wrapBatch (xmlUpdateString : string) : string :=
  if negb (includes "</Batch>" xmlUpdateString)
  then "<Batch OnError=" +:+ quoted "Continue" +:+ ">"
       +:+ xmlUpdateString +:+ "</Batch>"
  else xmlUpdateString.

Definition getBatchUpdateList (opt : Opt) (st : State) : string * State :=
  let '(xmlUpdateString, rest) := shiftLoop (batchSize opt) (_updates st) 0 EmptyString in
  let xmlUpdateString := wrapBatch xmlUpdateString in
  let done := if bool_decide (rest = []) then true else batchProcessingDone st in
  (xmlUpdateString,
   mkState rest done (updatesInFlight st) (updatePromisesList st) (dfd st)
           (inFlightLog st)).

(** The request body that [$.ajax] posts for one batch. *)
Definition soapEnvelope (opt : Opt) (batchXml : string) : string :=
  "<?xml version=" +:+ quoted "1.0" +:+ " encoding=" +:+ quoted "utf-8" +:+ "?>"
  +:+ "<soap:Envelope xmlns:xsi="
  +:+ quoted "http://www.w3.org/2001/XMLSchema-instance"
  +:+ " xmlns:xsd=" +:+ quoted "http://www.w3.org/2001/XMLSchema"
  +:+ " xmlns:soap=" +:+ quoted "http://schemas.xmlsoap.org/soap/envelope/"
  +:+ ">"
  +:+ "<soap:Body><UpdateListItems xmlns="
  +:+ quoted "http://schemas.microsoft.com/sharepoint/soap/" +:+ ">"
  +:+ "<listName>" +:+ listName opt +:+ "</listName><updates>"
  +:+ batchXml
  +:+ "</updates></UpdateListItems></soap:Body></soap:Envelope>".

(** ** The scheduler and the aggregation *)

Section Dispatcher.

(** The jQuery the page loads. *)
Variable whenOrder : AttachOrder.

(** [../sputils/doesMsgHaveError] and [../sputils/getMsgError], the two
    helpers of the repository that inspect a response document. *)
Variable doesMsgHaveError : JsVal -> bool.
Variable getMsgError : JsVal -> string.

Variable opt : Opt.

Definition maxConcurrentUpds : Z := concurrency opt.

(** The callback given to [args.forEach] in [processAjaxResponses]. *)
Definition forEachResponse (isMultiRequest isHttpError : bool)
    (response : Response) (reqResponse : JsVal) : Response :=
  let response :=
    if isMultiRequest
    then mkResponse (status response) (message response)
           (push (httpData response)
                 (if isHttpError then index reqResponse 2 else index reqResponse 0))
           (push (xhrRequest response) (index reqResponse 2))
    else response in
  if isHttpError
  then mkResponse "error" (or (index reqResponse 1) (JString "HTTP error."))
         (httpData response) (xhrRequest response)
  else if doesMsgHaveError (index reqResponse 0)
  then mkResponse "error" (JString (getMsgError (index reqResponse 0)))
         (httpData response) (xhrRequest response)
  else response.

(** [processAjaxResponses(reqArgs, isHttpError)]; [nPromises] is
    [updatePromisesList.length].  The call of [opt.completefunc] made by
    [execBackwardsCompatibleCode] is the caller's own code and is left
    out. *)
Definition processAjaxResponses (nPromises : nat) (reqArgs : list JsVal)
    (isHttpError : bool) : Settlement :=
  let args := reqArgs in
  let isMultiRequest := (1 <? nPromises)%nat in
  let response :=
    mkResponse "success" (JString "Update Successful.")
      (if isMultiRequest then JArray []
       else if isHttpError then nth 2 args JUndefined
       else nth 0 args JUndefined)
      (if isMultiRequest then JArray [] else nth 2 args JUndefined) in
  let args := if negb isMultiRequest then [JArray args] else args in
  let response :=
    fold_left (forEachResponse isMultiRequest isHttpError) args response in
  if String.eqb (status response) "error"
  then rejectWith response
  else resolveWith response.

(** What [$.when(...).then(...).fail(...)] does with promises that settled
    as [outcomes], in the order of [updatePromisesList], when it is called
    from the [always] callback of promise [firing]. *)
Definition aggregate (firing : nat) (outcomes : list Outcome) : Settlement :=
  let '(rejected, args) := jq_when whenOrder firing outcomes in
  processAjaxResponses (length outcomes) args rejected.

(** [resolveUpdateListItems]: called once every promise has settled; were
    one still pending, [$.when] would not fire.  [firing] is the promise
    whose [always] callback is running. *)
Definition resolveUpdateListItems (firing : nat) (st : State) : State :=
  match mapM settled (updatePromisesList st) with
  | Some outcomes => settle_dfd (aggregate firing outcomes) st
  | None => st
  end.

(** [execBatchUpdate].  It calls itself while the queue is not exhausted
    and stops at the latest when [updatesInFlight] reaches
    [maxConcurrentUpds], so [maxConcurrentUpds - updatesInFlight] calls
    are enough: [fuel] counts them. *)
Fixpoint execBatchUpdate_rec (fuel : nat) (st : State) : State :=
  if batchProcessingDone st || (maxConcurrentUpds <=? updatesInFlight st)
  then st
  else
    match fuel with
    | O => st
    | S fuel' =>
        let '(xml, st) := getBatchUpdateList opt st in
        let updatePromise := mkPromise xml None in
        let st := set_updatesInFlight (updatesInFlight st + 1) st in
        let st := push_promise updatePromise st in
        if negb (batchProcessingDone st)
        then execBatchUpdate_rec fuel' st
        else st
    end.

Definition execBatchUpdate (st : State) : State :=
  execBatchUpdate_rec (Z.to_nat (maxConcurrentUpds - updatesInFlight st)) st.

(** [onUpdateDone], run as the [always] callback of promise [firing] *)
Definition onUpdateDone (firing : nat) (st : State) : State :=
  let st := set_updatesInFlight (updatesInFlight st - 1) st in
  if (updatesInFlight st =? 0) && batchProcessingDone st
  then resolveUpdateListItems firing st
  else if updatesInFlight st <? maxConcurrentUpds
  then execBatchUpdate st
  else st.

(** The ajax request behind promise [i] completes with outcome [o]: the
    promise settles and its [always] callback, [onUpdateDone], runs.  A
    promise settles once, so a completion for a promise that does not
    exist or has settled changes nothing. *)
Definition complete (st : State) (ev : nat * Outcome) : State :=
  let '(i, o) := ev in
  match updatePromisesList st !! i with
  | Some p =>
      match settled p with
      | None =>
          onUpdateDone i
            (set_promises (<[i := mkPromise (batch p) (Some o)]> (updatePromisesList st)) st)
      | Some _ => st
      end
  | None => st
  end.

(** The state at the start of the [$.Deferred] callback. *)
Definition initial (queue : list string) : State :=
  mkState queue false 0 [] None [].

(** One dispatch: the first [execBatchUpdate()] and then the completions
    [events], in the order they are delivered. *)
Definition dispatch (queue : list string) (events : list (nat * Outcome)) : State :=
  fold_left complete events (execBatchUpdate (initial queue)).

End Dispatcher.

(** ** The entry point: options, [$.extend] and [getUpdateArray] *)

(** The caller's [options] object and the arrays it refers to are shared
    with the caller, so they live in a store of objects; a value is a
    primitive or a reference into the store. *)
Module Store.

Abbreviation loc := nat.

Inductive Val : Type :=
| VUndefined
| VNull
| VBool (b : bool)
| VNum (n : Z)
| VStr (s : string)
| VRef (l : loc).

(** A plain object keeps its own properties in the order in which
    [for ... in] visits them: for names that are not array indices, the
    order in which they were added. *)
Inductive Cell : Type :=
| CObject (props : list (string * Val))
| CArray (elems : list Val).

Abbreviation Heap := (gmap loc Cell).

Definition truthy (v : Val) : bool :=
  match v with
  | VUndefined | VNull | VBool false | VNum 0 | VStr EmptyString => false
  | _ => true
  end.

Definition typeof (v : Val) : string :=
  match v with
  | VUndefined => "undefined"
  | VNull => "object"
  | VBool _ => "boolean"
  | VNum _ => "number"
  | VStr _ => "string"
  | VRef _ => "object"
  end.

Fixpoint assoc (name : string) (props : list (string * Val)) : option Val :=
  match props with
  | [] => None
  | (k, v) :: rest => if String.eqb k name then Some v else assoc name rest
  end.

(** [obj[name] = v] on a property list: an existing property keeps its
    place, a new one goes last. *)
Fixpoint assign (name : string) (v : Val) (props : list (string * Val))
    : list (string * Val) :=
  match props with
  | [] => [(name, v)]
  | (k, w) :: rest =>
      if String.eqb k name then (k, v) :: rest else (k, w) :: assign name v rest
  end.

Definition getProp (h : Heap) (l : loc) (name : string) : Val :=
  match h !! l with
  | Some (CObject props) => default VUndefined (assoc name props)
  | _ => VUndefined
  end.

Definition setProp (h : Heap) (l : loc) (name : string) (v : Val) : Heap :=
  match h !! l with
  | Some (CObject props) => <[l := CObject (assign name v props)]> h
  | _ => h
  end.

Definition isArray (h : Heap) (v : Val) : bool :=
  match v with
  | VRef l => match h !! l with Some (CArray _) => true | _ => false end
  | _ => false
  end.

Definition alloc (h : Heap) (c : Cell) : loc * Heap :=
  let l := fresh (dom h) in (l, <[l := c]> h).

(** One source object of [$.extend(target, ...)]: every property whose
    value is not [undefined] is copied onto the target. *)
Definition extendWith (target source : list (string * Val)) : list (string * Val) :=
  fold_left
    (fun tgt '(name, copy) =>
       match copy with
       | VUndefined => tgt
       | _ => assign name copy tgt
       end)
    source target.

End Store.

Import Store.

(** [updateListItems.defaults] *)
Definition defaults : list (string * Val) :=
  [ ("listName", VStr EmptyString);
    ("webURL", VStr EmptyString);
    ("async", VBool true);
    ("completefunc", VNull);
    ("updates", VStr EmptyString);
    ("updateType", VStr "Update");
    ("updateOnError", VStr "Continue");
    ("batchSize", VNum 100);
    ("concurrency", VNum 2) ].

(** A number as the comparison operators see it.  The numbers of the model
    are the integers. *)
Inductive Number : Type :=
| Num (n : Z)
| NaN.

Section EntryPoint.

(** [./getSiteUrl], a helper of the repository: the URL it returns. *)
Variable getSiteUrl : string.

(** Number::toString, the conversion of a number to a string that string
    concatenation applies.  It is the language's and is taken as given: it
    writes the digits of an integer below 2^53 and changes to exponent
    notation at 1e21. *)
Variable numberToString : Z -> string.

(** StringToNumber, the conversion of a string to a number that the
    comparison operators apply; [NaN] for a string that denotes no
    number. *)
Variable stringToNumber : string -> Number.

(** ToString of an object or array of the store, as string concatenation
    and the comparison operators apply it; [None] when it throws a
    TypeError (no callable [toString] or [valueOf]). *)
Variable objectToString : Heap -> loc -> option string.

(** ToString of a primitive *)
Definition primitiveToString (v : Val) : string :=
  match v with
  | VUndefined => "undefined"
  | VNull => "null"
  | VBool true => "true"
  | VBool false => "false"
  | VNum n => numberToString n
  | VStr s => s
  | VRef _ => EmptyString
  end.

(** ToString; [None] when it throws. *)
Definition toStr (h : Heap) (v : Val) : option string :=
  match v with
  | VRef l => objectToString h l
  | _ => Some (primitiveToString v)
  end.

(** ToNumber; [None] when it throws. *)
Definition toNumber (h : Heap) (v : Val) : option Number :=
  match v with
  | VUndefined => Some NaN
  | VNull => Some (Num 0)
  | VBool true => Some (Num 1)
  | VBool false => Some (Num 0)
  | VNum n => Some (Num n)
  | VStr s => Some (stringToNumber s)
  | VRef l => s ← objectToString h l; Some (stringToNumber s)
  end.

(** The own enumerable properties of a value, in the order in which
    [for (col in v)] visits them: the properties of an object, the indices
    of an array or of a string.  The store has no prototypes, so the loop
    visits nothing else. *)
Definition ownProps (h : Heap) (v : Val) : list (string * Val) :=
  match v with
  | VRef l =>
      match h !! l with
      | Some (CObject props) => props
      | Some (CArray elems) => imap (fun i e => (pretty i, e)) elems
      | None => []
      end
  | VStr s =>
      imap (fun i c => (pretty i, VStr (String c EmptyString)))
           (String.list_ascii_of_string s)
  | _ => []
  end.

(** [v.hasOwnProperty(col)].  The store holds no functions: an object with
    an own property named [hasOwnProperty] holds a value there that cannot
    be called, and the call throws a TypeError ([None]), as it does on
    [null] and [undefined].  In every other case the method is the
    built-in one. *)
Definition hasOwnProperty (h : Heap) (v : Val) (col : string) : option bool :=
  match v with
  | VUndefined | VNull => None
  | VBool _ | VNum _ => Some false
  | VStr _ =>
      Some (bool_decide (col = "length" \/ col ∈ map fst (ownProps h v)))
  | VRef l =>
      match h !! l with
      | Some (CObject props) =>
          match assoc "hasOwnProperty" props with
          | Some _ => None
          | None => Some (bool_decide (col ∈ map fst props))
          end
      | Some (CArray _) =>
          Some (bool_decide (col = "length" \/ col ∈ map fst (ownProps h v)))
      | None => None
      end
  end.

(** [v[i]] for an index *)
Definition at_index (h : Heap) (v : Val) (i : nat) : Val :=
  match v with
  | VRef l =>
      match h !! l with
      | Some (CArray elems) => nth i elems VUndefined
      | Some (CObject props) => default VUndefined (assoc (pretty i) props)
      | None => VUndefined
      end
  | VStr s =>
      match String.get i s with
      | Some c => VStr (String c EmptyString)
      | None => VUndefined
      end
  | _ => VUndefined
  end.

Definition fieldXml (name value : string) : string :=
  "<Field Name=" +:+ quoted name +:+ ">" +:+ value +:+ "</Field>".

(** The [updates.push('<Method ...>'); options.counter++] step shared by
    both loops, taken when [thisUpd] is not empty.  The counter is a
    number: [updateListItems] sets it to 1 and nothing but this step
    changes it. *)
Definition pushMethod (options : loc) (thisUpd : string)
    (acc : Heap * list string) : option (Heap * list string) :=
  let '(h, updates) := acc in
  if bool_decide (thisUpd = EmptyString) then Some (h, updates)
  else
    id ← toStr h (getProp h options "counter");
    cmd ← toStr h (getProp h options "updateType");
    let method :=
      "<Method ID=" +:+ quoted id +:+ " Cmd=" +:+ quoted cmd
      +:+ ">" +:+ thisUpd +:+ "</Method>" in
    let counter :=
      match getProp h options "counter" with
      | VNum n => VNum (n + 1)
      | other => other
      end in
    Some (setProp h options "counter" counter, updates ++ [method]).

(** The [for (col in updArray[i])] loop of [processArrayOfObjects] over
    the properties still to visit: [thisUpd] with the fields appended. *)
Fixpoint fieldsLoop (h : Heap) (upd : Val) (props : list (string * Val))
    (thisUpd : string) : option string :=
  match props with
  | [] => Some thisUpd
  | (col, v) :: rest =>
      own ← hasOwnProperty h upd col;
      if own : bool
      then value ← toStr h v;
           fieldsLoop h upd rest (thisUpd +:+ fieldXml col value)
      else fieldsLoop h upd rest thisUpd
  end.

Fixpoint processArrayOfObjects (options : loc) (updArray : list Val)
    (acc : Heap * list string) : option (Heap * list string) :=
  match updArray with
  | [] => Some acc
  | upd :: rest =>
      thisUpd ← fieldsLoop (fst acc) upd (ownProps (fst acc) upd) EmptyString;
      acc ← pushMethod options thisUpd acc;
      processArrayOfObjects options rest acc
  end.

(** The [for] loop of [processArrayOfArrays] over the elements still to
    visit. *)
Fixpoint pairsLoop (h : Heap) (updArray : list Val) (thisUpd : string)
    : option string :=
  match updArray with
  | [] => Some thisUpd
  | upd :: rest =>
      if isArray h upd
      then name ← toStr h (at_index h upd 0);
           value ← toStr h (at_index h upd 1);
           pairsLoop h rest (thisUpd +:+ fieldXml name value)
      else pairsLoop h rest thisUpd
  end.

Definition processArrayOfArrays (options : loc) (updArray : list Val)
    (acc : Heap * list string) : option (Heap * list string) :=
  thisUpd ← pairsLoop (fst acc) updArray EmptyString;
  pushMethod options thisUpd acc.

(** [getUpdateArray(options)]: the new store and the array of strings it
    returns; [None] when it throws.  An array whose first element is a
    string is pushed as it is, and an element that is not a string itself
    is converted by [xmlUpdateString += opt._updates.shift()] when the
    dispatcher builds its batch; the conversion is made here, so that the
    queue holds strings, and a conversion that throws is reported here
    and not at the batch.  For an array of strings the two agree. *)
Definition getUpdateArray (h : Heap) (options : loc)
    : option (Heap * list string) :=
  let updates := getProp h options "updates" in
  let ofType := typeof updates in
  if negb (truthy updates) && truthy (getProp h options "ID")
     && truthy (getProp h options "valuepairs")
  then
    match getProp h options "valuepairs" with
    | VRef a =>
        match h !! a with
        | Some (CArray elems) =>
            let '(idPair, h) :=
              alloc h (CArray [VStr "ID"; getProp h options "ID"]) in
            let h := <[a := CArray (elems ++ [VRef idPair])]> h in
            processArrayOfArrays options (elems ++ [VRef idPair]) (h, [])
        | _ => None
        end
    | _ => None
    end
  else if String.eqb ofType "string"
  then Some (h, [primitiveToString updates])
  else
    match updates with
    | VRef u =>
        match h !! u with
        | Some (CArray (first :: others)) =>
            let ofType := typeof first in
            if String.eqb ofType "object"
            then processArrayOfObjects options (first :: others) (h, [])
            else if String.eqb ofType "string"
            then strs ← mapM (toStr h) (first :: others); Some (h, strs)
            else if isArray h first
            then processArrayOfArrays options (first :: others) (h, [])
            else Some (h, [])
        | _ => Some (h, [])
        end
    | _ => Some (h, [])
    end.

(** The statements of [updateListItems] before the [$.Deferred]: the
    merged copy [opt] of the options, its [webURL] and [updateType], and
    the queue, a new array that [opt._updates] refers to.  The result is
    the new store, the location of [opt] and the strings of the queue;
    [None] when a statement throws. *)
Definition prologue (h : Heap) (options : loc)
    : option (Heap * loc * list string) :=
  let merged :=
    extendWith (extendWith (extendWith [] defaults) (ownProps h (VRef options)))
               [("counter", VNum 1)] in
  let '(opt, h) := alloc h (CObject merged) in
  let webURL := getProp h opt "webURL" in
  h ← (if negb (truthy webURL) then Some (setProp h opt "webURL" (VStr getSiteUrl))
       else
         match webURL with
         | VStr s =>
             if negb (bool_decide
                        (String.get (String.length s - 1) s = Some (Ascii.ascii_of_nat 47)))
             then Some (setProp h opt "webURL" (VStr (s +:+ "/")))
             else Some h
         | _ => None
         end);
  let h :=
    setProp h opt "updateType"
      (if truthy (getProp h opt "batchCmd")
       then getProp h opt "batchCmd"
       else getProp h opt "updateType") in
  '(h, updates) ← getUpdateArray h opt;
  let '(queue, h) := alloc h (CArray (map VStr updates)) in
  Some (setProp h opt "_updates" (VRef queue), opt, updates).

(** What the dispatcher reads off [opt], for the queue [updates].

    [opt.batchSize] and [opt.concurrency] stand on the right of
    [count < opt.batchSize], [updatesInFlight >= maxConcurrentUpds] and
    [updatesInFlight < maxConcurrentUpds], which convert them to numbers.
    A batch size that is not a number makes [count < opt.batchSize] false,
    as a batch size of 0 does.  A concurrency that is not a number makes
    both comparisons with it false: no bound holds and the first
    [execBatchUpdate()] calls itself until the queue is empty, as it does
    with a bound above the number of batches, or without end when no
    batch takes anything off a queue that is not empty.

    The conversions throw when [objectToString] does: that of the
    concurrency in the guard of the first [execBatchUpdate()]; that of
    [opt.listName] when the first request is built, and then that of the
    batch size if the queue is not empty.  [None] when the first
    [execBatchUpdate()] throws. *)
Definition dispatcherOpt (h : Heap) (opt : loc) (updates : list string)
    : option Opt :=
  let text name := default EmptyString (toStr h (getProp h opt name)) in
  let size :=
    match toNumber h (getProp h opt "batchSize") with
    | Some (Num b) => b
    | _ => 0
    end in
  let result c :=
    mkOpt (text "listName") (text "webURL") (text "updateOnError") size c in
  let firstRequest :=
    _ ← toStr h (getProp h opt "listName");
    match updates with
    | [] => Some NaN
    | _ :: _ => toNumber h (getProp h opt "batchSize")
    end in
  c ← toNumber h (getProp h opt "concurrency");
  match c with
  | Num n =>
      if n <=? 0 then Some (result n)
      else _ ← firstRequest; Some (result n)
  | NaN =>
      _ ← firstRequest;
      if bool_decide (updates = []) || (1 <=? size)
      then Some (result (Z.of_nat (length updates) + 2))
      else None
  end.

Variable whenOrder : AttachOrder.
Variable doesMsgHaveError : JsVal -> bool.
Variable getMsgError : JsVal -> string.

(** The array [opt._updates] refers to, with what the dispatcher has left
    of the queue. *)
Definition storeQueue (h : Heap) (opt : loc) (queue : list string) : Heap :=
  match getProp h opt "_updates" with
  | VRef q => <[q := CArray (map VStr queue)]> h
  | _ => h
  end.

(** [updateListItems(options)] followed by the completions [events]: the
    store and the state of the dispatch; [None] when the call throws. *)
Definition updateListItems (h : Heap) (options : loc)
    (events : list (nat * Outcome)) : option (Heap * State) :=
  '(h, opt, updates) ← prologue h options;
  o ← dispatcherOpt h opt updates;
  let st := dispatch whenOrder doesMsgHaveError getMsgError o updates events in
  Some (storeQueue h opt (_updates st), st).

End EntryPoint.

(** ** Notions used to state the properties *)

(** The descriptors of a batch, concatenated as the builder does. *)
Definition joinAll (descriptors : list string) : string :=
  foldr String.append EmptyString descriptors.

(** The batch string the builder makes of a group of descriptors. *)
Definition batchOf (descriptors : list string) : string :=
  wrapBatch (joinAll descriptors).

(** The [j]-th group of [size] descriptors of a queue. *)
Definition chunk (size j : nat) (queue : list string) : list string :=
  take size (drop (j * size) queue).

(** The number of promises of a list that have not settled. *)
Fixpoint pendingCount (ps : list Promise) : nat :=
  match ps with
  | [] => 0
  | p :: rest =>
      (match settled p with Some _ => 0 | None => 1 end + pendingCount rest)%nat
  end.

(** ceil(n / b) for a positive [b] *)
Definition ceilDiv (n b : Z) : Z := (n + b - 1) / b.

(** The response data of a resolved request. *)
Definition payload (o : Outcome) : JsVal :=
  match o with
  | Resolved d _ _ => JXml d
  | Rejected x _ _ => JXhr x
  end.

Definition rawResponse (o : Outcome) : JsVal :=
  match o with
  | Resolved _ _ x => JXhr x
  | Rejected x _ _ => JXhr x
  end.

(** The error message of a failed request: its [textStatus], or the
    fallback of the code when that is empty. *)
Definition failureMessage (o : Outcome) : option JsVal :=
  match o with
  | Resolved _ _ _ => None
  | Rejected _ t _ => Some (or (JString t) (JString "HTTP error."))
  end.

(** A promise that was rejected: its request failed at transport level. *)
Definition failed (p : Promise) : bool :=
  match settled p with
  | Some o => isRejected o
  | None => false
  end.

(** The outcomes of a list of completion events, in completion order. *)
Definition completionOrder (events : list (nat * Outcome)) : list Outcome :=
  map snd events.

Definition isArrayVal (v : JsVal) : bool :=
  match v with
  | JArray _ => true
  | _ => false
  end.

(** The arguments [$.when] passes on when every request resolved. *)
Definition resolvedArgs (outcomes : list Outcome) : list JsVal :=
  map (fun p => JArray (callbackArgs p)) outcomes.

(** One launch: the statements of [execBatchUpdate] between its guard and
    its recursive call. *)
Definition launch (opt : Opt) (st : State) : State :=
  let '(xml, st) := getBatchUpdateList opt st in
  push_promise (mkPromise xml None)
    (set_updatesInFlight (updatesInFlight st + 1) st).

(** ** Schedules *)

(** Promise [i] exists and has not settled. *)
Definition isPending (st : State) (i : nat) : bool :=
  match updatePromisesList st !! i with
  | Some p => match settled p with None => true | Some _ => false end
  | None => false
  end.

Section Schedules.

Variable whenOrder : AttachOrder.
Variable doesMsgHaveError : JsVal -> bool.
Variable getMsgError : JsVal -> string.
Variable opt : Opt.

(** A list of completions the Transport can deliver from a state: each one
    is for a request that is in flight when it arrives. *)
Fixpoint deliverable (st : State) (events : list (nat * Outcome)) : bool :=
  match events with
  | [] => true
  | ev :: rest =>
      isPending st (fst ev)
      && deliverable (complete whenOrder doesMsgHaveError getMsgError opt st ev) rest
  end.

Definition validSchedule (queue : list string) (events : list (nat * Outcome)) : bool :=
  deliverable (execBatchUpdate opt (initial queue)) events.

End Schedules.

(** ** The invariant of one dispatch *)

Section InvariantDefinition.

Variable whenOrder : AttachOrder.
Variable doesMsgHaveError : JsVal -> bool.
Variable getMsgError : JsVal -> string.
Variable opt : Opt.
Variable queue : list string.

(** What holds of every state of a dispatch of [queue], also in the middle
    of [execBatchUpdate]. *)
Record Inv (st : State) : Prop := mkInv {
  inv_queue :
    _updates st = drop (length (updatePromisesList st) * Z.to_nat (batchSize opt)) queue;
  inv_batches :
    map batch (updatePromisesList st)
    = map (fun j => batchOf (chunk (Z.to_nat (batchSize opt)) j queue))
          (seq 0 (length (updatePromisesList st)));
  inv_done :
    batchProcessingDone st = true
    <-> (1 <= length (updatePromisesList st))%nat /\ _updates st = [];
  inv_more :
    (2 <= length (updatePromisesList st))%nat ->
    drop ((length (updatePromisesList st) - 1) * Z.to_nat (batchSize opt)) queue <> [];
  inv_inFlight :
    updatesInFlight st = Z.of_nat (pendingCount (updatePromisesList st));
  inv_bound : updatesInFlight st <= Z.max 0 (concurrency opt);
  inv_log :
    Forall (fun v => 0 <= v <= Z.max 0 (concurrency opt)) (inFlightLog st);
  inv_dfd :
    forall s, dfd st = Some s ->
      batchProcessingDone st = true /\
      exists (firing : nat) (outcomes : list Outcome),
        (firing < length outcomes)%nat /\
        mapM settled (updatePromisesList st) = Some outcomes /\
        s = aggregate whenOrder doesMsgHaveError getMsgError firing outcomes
}.

(** What holds in addition between two handlers: the dispatch is over, or
    a request is in flight, as many as allowed while the queue lasts. *)
Definition Quiet (st : State) : Prop :=
  dfd st = None ->
  (batchProcessingDone st = false -> concurrency opt <= updatesInFlight st) /\
  (batchProcessingDone st = true -> 1 <= updatesInFlight st).

End InvariantDefinition.

(** Two states that differ at most in the outcomes of the settled promises
    and in the value the overall promise was settled with. *)
Record Same (st st' : State) : Prop := mkSame {
  same_updates : _updates st = _updates st';
  same_done : batchProcessingDone st = batchProcessingDone st';
  same_inFlight : updatesInFlight st = updatesInFlight st';
  same_log : inFlightLog st = inFlightLog st';
  same_promises :
    Forall2 (fun p p' => batch p = batch p' /\ (settled p = None <-> settled p' = None))
            (updatePromisesList st) (updatePromisesList st');
  same_dfd : dfd st = None <-> dfd st' = None
}.

(** From [Some result = Some (h', updates)]: the store of the result. *)
Ltac result_store H :=
  apply (inj Some) in H; apply (f_equal fst) in H; cbn [fst] in H.

(** ** Notions for the entry point *)

(** Property [name] of the merged copy [opt] as [$.extend] leaves it: the
    caller's value where the caller defines one, the default otherwise. *)
Definition mergedVal (props : list (string * Val)) (name : string) : Val :=
  default VUndefined
    match assoc name props with
    | None | Some VUndefined => assoc name defaults
    | Some v => Some v
    end.

(** The [webURL] the code settles on, from the merged one. *)
Definition normalizedWebURL (getSiteUrl : string) (webURL : Val) : Val :=
  if negb (truthy webURL) then VStr getSiteUrl
  else match webURL with
       | VStr s =>
           if bool_decide (String.get (String.length s - 1) s
                           = Some (Ascii.ascii_of_nat 47))
           then VStr s else VStr (s +:+ "/")
       | other => other
       end.

(** A [<Method>] element. *)
Definition methodXml (id cmd body : string) : string :=
  "<Method ID=" +:+ quoted id +:+ " Cmd=" +:+ quoted cmd +:+ ">"
  +:+ body +:+ "</Method>".

(** The [<Field>] elements of a list of properties with primitive values,
    one after the other. *)
Definition fieldsXml (numberToString : Z -> string)
    (props : list (string * Val)) : string :=
  joinAll (map (fun '(col, v) => fieldXml col (primitiveToString numberToString v))
               props).

(** The [<Field>] element of a pair [[name, value]] of primitives, and
    nothing for an element that is not an array. *)
Definition pairXml (numberToString : Z -> string) (h : Heap) (upd : Val) : string :=
  if isArray h upd
  then fieldXml (primitiveToString numberToString (at_index h upd 0))
                (primitiveToString numberToString (at_index h upd 1))
  else EmptyString.

(** An update with at least one own property. *)
Definition hasProps (h : Heap) (upd : Val) : bool :=
  match ownProps h upd with
  | [] => false
  | _ :: _ => true
  end.

(** An update whose property values are all primitives. *)
Definition flat (h : Heap) (upd : Val) : Prop :=
  Forall (fun '(_, v) =>
            match v with
            | VRef _ => False
            | _ => True
            end) (ownProps h upd).

(** A value that is a primitive or a reference to a cell of the store. *)
Definition allocated (h : Heap) (v : Val) : Prop :=
  match v with
  | VRef l => is_Some (h !! l)
  | _ => True
  end.

Definition isRef (v : Val) : bool :=
  match v with
  | VRef _ => true
  | _ => false
  end.

(** Two stores that differ at most in the [counter] of the object
    [options]. *)
Definition onlyCounter (options : loc) (h h' : Heap) : Prop :=
  (forall l, l <> options -> h' !! l = h !! l)
  /\ (forall name, name <> "counter" ->
      getProp h' options name = getProp h options name)
  /\ (forall m, h !! options = Some (CObject m) ->
      exists m', h' !! options = Some (CObject m')).

(** An object that has an own property named [hasOwnProperty]. *)
Definition shadowsHasOwnProperty (h : Heap) (v : Val) : bool :=
  match v with
  | VRef l =>
      match h !! l with
      | Some (CObject props) => bool_decide (is_Some (assoc "hasOwnProperty" props))
      | _ => false
      end
  | _ => false
  end.

(** An update as the documentation has it: an object or an array of the
    store, other than [options], whose property values are primitives and
    that has no property named [hasOwnProperty]. *)
Definition plainUpdate (h : Heap) (options : loc) (upd : Val) : Prop :=
  upd <> VRef options /\ allocated h upd /\ flat h upd
  /\ shadowsHasOwnProperty h upd = false.

(** An element of the array [a] of pairs as the documentation has it: a
    pair [[name, value]] of primitives of the store, or something that is
    not an array; not the array [a] itself. *)
Definition plainPair (h : Heap) (a : loc) (upd : Val) : Prop :=
  upd <> VRef a /\ allocated h upd
  /\ (isArray h upd = true ->
      isRef (at_index h upd 0) = false /\ isRef (at_index h upd 1) = false).

(** A [Number::toString] that writes the digits of the integers between 0
    and 2^53. *)
Definition writesDigits (numberToString : Z -> string) : Prop :=
  forall n : Z, 0 <= n < 2 ^ 53 -> numberToString n = pretty n.

(** ** Sample inputs *)

(** A response inspector for the examples: a document whose text starts
    with [ERR] carries an error, and its message is the whole text. *)
Definition sampleHasError (v : JsVal) : bool :=
  match v with
  | JXml doc => String.prefix "ERR" doc
  | _ => false
  end.

Definition sampleGetError (v : JsVal) : string :=
  match v with
  | JXml doc => doc
  | _ => EmptyString
  end.

Definition sampleOpt (b c : Z) : Opt :=
  mkOpt "Tasks" "http://site/" "Continue" b c.

Definition sampleDispatch (b c : Z) (queue : list string)
    (events : list (nat * Outcome)) : State :=
  dispatch FirstToLast sampleHasError sampleGetError (sampleOpt b c) queue events.

Definition ok (i : nat) : nat * Outcome := (i, Resolved "ok" "success" i).

(** An options object on the backwards-compatibility path: no [updates],
    an [ID] and a [valuepairs] array with one pair. *)
Definition sampleCompatStore : Heap :=
  list_to_map
    [ (0%nat, CObject [("listName", VStr "Tasks"); ("ID", VNum 7);
                       ("valuepairs", VRef 1%nat)]);
      (1%nat, CArray [VRef 2%nat]);
      (2%nat, CArray [VStr "Title"; VStr "hello"]) ].

Definition sampleObjectToString (h : Heap) (l : loc) : option string :=
  Some "[object Object]".

(** Number conversions for the examples: the digits of an integer, and the
    integer a string of decimal digits denotes. *)
Definition sampleNumberToString (n : Z) : string := pretty n.

Fixpoint digitsValue (acc : Z) (s : string) : Number :=
  match s with
  | EmptyString => Num acc
  | String c rest =>
      let d := (Z.of_nat (Ascii.nat_of_ascii c) - 48) in
      if (0 <=? d) && (d <=? 9) then digitsValue (10 * acc + d) rest else NaN
  end.

Definition sampleStringToNumber (s : string) : Number := digitsValue 0 s.

(** An options object with an array of three updates, the second one
    without properties, a [webURL] without final slash and a [batchCmd]. *)
Definition sampleObjectsStore : Heap :=
  list_to_map
    [ (0%nat, CObject [("listName", VStr "Tasks"); ("webURL", VStr "http://x");
                       ("batchCmd", VStr "Delete"); ("updates", VRef 1%nat)]);
      (1%nat, CArray [VRef 2%nat; VRef 3%nat; VRef 4%nat]);
      (2%nat, CObject [("ID", VStr "3")]);
      (3%nat, CObject []);
      (4%nat, CObject [("ID", VStr "4"); ("Title", VStr "t")]) ].

(** An options object whose updates are one string, and one whose updates
    are an array of strings. *)
Definition sampleStringStore : Heap :=
  list_to_map
    [ (0%nat, CObject [("listName", VStr "Tasks"); ("updates", VStr "<Method/>")]) ].

Definition sampleStringsStore : Heap :=
  list_to_map
    [ (0%nat, CObject [("listName", VStr "Tasks"); ("updates", VRef 1%nat)]);
      (1%nat, CArray [VStr "<a/>"; VStr "<b/>"]) ].

(** A merged options object, as [getUpdateArray] receives it, with three
    updates given as objects, the second one without properties. *)
Definition sampleMergedObjects : Heap :=
  list_to_map
    [ (0%nat, CObject [("updates", VRef 1%nat); ("updateType", VStr "Update");
                       ("counter", VNum 1)]);
      (1%nat, CArray [VRef 2%nat; VRef 3%nat; VRef 4%nat]);
      (2%nat, CObject [("ID", VStr "3")]);
      (3%nat, CObject []);
      (4%nat, CObject [("ID", VStr "4"); ("Title", VStr "t")]) ].

(** The same with two updates given as pairs. *)
Definition sampleMergedPairs : Heap :=
  list_to_map
    [ (0%nat, CObject [("updates", VRef 1%nat); ("updateType", VStr "Update");
                       ("counter", VNum 1)]);
      (1%nat, CArray [VRef 2%nat; VRef 3%nat]);
      (2%nat, CArray [VStr "Title"; VStr "a"]);
      (3%nat, CArray [VStr "Status"; VStr "b"]) ].

(** A merged options object on the backwards-compatibility path. *)
Definition sampleMergedCompat : Heap :=
  list_to_map
    [ (0%nat, CObject [("updates", VStr EmptyString); ("updateType", VStr "Update");
                       ("ID", VNum 7); ("valuepairs", VRef 1%nat);
                       ("counter", VNum 1)]);
      (1%nat, CArray [VRef 2%nat]);
      (2%nat, CArray [VStr "Title"; VStr "hello"]) ].

(** An options object whose second update has a property named
    [hasOwnProperty]. *)
Definition sampleShadowStore : Heap :=
  list_to_map
    [ (0%nat, CObject [("listName", VStr "Tasks"); ("updates", VRef 1%nat)]);
      (1%nat, CArray [VRef 2%nat; VRef 3%nat]);
      (2%nat, CObject [("ID", VStr "3")]);
      (3%nat, CObject [("ID", VStr "4"); ("hasOwnProperty", VNum 1)]) ].

(** An options object that names a list and nothing else. *)
Definition sampleBareStore : Heap :=
  list_to_map [ (0%nat, CObject [("listName", VStr "Tasks")]) ].

(** * Properties *)

(** ** The batch builder *)

Lemma append_cons (ch : Ascii.ascii) (a b : string) :
  String ch a +:+ b = String ch (a +:+ b).
Proof. reflexivity. Qed.

Lemma append_empty_l (a : string) : EmptyString +:+ a = a.
Proof. reflexivity. Qed.

Lemma append_assoc (a b c : string) : (a +:+ b) +:+ c = a +:+ (b +:+ c).
Proof.
  induction a as [|ch a IH]; [reflexivity |].
  now rewrite !append_cons, IH.
Qed.

Lemma append_empty_r (a : string) : a +:+ EmptyString = a.
Proof.
  induction a as [|ch a IH]; [reflexivity |].
  now rewrite append_cons, IH.
Qed.

(** The loop takes the first [size - count] descriptors, in order, and
    leaves the rest of the queue. *)
Lemma shiftLoop_take_drop (size : Z) (queue : list string) :
  forall (count : Z) (acc : string),
    shiftLoop size queue count acc
    = (acc +:+ joinAll (take (Z.to_nat (size - count)) queue),
       drop (Z.to_nat (size - count)) queue).
Proof.
  induction queue as [|u rest IH]; intros count acc; simpl.
  - rewrite take_nil, drop_nil. simpl. now rewrite append_empty_r.
  - destruct (Z.ltb_spec count size) as [Hlt | Hge].
    + rewrite IH.
      replace (Z.to_nat (size - count)) with (S (Z.to_nat (size - (count + 1)))) by lia.
      simpl. now rewrite append_assoc.
    + replace (Z.to_nat (size - count)) with 0%nat by lia.
      simpl. now rewrite append_empty_r.
Qed.

Lemma getBatchUpdateList_chunk (opt : Opt) (st : State) :
  getBatchUpdateList opt st
  = (batchOf (take (Z.to_nat (batchSize opt)) (_updates st)),
     mkState (drop (Z.to_nat (batchSize opt)) (_updates st))
       (if bool_decide (drop (Z.to_nat (batchSize opt)) (_updates st) = [])
        then true else batchProcessingDone st)
       (updatesInFlight st) (updatePromisesList st) (dfd st) (inFlightLog st)).
Proof.
  unfold getBatchUpdateList. rewrite shiftLoop_take_drop.
  rewrite Z.sub_0_r. reflexivity.
Qed.

Lemma execBatchUpdate_rec_unfold (opt : Opt) (fuel : nat) (st : State) :
  execBatchUpdate_rec opt fuel st
  = if batchProcessingDone st || (concurrency opt <=? updatesInFlight st)
    then st
    else match fuel with
         | O => st
         | S fuel' =>
             if negb (batchProcessingDone (launch opt st))
             then execBatchUpdate_rec opt fuel' (launch opt st)
             else launch opt st
         end.
Proof.
  destruct fuel; simpl; [reflexivity |].
  unfold launch, maxConcurrentUpds.
  destruct (getBatchUpdateList opt st) as [xml st1]. reflexivity.
Qed.

Lemma launch_updatesInFlight (opt : Opt) (st : State) :
  updatesInFlight (launch opt st) = updatesInFlight st + 1.
Proof. unfold launch. now rewrite getBatchUpdateList_chunk. Qed.

(** [execBatchUpdate] never runs out of fuel: any amount of at least
    [maxConcurrentUpds - updatesInFlight] gives the same state. *)
Lemma execBatchUpdate_rec_enough (opt : Opt) (fuel : nat) :
  forall (fuel' : nat) (st : State),
    (Z.to_nat (concurrency opt - updatesInFlight st) <= fuel)%nat ->
    (Z.to_nat (concurrency opt - updatesInFlight st) <= fuel')%nat ->
    execBatchUpdate_rec opt fuel st = execBatchUpdate_rec opt fuel' st.
Proof.
  induction fuel as [|fuel IH]; intros fuel' st H H';
    rewrite (execBatchUpdate_rec_unfold opt _ st),
            (execBatchUpdate_rec_unfold opt fuel' st);
    destruct (batchProcessingDone st); simpl; try reflexivity;
    destruct (Z.leb_spec (concurrency opt) (updatesInFlight st)); try reflexivity.
  - lia.
  - destruct fuel' as [|fuel']; [lia |].
    destruct (batchProcessingDone (launch opt st)); simpl; [reflexivity |].
    apply IH; rewrite launch_updatesInFlight; lia.
Qed.

Lemma execBatchUpdate_total (opt : Opt) (fuel : nat) (st : State) :
  (Z.to_nat (concurrency opt - updatesInFlight st) <= fuel)%nat ->
  execBatchUpdate_rec opt fuel st = execBatchUpdate opt st.
Proof.
  intros H. unfold execBatchUpdate, maxConcurrentUpds.
  now apply execBatchUpdate_rec_enough.
Qed.

(** ** Promise lists *)

Lemma pendingCount_app (ps qs : list Promise) :
  pendingCount (ps ++ qs) = (pendingCount ps + pendingCount qs)%nat.
Proof. induction ps as [|p ps IH]; simpl; [reflexivity | rewrite IH; lia]. Qed.

Lemma pendingCount_settle (ps : list Promise) :
  forall (i : nat) (p : Promise) (o : Outcome),
    ps !! i = Some p -> settled p = None ->
    S (pendingCount (<[i := mkPromise (batch p) (Some o)]> ps)) = pendingCount ps.
Proof.
  induction ps as [|p0 ps IH]; intros i p o Hi Hp; [discriminate |].
  destruct i as [|i]; simpl in *.
  - injection Hi as ->. now rewrite Hp.
  - rewrite <- (IH i p o Hi Hp). lia.
Qed.

Lemma map_batch_settle (ps : list Promise) :
  forall (i : nat) (p : Promise) (s : option Outcome),
    ps !! i = Some p ->
    map batch (<[i := mkPromise (batch p) s]> ps) = map batch ps.
Proof.
  induction ps as [|p0 ps IH]; intros i p s Hi; [discriminate |].
  destruct i as [|i]; simpl in *.
  - now injection Hi as ->.
  - now rewrite (IH i p s Hi).
Qed.

Lemma pendingCount_zero_settled (ps : list Promise) :
  pendingCount ps = 0%nat -> exists outcomes, mapM settled ps = Some outcomes.
Proof.
  intros H. apply (mapM_is_Some_2 settled).
  induction ps as [|p ps IH]; constructor; simpl in H.
  - simpl. destruct (settled p); [eauto | lia].
  - apply IH. destruct (settled p); lia.
Qed.

Lemma settled_pendingCount_zero (ps : list Promise) (outcomes : list Outcome) :
  mapM settled ps = Some outcomes -> pendingCount ps = 0%nat.
Proof.
  intros H. apply mapM_Some_1 in H.
  induction H as [|p o ps os Hp _ IH]; simpl; [reflexivity |].
  now rewrite Hp, IH.
Qed.

Lemma settled_map_Some (ps : list Promise) (outcomes : list Outcome) :
  mapM settled ps = Some outcomes -> map settled ps = map Some outcomes.
Proof.
  intros H. apply mapM_Some_1 in H.
  induction H as [|p o ps os Hp _ IH]; simpl; [reflexivity |].
  now rewrite Hp, IH.
Qed.

Lemma settled_map_Some_all (ps : list Promise) :
  forall outcomes : list Outcome,
    map settled ps = map Some outcomes ->
    Forall (fun p => is_Some (settled p)) ps.
Proof.
  induction ps as [|p ps IH]; intros [|o os] H; try discriminate; constructor.
  - simpl in H. injection H as -> _. eauto.
  - simpl in H. injection H as _ H. eauto.
Qed.

Lemma pendingCount_pos_lookup (ps : list Promise) :
  (0 < pendingCount ps)%nat ->
  exists (i : nat) (p : Promise), ps !! i = Some p /\ settled p = None.
Proof.
  induction ps as [|p ps IH]; simpl; [lia |].
  destruct (settled p) eqn:Hp; intros H.
  - destruct (IH H) as (i & p' & Hi & Hp'). exists (S i), p'. auto.
  - exists 0%nat, p. auto.
Qed.

Lemma lookup_pending_pos (ps : list Promise) :
  forall (i : nat) (p : Promise),
    ps !! i = Some p -> settled p = None -> (0 < pendingCount ps)%nat.
Proof.
  induction ps as [|p0 ps IH]; intros i p Hi Hp; [discriminate |].
  destruct i as [|i]; simpl in *.
  - injection Hi as ->. rewrite Hp. lia.
  - specialize (IH i p Hi Hp). lia.
Qed.

(** ** Chunks of a queue *)

Lemma chunks_concat (size : nat) (queue : list string) (k : nat) :
  concat (map (fun j => chunk size j queue) (seq 0 k)) = take (k * size) queue.
Proof.
  induction k as [|k IH]; [reflexivity |].
  rewrite seq_S, map_app, concat_app, IH. simpl.
  rewrite app_nil_r. unfold chunk.
  rewrite take_take_drop. f_equal. lia.
Qed.

Lemma chunk_length (size j : nat) (queue : list string) :
  (length (chunk size j queue) <= size)%nat.
Proof. unfold chunk. rewrite length_take. lia. Qed.

(** The number of launches that exhaust a queue of [n] descriptors. *)
Lemma launches_ceilDiv (n b k : Z) :
  1 <= b -> 0 <= n -> 1 <= k -> n <= k * b -> (2 <= k -> (k - 1) * b < n) ->
  k = Z.max 1 (ceilDiv n b).
Proof.
  intros Hb Hn Hk Hle Hgt. unfold ceilDiv.
  assert (Hq : (n + b - 1) / b * b <= n + b - 1 < ((n + b - 1) / b + 1) * b).
  { pose proof (Z.div_mod (n + b - 1) b ltac:(lia)) as Hdm.
    pose proof (Z.mod_pos_bound (n + b - 1) b ltac:(lia)). nia. }
  destruct (Z.eq_dec k 1) as [-> | Hk1].
  - assert ((n + b - 1) / b <= 1) by nia. lia.
  - assert ((k - 1) * b < n) by lia.
    assert (k <= (n + b - 1) / b) by nia.
    assert ((n + b - 1) / b <= k) by nia. lia.
Qed.

(** ** The invariant of one dispatch *)

Section Invariant.

Variable whenOrder : AttachOrder.
Variable doesMsgHaveError : JsVal -> bool.
Variable getMsgError : JsVal -> string.
Variable opt : Opt.
Variable queue : list string.

Local Abbreviation size := (Z.to_nat (batchSize opt)).
Local Abbreviation Inv' := (Inv whenOrder doesMsgHaveError getMsgError opt queue).
Local Abbreviation Quiet' := (Quiet opt).

Lemma Inv_initial : Inv' (initial queue).
Proof.
  constructor; simpl; try easy. lia.
Qed.

Lemma Inv_launch (st : State) :
  Inv' st -> dfd st = None -> batchProcessingDone st = false ->
  updatesInFlight st < concurrency opt ->
  Inv' (launch opt st) /\ dfd (launch opt st) = None /\
  updatesInFlight (launch opt st) = updatesInFlight st + 1.
Proof.
  intros [Hq Hb Hd Hm Hf Hbd Hl Hdfd] Hnone Hdone Hlt.
  unfold launch. rewrite getBatchUpdateList_chunk.
  unfold push_promise, set_updatesInFlight. simpl.
  split; [| split; [assumption | reflexivity]].
  assert (Hdrop : drop size (_updates st)
                  = drop ((length (updatePromisesList st) + 1) * size) queue).
  { rewrite Hq, drop_drop. f_equal. lia. }
  constructor; simpl; rewrite ?length_app; simpl.
  - exact Hdrop.
  - rewrite map_app, seq_app, map_app, <- Hb. simpl.
    do 2 f_equal. unfold chunk. now rewrite <- Hq.
  - rewrite Hdone. case_bool_decide as Hnil; split; try easy.
    intros _. split; [lia | assumption].
  - intros Hk. replace (length (updatePromisesList st) + 1 - 1)%nat
      with (length (updatePromisesList st)) by lia.
    rewrite <- Hq. intros Hnil.
    assert (batchProcessingDone st = true) by (apply Hd; split; [lia | assumption]).
    congruence.
  - rewrite pendingCount_app. simpl. lia.
  - lia.
  - apply Forall_app. split; [assumption |]. repeat constructor; lia.
  - intros s Hs. congruence.
Qed.

Lemma Inv_execBatchUpdate_rec (fuel : nat) :
  forall st : State,
    Inv' st -> dfd st = None ->
    (batchProcessingDone st = true -> 1 <= updatesInFlight st) ->
    (Z.to_nat (concurrency opt - updatesInFlight st) <= fuel)%nat ->
    Inv' (execBatchUpdate_rec opt fuel st) /\
    dfd (execBatchUpdate_rec opt fuel st) = None /\
    Quiet' (execBatchUpdate_rec opt fuel st).
Proof.
  induction fuel as [|fuel IH]; intros st HI Hnone Hpos Hfuel;
    rewrite execBatchUpdate_rec_unfold;
    destruct (batchProcessingDone st) eqn:Hdone; simpl;
    try (split; [assumption | split; [assumption |]];
         intros _; split; [congruence | auto]).
  - destruct (Z.leb_spec (concurrency opt) (updatesInFlight st)) as [Hge | Hlt].
    + split; [assumption | split; [assumption |]].
      intros _. split; [auto | congruence].
    + lia.
  - destruct (Z.leb_spec (concurrency opt) (updatesInFlight st)) as [Hge | Hlt].
    + split; [assumption | split; [assumption |]].
      intros _. split; [auto | congruence].
    + destruct (Inv_launch st HI Hnone Hdone Hlt) as (HI' & Hnone' & Hfl).
      pose proof (inv_inFlight _ _ _ _ _ st HI) as Hnn.
      destruct (batchProcessingDone (launch opt st)) eqn:Hdone'; simpl.
      * split; [assumption | split; [assumption |]].
        intros _. split; [congruence | lia].
      * apply IH; try assumption; [congruence | lia].
Qed.

Lemma Inv_execBatchUpdate (st : State) :
  Inv' st -> dfd st = None ->
  (batchProcessingDone st = true -> 1 <= updatesInFlight st) ->
  Inv' (execBatchUpdate opt st) /\ dfd (execBatchUpdate opt st) = None /\
  Quiet' (execBatchUpdate opt st).
Proof.
  intros. unfold execBatchUpdate, maxConcurrentUpds.
  now apply Inv_execBatchUpdate_rec.
Qed.

End Invariant.

Section Run.

Variable whenOrder : AttachOrder.
Variable doesMsgHaveError : JsVal -> bool.
Variable getMsgError : JsVal -> string.
Variable opt : Opt.
Variable queue : list string.

Local Abbreviation Inv' := (Inv whenOrder doesMsgHaveError getMsgError opt queue).
Local Abbreviation Quiet' := (Quiet opt).
Local Abbreviation complete' := (complete whenOrder doesMsgHaveError getMsgError opt).
Local Abbreviation run := (dispatch whenOrder doesMsgHaveError getMsgError opt).

Lemma Inv_after_decrement (firing : nat) (st1 : State) :
  Inv' st1 -> dfd st1 = None ->
  (firing < length (updatePromisesList st1))%nat ->
  let st' :=
    if (updatesInFlight st1 =? 0) && batchProcessingDone st1
    then resolveUpdateListItems whenOrder doesMsgHaveError getMsgError firing st1
    else if updatesInFlight st1 <? concurrency opt
    then execBatchUpdate opt st1
    else st1 in
  Inv' st' /\ Quiet' st'.
Proof.
  intros HI Hnone1 Hfiring.
  pose proof (inv_inFlight _ _ _ _ _ _ HI) as Hfl.
  destruct (Z.eqb_spec (updatesInFlight st1) 0) as [Hz | Hnz];
    [destruct (batchProcessingDone st1) eqn:Hdone |]; cbn [andb].
  - (* all done: resolveUpdateListItems *)
    unfold resolveUpdateListItems.
    destruct (pendingCount_zero_settled (updatePromisesList st1) ltac:(lia))
      as [outcomes Hout].
    rewrite Hout. unfold settle_dfd. rewrite Hnone1.
    split; [| intros H; discriminate H].
    destruct HI. constructor; simpl; try assumption.
    intros s [= <-]. split; [assumption |].
    exists firing, outcomes. split; [| auto].
    apply length_mapM in Hout. lia.
  - (* queue not exhausted *)
    destruct (Z.ltb_spec (updatesInFlight st1) (concurrency opt)) as [Hlt | Hge].
    + destruct (Inv_execBatchUpdate _ _ _ _ _ st1 HI Hnone1) as (? & ? & ?);
        [congruence | auto].
    + split; [assumption |]. intros _. split; [auto | congruence].
  - destruct (Z.ltb_spec (updatesInFlight st1) (concurrency opt)) as [Hlt | Hge].
    + destruct (Inv_execBatchUpdate _ _ _ _ _ st1 HI Hnone1) as (? & ? & ?);
        [lia | auto].
    + split; [assumption |]. intros _. split; [auto | lia].
Qed.

Lemma Inv_onUpdateDone (firing : nat) (st : State) :
  Inv' (set_updatesInFlight (updatesInFlight st - 1) st) ->
  dfd st = None ->
  (firing < length (updatePromisesList st))%nat ->
  Inv' (onUpdateDone whenOrder doesMsgHaveError getMsgError opt firing st) /\
  Quiet' (onUpdateDone whenOrder doesMsgHaveError getMsgError opt firing st).
Proof.
  intros HI Hnone Hfiring.
  exact (Inv_after_decrement firing _ HI Hnone Hfiring).
Qed.

Lemma Inv_complete (st : State) (ev : nat * Outcome) :
  Inv' st -> Quiet' st -> Inv' (complete' st ev) /\ Quiet' (complete' st ev).
Proof.
  intros HI HQ. destruct ev as [i o]. unfold complete.
  destruct (updatePromisesList st !! i) as [p|] eqn:Hi; [| auto].
  destruct (settled p) eqn:Hp; [auto |].
  pose proof (lookup_pending_pos _ _ _ Hi Hp) as Hpos.
  assert (Hnone : dfd st = None).
  { destruct (dfd st) as [s|] eqn:Hs; [| reflexivity].
    destruct (inv_dfd _ _ _ _ _ _ HI s Hs) as (_ & f & outs & _ & Hm & _).
    apply settled_pendingCount_zero in Hm. lia. }
  pose proof (pendingCount_settle _ _ _ o Hi Hp) as Hcnt.
  apply Inv_onUpdateDone; [| assumption |].
  - destruct HI as [Hq Hb Hd Hm Hf Hbd Hl Hdfd].
    unfold set_updatesInFlight, set_promises. simpl.
    constructor; simpl; rewrite ?length_insert; try assumption.
    + now rewrite map_batch_settle.
    + lia.
    + lia.
    + apply Forall_app. split; [assumption |]. repeat constructor; lia.
    + intros s Hs. congruence.
  - unfold set_promises. simpl. rewrite length_insert.
    now apply lookup_lt_Some in Hi.
Qed.

Lemma Inv_fold (events : list (nat * Outcome)) :
  forall st : State,
    Inv' st -> Quiet' st ->
    Inv' (fold_left complete' events st) /\ Quiet' (fold_left complete' events st).
Proof.
  induction events as [|ev events IH]; intros st HI HQ; simpl; [auto |].
  destruct (Inv_complete st ev HI HQ). now apply IH.
Qed.

(** Every state a dispatch goes through between two handlers satisfies
    the invariant. *)
Lemma Inv_dispatch (events : list (nat * Outcome)) :
  Inv' (run queue events) /\ Quiet' (run queue events).
Proof.
  unfold dispatch.
  destruct (Inv_execBatchUpdate whenOrder doesMsgHaveError getMsgError opt queue
              (initial queue) (Inv_initial _ _ _ _ _)) as (HI & _ & HQ);
    [reflexivity | discriminate |].
  now apply Inv_fold.
Qed.

(** Once the overall promise is settled, completions change nothing. *)
Lemma settled_complete (st : State) (ev : nat * Outcome) :
  Inv' st -> is_Some (dfd st) -> complete' st ev = st.
Proof.
  intros HI [s Hs]. destruct ev as [i o]. unfold complete.
  destruct (updatePromisesList st !! i) as [p|] eqn:Hi; [| reflexivity].
  destruct (settled p) eqn:Hp; [reflexivity |].
  pose proof (lookup_pending_pos _ _ _ Hi Hp).
  destruct (inv_dfd _ _ _ _ _ _ HI s Hs) as (_ & f & outs & _ & Hm & _).
  apply settled_pendingCount_zero in Hm. lia.
Qed.

Lemma settled_fold (events : list (nat * Outcome)) (st : State) :
  Inv' st -> is_Some (dfd st) -> fold_left complete' events st = st.
Proof.
  intros HI Hs. induction events as [|ev events IH]; simpl; [reflexivity |].
  now rewrite settled_complete.
Qed.

End Run.

(** ** The concurrency bound *)

(** C3.  For a concurrency bound of at least one, [updatesInFlight] never
    exceeds it: every value the counter takes during a dispatch, after each
    increment in [execBatchUpdate] and each decrement in [onUpdateDone], is
    at most [opt.concurrency] (and at least zero), whatever the queue, the
    batch size and the order and outcomes of the completions. *)
Theorem updatesInFlight_bounded
    (whenOrder : AttachOrder)
    (doesMsgHaveError : JsVal -> bool) (getMsgError : JsVal -> string)
    (opt : Opt) (queue : list string) (events : list (nat * Outcome)) :
  1 <= concurrency opt ->
  Forall (fun v => 0 <= v <= concurrency opt)
         (inFlightLog (dispatch whenOrder doesMsgHaveError getMsgError opt queue events))
  /\ 0 <= updatesInFlight (dispatch whenOrder doesMsgHaveError getMsgError opt queue events)
       <= concurrency opt.
Proof.
  intros Hc.
  destruct (Inv_dispatch whenOrder doesMsgHaveError getMsgError opt queue events) as [HI _].
  pose proof (inv_log _ _ _ _ _ _ HI) as Hlog.
  pose proof (inv_bound _ _ _ _ _ _ HI) as Hb.
  pose proof (inv_inFlight _ _ _ _ _ _ HI) as Hf.
  rewrite Z.max_r in Hlog, Hb by lia.
  split; [exact Hlog | lia].
Qed.

(** ** The batches built *)

Lemma ceilDiv_covers (n b : Z) : 1 <= b -> n <= ceilDiv n b * b.
Proof.
  intros Hb. unfold ceilDiv.
  pose proof (Z.div_mod (n + b - 1) b ltac:(lia)).
  pose proof (Z.mod_pos_bound (n + b - 1) b ltac:(lia)). nia.
Qed.

Lemma drop_nonempty_lt {A : Type} (l : list A) (k : nat) :
  drop k l <> [] -> (k < length l)%nat.
Proof.
  intros H. destruct (Nat.lt_ge_cases k (length l)) as [? | Hge]; [assumption |].
  now rewrite drop_ge in H.
Qed.

Section Batches.

Variable whenOrder : AttachOrder.
Variable doesMsgHaveError : JsVal -> bool.
Variable getMsgError : JsVal -> string.
Variable opt : Opt.
Variable queue : list string.

Local Abbreviation run := (dispatch whenOrder doesMsgHaveError getMsgError opt queue).

(** The batches submitted so far are the first groups of [batchSize]
    descriptors of the queue, in order, and the rest of the queue is what
    follows them. *)
Lemma dispatch_chunks (events : list (nat * Outcome)) :
  let st := run events in
  let k := length (updatePromisesList st) in
  let chunks := map (fun j => chunk (Z.to_nat (batchSize opt)) j queue) (seq 0 k) in
  map batch (updatePromisesList st) = map batchOf chunks
  /\ concat chunks ++ _updates st = queue
  /\ Forall (fun ch => (length ch <= Z.to_nat (batchSize opt))%nat) chunks.
Proof.
  intros st k chunks.
  destruct (Inv_dispatch whenOrder doesMsgHaveError getMsgError opt queue events) as [HI _].
  fold st in HI. split; [| split].
  - rewrite (inv_batches _ _ _ _ _ _ HI). subst chunks k.
    now rewrite map_map.
  - subst chunks. rewrite chunks_concat, (inv_queue _ _ _ _ _ _ HI).
    apply take_drop.
  - subst chunks. apply Forall_map, Forall_forall. intros j _. simpl.
    apply chunk_length.
Qed.

(** The number of batches never exceeds max(1, ceil(n / b)) and reaches it
    when the queue is exhausted. *)
Lemma dispatch_count (events : list (nat * Outcome)) :
  1 <= batchSize opt ->
  let st := run events in
  let k := Z.of_nat (length (updatePromisesList st)) in
  let n := Z.of_nat (length queue) in
  k <= Z.max 1 (ceilDiv n (batchSize opt))
  /\ (batchProcessingDone st = true ->
      _updates st = [] /\ k = Z.max 1 (ceilDiv n (batchSize opt))).
Proof.
  intros Hb st k n.
  destruct (Inv_dispatch whenOrder doesMsgHaveError getMsgError opt queue events) as [HI _].
  fold st in HI.
  pose proof (inv_more _ _ _ _ _ _ HI) as Hmore.
  assert (Hlt : 2 <= k -> (k - 1) * batchSize opt < n).
  { intros Hk. subst k n.
    apply drop_nonempty_lt in Hmore; [| lia].
    rewrite Nat2Z.inj_lt, Nat2Z.inj_mul, Nat2Z.inj_sub in Hmore by lia.
    rewrite Z2Nat.id in Hmore by lia. exact Hmore. }
  split.
  - pose proof (ceilDiv_covers n (batchSize opt) Hb) as Hcov.
    destruct (Z_lt_le_dec k 2) as [? | Hk]; [lia |].
    specialize (Hlt Hk).
    assert (k - 1 < ceilDiv n (batchSize opt)) by nia. lia.
  - intros Hdone. apply (inv_done _ _ _ _ _ _ HI) in Hdone as [Hk Hnil].
    split; [assumption |].
    apply launches_ceilDiv; try lia.
    rewrite (inv_queue _ _ _ _ _ _ HI) in Hnil. apply drop_nil_inv in Hnil.
    subst k n. rewrite Nat2Z.inj_le, Nat2Z.inj_mul, Z2Nat.id in Hnil by lia.
    lia.
Qed.

End Batches.

(** C1, as amended.  For every queue of [n] descriptors and every batch
    size [b >= 1], the batches the dispatcher has built at any moment are,
    in build order, groups of at most [b] descriptors whose concatenation
    followed by the descriptors still queued is the original queue: nothing
    is lost, duplicated or reordered.  At most max(1, ceil(n / b)) batches
    are built, and exactly that many once the dispatch has completed:
    ceil(n / b) for a queue that is not empty, and one empty batch for the
    empty queue. *)
Theorem batches_partition_queue
    (whenOrder : AttachOrder)
    (doesMsgHaveError : JsVal -> bool) (getMsgError : JsVal -> string)
    (opt : Opt) (queue : list string) (events : list (nat * Outcome)) :
  1 <= batchSize opt ->
  let st := dispatch whenOrder doesMsgHaveError getMsgError opt queue events in
  let n := Z.of_nat (length queue) in
  exists chunks : list (list string),
    map batch (updatePromisesList st) = map batchOf chunks
    /\ concat chunks ++ _updates st = queue
    /\ Forall (fun ch => Z.of_nat (length ch) <= batchSize opt) chunks
    /\ Z.of_nat (length chunks) <= Z.max 1 (ceilDiv n (batchSize opt))
    /\ (is_Some (dfd st) ->
        _updates st = [] /\ concat chunks = queue /\
        Z.of_nat (length chunks) = Z.max 1 (ceilDiv n (batchSize opt)) /\
        (1 <= n -> Z.of_nat (length chunks) = ceilDiv n (batchSize opt))).
Proof.
  intros Hb st n.
  destruct (dispatch_chunks whenOrder doesMsgHaveError getMsgError opt queue events)
    as (Hbatches & Hconcat & Hlen).
  destruct (dispatch_count whenOrder doesMsgHaveError getMsgError opt queue events Hb)
    as (Hle & Hdone).
  destruct (Inv_dispatch whenOrder doesMsgHaveError getMsgError opt queue events) as [HI _].
  fold st in Hbatches, Hconcat, Hlen, Hle, Hdone, HI.
  eexists. split; [exact Hbatches |]. split; [exact Hconcat |].
  rewrite length_map, length_seq.
  split; [| split; [exact Hle |]].
  - eapply Forall_impl; [exact Hlen |]. simpl. intros ch Hch. lia.
  - intros [s Hs].
    destruct (inv_dfd _ _ _ _ _ _ HI s Hs) as [Hd _].
    destruct (Hdone Hd) as [Hnil Hk].
    split; [assumption |]. split; [| split; [assumption |]].
    + rewrite Hnil, app_nil_r in Hconcat. exact Hconcat.
    + intros Hn. rewrite Hk. subst n.
      pose proof (ceilDiv_covers (Z.of_nat (length queue)) (batchSize opt) Hb).
      destruct (Z_lt_le_dec 0 (ceilDiv (Z.of_nat (length queue)) (batchSize opt)))
        as [? | Hle0]; [lia |].
      pose proof (Z.mul_nonpos_nonneg _ (batchSize opt) Hle0 ltac:(lia)). lia.
Qed.

Lemma updatesInFlight_bounded_witness :
  1 <= concurrency (sampleOpt 2 2) /\
  Forall (fun v => 0 <= v <= 2)
         (inFlightLog (sampleDispatch 2 2 ["a"; "b"; "c"; "d"; "e"] [ok 1; ok 0; ok 2])).
Proof.
  split; [simpl; lia |].
  apply (updatesInFlight_bounded FirstToLast sampleHasError sampleGetError (sampleOpt 2 2)).
  simpl; lia.
Defined.

Lemma batches_partition_queue_witness :
  1 <= batchSize (sampleOpt 2 2) /\
  exists chunks : list (list string),
    map batch (updatePromisesList
                 (sampleDispatch 2 2 ["a"; "b"; "c"; "d"; "e"] [ok 1; ok 0; ok 2]))
    = map batchOf chunks
    /\ concat chunks = ["a"; "b"; "c"; "d"; "e"]
    /\ Z.of_nat (length chunks) = ceilDiv 5 2.
Proof.
  split; [simpl; lia |].
  destruct (batches_partition_queue FirstToLast sampleHasError sampleGetError (sampleOpt 2 2)
              ["a"; "b"; "c"; "d"; "e"] [ok 1; ok 0; ok 2])
    as (chunks & Hb & _ & _ & _ & Hdone); [simpl; lia |].
  destruct Hdone as (_ & Hc & _ & Hn); [vm_compute; eauto |].
  exists chunks. split; [exact Hb |]. split; [exact Hc |].
  apply Hn. simpl; lia.
Defined.

(** The empty queue: one batch is built, not ceil(0 / b) = 0. *)
Lemma batch_count_empty_queue :
  let st := sampleDispatch 100 2 [] [ok 0] in
  is_Some (dfd st)
  /\ map batch (updatePromisesList st) = [batchOf []]
  /\ ceilDiv (Z.of_nat (length (@nil string))) 100 = 0
  /\ Z.of_nat (length (updatePromisesList st))
     <> ceilDiv (Z.of_nat (length (@nil string))) 100.
Proof.
  vm_compute. split; [eauto |]. split; [reflexivity |].
  split; [reflexivity | discriminate].
Qed.

(** ** The empty queue *)

Lemma execBatchUpdate_initial_empty (opt : Opt) :
  1 <= concurrency opt ->
  execBatchUpdate opt (initial [])
  = mkState [] true 1 [mkPromise (batchOf []) None] None [1].
Proof.
  intros Hc. unfold execBatchUpdate, maxConcurrentUpds. simpl.
  destruct (Z.to_nat (concurrency opt - 0)) as [|fuel] eqn:Hfuel; [lia |].
  rewrite execBatchUpdate_rec_unfold. simpl.
  destruct (Z.leb_spec (concurrency opt) 0) as [? | _]; [lia |].
  unfold launch. rewrite getBatchUpdateList_chunk. simpl.
  rewrite take_nil, drop_nil. reflexivity.
Qed.

Lemma aggregate_single_status (whenOrder : AttachOrder)
    (doesMsgHaveError : JsVal -> bool) (getMsgError : JsVal -> string)
    (firing : nat) (o : Outcome) :
  status (responseOf (aggregate whenOrder doesMsgHaveError getMsgError firing [o]))
  = "success"
  <-> exists d t x, o = Resolved d t x /\ doesMsgHaveError (JXml d) = false.
Proof.
  destruct o as [d t x | x t e]; unfold aggregate, processAjaxResponses; simpl.
  - unfold forEachResponse. simpl.
    destruct (doesMsgHaveError (JXml d)) eqn:He; simpl; split.
    + discriminate.
    + intros (d' & t' & x' & [= <- <- <-] & ?). congruence.
    + eauto.
    + reflexivity.
  - split; [discriminate | intros (? & ? & ? & ? & _); discriminate].
Qed.

(** C4, as amended.  With an empty queue (and a concurrency bound of at
    least one) the dispatcher does not resolve at once: the first
    [execBatchUpdate()] builds one batch without descriptors, submits it in
    one Transport call and leaves the overall promise pending.  When that
    call completes the promise is settled with the aggregate of its single
    outcome, and no further call is ever made; the status is [success]
    exactly when the call succeeded and its document carries no error. *)
Theorem empty_queue_one_request
    (whenOrder : AttachOrder)
    (doesMsgHaveError : JsVal -> bool) (getMsgError : JsVal -> string)
    (opt : Opt) :
  1 <= concurrency opt ->
  let run := dispatch whenOrder doesMsgHaveError getMsgError opt [] in
  (map batch (updatePromisesList (run [])) = [batchOf []]
   /\ map settled (updatePromisesList (run [])) = [None]
   /\ updatesInFlight (run []) = 1
   /\ dfd (run []) = None)
  /\ (forall (o : Outcome) (events : list (nat * Outcome)),
        map batch (updatePromisesList (run ((0%nat, o) :: events))) = [batchOf []]
        /\ dfd (run ((0%nat, o) :: events))
           = Some (aggregate whenOrder doesMsgHaveError getMsgError 0 [o]))
  /\ (forall o : Outcome,
        status (responseOf (aggregate whenOrder doesMsgHaveError getMsgError 0 [o])) = "success"
        <-> exists d t x, o = Resolved d t x /\ doesMsgHaveError (JXml d) = false).
Proof.
  intros Hc run.
  assert (H0 : run [] = mkState [] true 1 [mkPromise (batchOf []) None] None [1]).
  { unfold run, dispatch. simpl. now apply execBatchUpdate_initial_empty. }
  split; [rewrite H0; auto |].
  split; [| apply aggregate_single_status].
  intros o events.
  assert (H1 : run [(0%nat, o)]
               = mkState [] true 0 [mkPromise (batchOf []) (Some o)]
                   (Some (aggregate whenOrder doesMsgHaveError getMsgError 0 [o])) [1; 0]).
  { unfold run, dispatch in *. simpl in *. rewrite H0. reflexivity. }
  assert (H2 : run ((0%nat, o) :: events) = run [(0%nat, o)]).
  { unfold run, dispatch. simpl.
    apply (settled_fold whenOrder doesMsgHaveError getMsgError opt []).
    - apply (Inv_dispatch whenOrder doesMsgHaveError getMsgError opt [] [(0%nat, o)]).
    - unfold run, dispatch in H1. simpl in H1. rewrite H1. simpl. eauto. }
  rewrite H2, H1. auto.
Qed.

Lemma empty_queue_one_request_witness :
  1 <= concurrency (sampleOpt 100 2) /\
  dfd (sampleDispatch 100 2 [] []) = None /\
  map batch (updatePromisesList (sampleDispatch 100 2 [] [])) = [batchOf []].
Proof.
  split; [simpl; lia |].
  destruct (empty_queue_one_request FirstToLast sampleHasError sampleGetError (sampleOpt 100 2))
    as ((Hb & _ & _ & Hd) & _); [simpl; lia |].
  split; [exact Hd | exact Hb].
Defined.

(** The empty queue: a Transport call is made and the promise is pending
    until that call completes; when the call fails the status is [error]. *)
Lemma empty_queue_not_immediate :
  dfd (sampleDispatch 100 2 [] []) = None
  /\ length (updatePromisesList (sampleDispatch 100 2 [] [])) = 1%nat
  /\ (exists r,
        dfd (sampleDispatch 100 2 [] [(0%nat, Rejected 0 "timeout" "timeout")])
        = Some (rejectWith r) /\ status r = "error").
Proof.
  vm_compute. split; [reflexivity |]. split; [reflexivity |]. eauto.
Qed.

(** ** Progress *)

Section Progress.

Variable whenOrder : AttachOrder.
Variable doesMsgHaveError : JsVal -> bool.
Variable getMsgError : JsVal -> string.
Variable opt : Opt.

(** [Completed n st]: [n] of the promises of [st] have settled. *)
Local Abbreviation Completed n st :=
  (length (updatePromisesList st) = Nat.add n (pendingCount (updatePromisesList st))).

Lemma Completed_launch (n : nat) (st : State) :
  Completed n st -> Completed n (launch opt st).
Proof.
  intros H. unfold launch. rewrite getBatchUpdateList_chunk. simpl.
  rewrite length_app, pendingCount_app. simpl. simpl in H. lia.
Qed.

Lemma Completed_execBatchUpdate_rec (n fuel : nat) :
  forall st : State,
    Completed n st -> Completed n (execBatchUpdate_rec opt fuel st).
Proof.
  induction fuel as [|fuel IH]; intros st H; rewrite execBatchUpdate_rec_unfold;
    destruct (batchProcessingDone st || (concurrency opt <=? updatesInFlight st));
    try assumption.
  pose proof (Completed_launch n st H).
  destruct (batchProcessingDone (launch opt st)); simpl; auto.
Qed.

Lemma Completed_onUpdateDone (n firing : nat) (st : State) :
  Completed n st ->
  Completed n (onUpdateDone whenOrder doesMsgHaveError getMsgError opt firing st).
Proof.
  intros H. unfold onUpdateDone. cbv zeta.
  set (st1 := set_updatesInFlight (updatesInFlight st - 1) st).
  assert (H1 : Completed n st1) by exact H.
  destruct ((updatesInFlight st1 =? 0) && batchProcessingDone st1).
  - unfold resolveUpdateListItems.
    destruct (mapM settled (updatePromisesList st1)); [| assumption].
    unfold settle_dfd. now destruct (dfd st1).
  - destruct (updatesInFlight st1 <? maxConcurrentUpds opt); [| assumption].
    now apply Completed_execBatchUpdate_rec.
Qed.

Lemma Completed_complete (n : nat) (st : State) (ev : nat * Outcome) :
  isPending st (fst ev) = true -> Completed n st ->
  Completed (S n) (complete whenOrder doesMsgHaveError getMsgError opt st ev).
Proof.
  destruct ev as [i o]. unfold isPending, complete. simpl.
  destruct (updatePromisesList st !! i) as [p|] eqn:Hi; [| discriminate].
  destruct (settled p) eqn:Hp; [discriminate |]. intros _ H.
  apply (Completed_onUpdateDone (S n)). simpl.
  rewrite length_insert, H, <- (pendingCount_settle _ _ _ o Hi Hp). lia.
Qed.

Lemma Completed_deliverable (events : list (nat * Outcome)) :
  forall (n : nat) (st : State),
    deliverable whenOrder doesMsgHaveError getMsgError opt st events = true ->
    Completed n st ->
    Completed (n + length events)
      (fold_left (complete whenOrder doesMsgHaveError getMsgError opt) events st).
Proof.
  induction events as [|ev events IH]; intros n st Hd H; simpl.
  - now rewrite Nat.add_0_r.
  - simpl in Hd. apply andb_true_iff in Hd as [Hp Hd].
    replace (n + S (length events))%nat with (S n + length events)%nat by lia.
    apply IH; [assumption |]. now apply Completed_complete.
Qed.

(** After a valid schedule, as many promises have settled as completions
    were delivered. *)
Lemma validSchedule_completed (queue : list string) (events : list (nat * Outcome)) :
  validSchedule whenOrder doesMsgHaveError getMsgError opt queue events = true ->
  Completed (length events) (dispatch whenOrder doesMsgHaveError getMsgError opt queue events).
Proof.
  intros Hv. unfold dispatch.
  apply (Completed_deliverable events 0); [exact Hv |].
  unfold execBatchUpdate. now apply Completed_execBatchUpdate_rec.
Qed.

(** For a valid configuration the overall promise is settled exactly when
    max(1, ceil(n / b)) completions have been delivered, and no more can
    be. *)
Lemma settled_after_all_completions (queue : list string)
    (events : list (nat * Outcome)) :
  1 <= batchSize opt -> 1 <= concurrency opt ->
  validSchedule whenOrder doesMsgHaveError getMsgError opt queue events = true ->
  let total := Z.max 1 (ceilDiv (Z.of_nat (length queue)) (batchSize opt)) in
  Z.of_nat (length events) <= total
  /\ (is_Some (dfd (dispatch whenOrder doesMsgHaveError getMsgError opt queue events))
      <-> Z.of_nat (length events) = total).
Proof.
  intros Hb Hc Hv total.
  pose proof (validSchedule_completed queue events Hv) as Hcomp.
  destruct (Inv_dispatch whenOrder doesMsgHaveError getMsgError opt queue events) as [HI HQ].
  destruct (dispatch_count whenOrder doesMsgHaveError getMsgError opt queue events Hb)
    as [Hle Hdone].
  fold total in Hle, Hdone.
  pose proof (inv_inFlight _ _ _ _ _ _ HI) as Hf.
  split; [lia |]. split.
  - intros [s Hs].
    destruct (inv_dfd _ _ _ _ _ _ HI s Hs) as (Hd & f & outs & _ & Hm & _).
    apply settled_pendingCount_zero in Hm.
    destruct (Hdone Hd) as [_ Hk]. lia.
  - intros Hlen.
    destruct (dfd (dispatch whenOrder doesMsgHaveError getMsgError opt queue events))
      as [s|] eqn:Hs; [eauto |].
    destruct (HQ Hs) as [Hfalse Htrue].
    destruct (batchProcessingDone
                (dispatch whenOrder doesMsgHaveError getMsgError opt queue events));
      [specialize (Htrue eq_refl) | specialize (Hfalse eq_refl)]; lia.
Qed.

End Progress.

(** ** Configuration *)

Section Configuration.

Variable whenOrder : AttachOrder.
Variable doesMsgHaveError : JsVal -> bool.
Variable getMsgError : JsVal -> string.
Variable opt : Opt.
Variable queue : list string.

Local Abbreviation run := (dispatch whenOrder doesMsgHaveError getMsgError opt queue).

(** With a concurrency of zero or less the guard of [execBatchUpdate] holds
    at once: nothing is ever built or submitted. *)
Lemma dispatch_no_concurrency (events : list (nat * Outcome)) :
  concurrency opt <= 0 -> run events = initial queue.
Proof.
  intros Hc. unfold dispatch.
  assert (H0 : execBatchUpdate opt (initial queue) = initial queue).
  { unfold execBatchUpdate. rewrite execBatchUpdate_rec_unfold. simpl.
    destruct (Z.leb_spec (concurrency opt) 0); [reflexivity | lia]. }
  rewrite H0. induction events as [|[i o] events IH]; [reflexivity |].
  exact IH.
Qed.

(** With a batch size of zero or less no descriptor ever leaves a queue
    that is not empty, so the dispatch never completes. *)
Lemma dispatch_no_batchSize (events : list (nat * Outcome)) :
  batchSize opt <= 0 -> queue <> [] ->
  dfd (run events) = None /\ _updates (run events) = queue.
Proof.
  intros Hb Hq.
  destruct (Inv_dispatch whenOrder doesMsgHaveError getMsgError opt queue events) as [HI _].
  pose proof (inv_queue _ _ _ _ _ _ HI) as Hqueue.
  replace (Z.to_nat (batchSize opt)) with 0%nat in Hqueue by lia.
  rewrite Nat.mul_0_r, drop_0 in Hqueue.
  split; [| assumption].
  destruct (dfd (run events)) as [s|] eqn:Hs; [| reflexivity].
  destruct (inv_dfd _ _ _ _ _ _ HI s Hs) as [Hd _].
  apply (inv_done _ _ _ _ _ _ HI) in Hd as [_ Hnil]. congruence.
Qed.

(** While the overall promise is pending, a request is in flight. *)
Lemma dispatch_pending (events : list (nat * Outcome)) :
  1 <= concurrency opt -> dfd (run events) = None ->
  exists (i : nat) (p : Promise),
    updatePromisesList (run events) !! i = Some p /\ settled p = None.
Proof.
  intros Hc Hnone.
  destruct (Inv_dispatch whenOrder doesMsgHaveError getMsgError opt queue events) as [HI HQ].
  destruct (HQ Hnone) as [Hfalse Htrue].
  pose proof (inv_inFlight _ _ _ _ _ _ HI) as Hf.
  apply pendingCount_pos_lookup.
  destruct (batchProcessingDone (run events)); [specialize (Htrue eq_refl) |
    specialize (Hfalse eq_refl)]; lia.
Qed.

(** The overall promise is settled once. *)
Lemma dispatch_settled_once (events more : list (nat * Outcome)) (s : Settlement) :
  dfd (run events) = Some s -> run (events ++ more) = run events.
Proof.
  intros Hs. unfold dispatch. rewrite fold_left_app.
  apply (settled_fold whenOrder doesMsgHaveError getMsgError opt queue).
  - apply Inv_dispatch.
  - unfold dispatch in Hs. rewrite Hs. eauto.
Qed.

(** The overall promise is settled exactly when the queue is exhausted and
    every promise has settled, and then with their aggregate, in the order
    of [updatePromisesList]. *)
Lemma dispatch_dfd (events : list (nat * Outcome)) (s : Settlement) :
  dfd (run events) = Some s ->
  _updates (run events) = [] /\
  exists (firing : nat) (outcomes : list Outcome),
    (firing < length outcomes)%nat /\
    map settled (updatePromisesList (run events)) = map Some outcomes /\
    s = aggregate whenOrder doesMsgHaveError getMsgError firing outcomes.
Proof.
  intros Hs.
  destruct (Inv_dispatch whenOrder doesMsgHaveError getMsgError opt queue events) as [HI _].
  destruct (inv_dfd _ _ _ _ _ _ HI s Hs) as (Hd & firing & outcomes & Hf & Hm & ->).
  apply (inv_done _ _ _ _ _ _ HI) in Hd as [_ Hnil].
  split; [assumption |]. exists firing, outcomes.
  split; [assumption |]. split; [| reflexivity].
  now apply settled_map_Some.
Qed.

End Configuration.

(** C5, as amended.  The entry point checks neither [batchSize] nor
    [concurrency] and never fails with a configuration error.  With a
    concurrency of zero or less nothing is built or submitted and the
    promise stays pending for ever; with a batch size of zero or less and a
    queue that is not empty no descriptor leaves the queue and the promise
    is never settled.  For every valid configuration ([batchSize >= 1],
    [concurrency >= 1]) the promise is settled with one result: as long as
    it is pending a request is in flight, at most max(1, ceil(n / b))
    requests are made, once it is settled further completions change
    nothing, and it is settled exactly when max(1, ceil(n / b)) completions
    have been delivered. *)
Theorem configuration_not_validated
    (whenOrder : AttachOrder)
    (doesMsgHaveError : JsVal -> bool) (getMsgError : JsVal -> string)
    (opt : Opt) (queue : list string) (events : list (nat * Outcome)) :
  let run := dispatch whenOrder doesMsgHaveError getMsgError opt queue in
  (concurrency opt <= 0 ->
   updatePromisesList (run events) = [] /\ dfd (run events) = None)
  /\ (batchSize opt <= 0 -> queue <> [] ->
      _updates (run events) = queue /\ dfd (run events) = None)
  /\ (1 <= batchSize opt -> 1 <= concurrency opt ->
      (dfd (run events) = None ->
       exists (i : nat) (p : Promise),
         updatePromisesList (run events) !! i = Some p /\ settled p = None)
      /\ Z.of_nat (length (updatePromisesList (run events)))
         <= Z.max 1 (ceilDiv (Z.of_nat (length queue)) (batchSize opt))
      /\ (forall (s : Settlement) (more : list (nat * Outcome)),
            dfd (run events) = Some s -> dfd (run (events ++ more)) = Some s)
      /\ (validSchedule whenOrder doesMsgHaveError getMsgError opt queue events = true ->
          (is_Some (dfd (run events))
           <-> Z.of_nat (length events)
               = Z.max 1 (ceilDiv (Z.of_nat (length queue)) (batchSize opt))))).
Proof.
  intros run. split; [| split].
  - intros Hc. unfold run. now rewrite dispatch_no_concurrency.
  - intros Hb Hq.
    destruct (dispatch_no_batchSize whenOrder doesMsgHaveError getMsgError opt queue events Hb Hq).
    auto.
  - intros Hb Hc. split; [| split; [| split]].
    + now apply dispatch_pending.
    + apply (dispatch_count whenOrder doesMsgHaveError getMsgError opt queue events Hb).
    + intros s more Hs. unfold run.
      now rewrite (dispatch_settled_once _ _ _ _ _ events more s Hs).
    + intros Hv.
      apply (settled_after_all_completions whenOrder doesMsgHaveError getMsgError opt
               queue events Hb Hc Hv).
Qed.

Lemma configuration_not_validated_witness :
  (concurrency (sampleOpt 1 0) <= 0 /\
   dfd (sampleDispatch 1 0 ["a"] [ok 0]) = None)
  /\ (batchSize (sampleOpt 0 1) <= 0 /\ ["a"] <> @nil string /\
      dfd (sampleDispatch 0 1 ["a"] [ok 0; ok 1]) = None)
  /\ (1 <= batchSize (sampleOpt 2 2) /\ 1 <= concurrency (sampleOpt 2 2) /\
      validSchedule FirstToLast sampleHasError sampleGetError (sampleOpt 2 2)
        ["a"; "b"; "c"] [ok 1; ok 0] = true /\
      is_Some (dfd (sampleDispatch 2 2 ["a"; "b"; "c"] [ok 1; ok 0]))).
Proof.
  split; [| split].
  - split; [simpl; lia |].
    destruct (configuration_not_validated FirstToLast sampleHasError sampleGetError
                (sampleOpt 1 0) ["a"] [ok 0]) as (H & _ & _).
    apply H. simpl; lia.
  - split; [simpl; lia |]. split; [discriminate |].
    destruct (configuration_not_validated FirstToLast sampleHasError sampleGetError
                (sampleOpt 0 1) ["a"] [ok 0; ok 1]) as (_ & H & _).
    apply H; [simpl; lia | discriminate].
  - split; [simpl; lia |]. split; [simpl; lia |]. split; [reflexivity |].
    destruct (configuration_not_validated FirstToLast sampleHasError sampleGetError
                (sampleOpt 2 2) ["a"; "b"; "c"] [ok 1; ok 0]) as (_ & _ & H).
    destruct H as (_ & _ & _ & H); [simpl; lia | simpl; lia |].
    apply H; reflexivity.
Defined.

(** An invalid configuration raises no error: with [concurrency = 0] the
    promise is simply left pending, and with [batchSize = 0] requests are
    submitted all the same. *)
Lemma invalid_configuration_no_error :
  (forall events, dfd (sampleDispatch 1 0 ["a"] events) = None)
  /\ dfd (sampleDispatch 0 1 ["a"] [ok 0; ok 1]) = None
  /\ map batch (updatePromisesList (sampleDispatch 0 1 ["a"] [ok 0; ok 1]))
     = [batchOf []; batchOf []; batchOf []].
Proof.
  split; [| vm_compute; auto].
  intros events. unfold sampleDispatch.
  rewrite dispatch_no_concurrency; [reflexivity | simpl; lia].
Qed.

(** ** The OnError directive *)

(** C6.  [getBatchUpdateList] never reads [opt.updateOnError]: the batch it
    builds is the same whatever directive is configured, and with [Return]
    configured the batch still carries [OnError="Continue"], against the
    documentation of [options.updateOnError]. *)
Theorem updateOnError_ignored (opt : Opt) (directive : string) (st : State) :
  getBatchUpdateList
    (mkOpt (listName opt) (webURL opt) directive (batchSize opt) (concurrency opt)) st
  = getBatchUpdateList opt st
  /\ fst (getBatchUpdateList (mkOpt "Tasks" "http://site/" "Return" 100 2)
            (initial ["<Method/>"]))
     = "<Batch OnError=" +:+ quoted "Continue" +:+ "><Method/></Batch>".
Proof. split; reflexivity. Qed.

(** ** The aggregation *)

Section Aggregation.

Variable whenOrder : AttachOrder.
Variable doesMsgHaveError : JsVal -> bool.
Variable getMsgError : JsVal -> string.

Local Abbreviation agg := (aggregate whenOrder doesMsgHaveError getMsgError).
Local Abbreviation each := (forEachResponse doesMsgHaveError getMsgError).

(** The scan of [forEach] over the results of several resolved requests:
    it visits all of them, collects every document and jqXHR in order, and
    each document with an error overwrites the status and the message. *)
Lemma forEach_resolved (outcomes : list Outcome) :
  Forall (fun o => isRejected o = false) outcomes ->
  forall (st : string) (msg : JsVal) (hd xr : list JsVal),
    fold_left (each true false) (resolvedArgs outcomes)
              (mkResponse st msg (JArray hd) (JArray xr))
    = mkResponse
        (match last (List.filter doesMsgHaveError (map payload outcomes)) with
         | Some _ => "error"
         | None => st
         end)
        (match last (List.filter doesMsgHaveError (map payload outcomes)) with
         | Some p => JString (getMsgError p)
         | None => msg
         end)
        (JArray (hd ++ map payload outcomes))
        (JArray (xr ++ map rawResponse outcomes)).
Proof.
  induction 1 as [|o outcomes Ho _ IH]; intros st msg hd xr; simpl.
  - now rewrite !app_nil_r.
  - destruct o as [d t x | x t e]; [| discriminate]. simpl.
    unfold forEachResponse at 1. simpl.
    destruct (doesMsgHaveError (JXml d)) eqn:He; rewrite IH, <- !app_assoc; simpl.
    + rewrite last_cons.
      now destruct (last (List.filter doesMsgHaveError (map payload outcomes))).
    + reflexivity.
Qed.

Lemma filter_isRejected_nil (outcomes : list Outcome) :
  Forall (fun o => isRejected o = false) outcomes ->
  List.filter isRejected outcomes = [].
Proof.
  induction 1 as [|o os Ho _ IH]; simpl; [reflexivity | now rewrite Ho].
Qed.

Lemma find_isRejected_None (outcomes : list Outcome) :
  Forall (fun o => isRejected o = false) outcomes ->
  List.find isRejected outcomes = None.
Proof.
  induction 1 as [|o os Ho _ IH]; simpl; [reflexivity | now rewrite Ho].
Qed.

Lemma jq_when_resolved (firing : nat) (outcomes : list Outcome) :
  Forall (fun o => isRejected o = false) outcomes ->
  (1 < length outcomes)%nat ->
  jq_when whenOrder firing outcomes = (false, resolvedArgs outcomes).
Proof.
  intros Hall Hlen.
  pose proof (find_isRejected_None outcomes Hall) as Hfind.
  pose proof (filter_isRejected_nil _ (Forall_delete _ _ firing Hall)) as Hnil.
  destruct outcomes as [|o1 [|o2 os]]; simpl in Hlen; try lia.
  unfold jq_when. rewrite Hnil, Hfind. now destruct whenOrder.
Qed.

(** A rejected master carries the arguments of one rejected promise. *)
Lemma jq_when_rejected (firing : nat) (outcomes : list Outcome) :
  Exists (fun o => isRejected o = true) outcomes ->
  exists x t e,
    In (Rejected x t e) outcomes
    /\ jq_when whenOrder firing outcomes = (true, [JXhr x; JString t; JString e]).
Proof.
  intros Hex.
  assert (Hfind : exists x t e, List.find isRejected outcomes = Some (Rejected x t e)).
  { induction Hex as [o os Ho | o os _ IH]; simpl.
    - rewrite Ho. destruct o; [discriminate | eauto].
    - destruct (isRejected o) eqn:Ho; [destruct o; [discriminate | eauto] | assumption]. }
  destruct Hfind as (x & t & e & Hfind).
  assert (Hin : In (Rejected x t e) outcomes) by (apply find_some in Hfind; tauto).
  assert (Hsub : forall p, In p (List.filter isRejected (delete firing outcomes)) ->
                   exists x t e, p = Rejected x t e /\ In p outcomes).
  { intros p Hp. apply filter_In in Hp as [Hp Hr].
    destruct p as [|x' t' e']; [discriminate |].
    exists x', t', e'. split; [reflexivity |].
    apply list_elem_of_In. apply list_elem_of_In in Hp.
    eapply list_elem_of_delete_inv; eassumption. }
  destruct outcomes as [|o1 [|o2 os]].
  - discriminate.
  - simpl in Hfind. destruct (isRejected o1) eqn:Ho; [| discriminate].
    injection Hfind as ->. simpl. eauto 10.
  - unfold jq_when.
    set (before := List.filter isRejected (delete firing (o1 :: o2 :: os))) in *.
    destruct (match whenOrder with
              | FirstToLast => head before
              | LastToFirst => last before
              end) as [p|] eqn:Hfirst.
    + assert (Hp : In p before).
      { apply list_elem_of_In. destruct whenOrder.
        - destruct before; [discriminate |]. injection Hfirst as ->. left.
        - apply last_Some in Hfirst as [l' ->].
          apply elem_of_app. right. now apply list_elem_of_singleton. }
      destruct (Hsub p Hp) as (x' & t' & e' & -> & Hin').
      exists x', t', e'. split; [assumption | reflexivity].
    + rewrite Hfind. exists x, t, e. split; [assumption | reflexivity].
Qed.

(** Several requests, all resolved. *)
Lemma aggregate_resolved_multi (firing : nat) (outcomes : list Outcome) :
  Forall (fun o => isRejected o = false) outcomes ->
  (1 < length outcomes)%nat ->
  responseOf (agg firing outcomes)
  = mkResponse
      (match last (List.filter doesMsgHaveError (map payload outcomes)) with
       | Some _ => "error"
       | None => "success"
       end)
      (match last (List.filter doesMsgHaveError (map payload outcomes)) with
       | Some p => JString (getMsgError p)
       | None => JString "Update Successful."
       end)
      (JArray (map payload outcomes))
      (JArray (map rawResponse outcomes)).
Proof.
  intros Hall Hlen. unfold aggregate.
  rewrite jq_when_resolved by assumption.
  unfold processAjaxResponses.
  destruct (Nat.ltb_spec 1 (length outcomes)) as [_ | ?]; [| lia].
  cbn [negb]. rewrite forEach_resolved by assumption. simpl.
  now destruct (last (List.filter doesMsgHaveError (map payload outcomes))).
Qed.

(** One request, resolved. *)
Lemma aggregate_resolved_single (firing : nat) (d t : string) (x : nat) :
  responseOf (agg firing [Resolved d t x])
  = mkResponse
      (if doesMsgHaveError (JXml d) then "error" else "success")
      (if doesMsgHaveError (JXml d) then JString (getMsgError (JXml d))
       else JString "Update Successful.")
      (JXml d) (JXhr x).
Proof.
  unfold aggregate, processAjaxResponses, forEachResponse. simpl.
  now destruct (doesMsgHaveError (JXml d)).
Qed.

(** One request, rejected. *)
Lemma aggregate_rejected_single (firing x : nat) (t e : string) :
  agg firing [Rejected x t e]
  = rejectWith (mkResponse "error" (or (JString t) (JString "HTTP error."))
                           (JString e) (JString e)).
Proof. reflexivity. Qed.

(** The settlement follows the status. *)
Lemma aggregate_settlement (firing : nat) (outcomes : list Outcome) :
  agg firing outcomes
  = if String.eqb (status (responseOf (agg firing outcomes))) "error"
    then rejectWith (responseOf (agg firing outcomes))
    else resolveWith (responseOf (agg firing outcomes)).
Proof.
  unfold aggregate.
  destruct (jq_when whenOrder firing outcomes) as [rej args].
  unfold processAjaxResponses.
  match goal with
  | |- context [String.eqb (status ?r) "error"] =>
      destruct (String.eqb (status r) "error") eqn:He
  end; simpl; now rewrite He.
Qed.

End Aggregation.

(** C2.  Two batches: the first request succeeds, the second fails at
    transport level with [textStatus] and [errorThrown] both [timeout].  The
    only failure, hence the last one in completion order, has the message
    [timeout]; the response has the message [i], the second character of
    [errorThrown], and [httpData] holds [undefined] and two characters
    instead of the jqXHR objects.  With the same failure as the outcome of a
    single batch the message is [timeout].  So it is with either order in
    which [$.when] attaches its callbacks. *)
Theorem transport_failure_message_garbled (whenOrder : AttachOrder) :
  let failure := Rejected 1 "timeout" "timeout" in
  let events := [(0%nat, Resolved "ok" "success" 0); (1%nat, failure)] in
  let two := dispatch whenOrder sampleHasError sampleGetError (sampleOpt 1 2)
               ["a"; "b"] events in
  let one := dispatch whenOrder sampleHasError sampleGetError (sampleOpt 2 2)
               ["a"; "b"] [(0%nat, failure)] in
  last (omap failureMessage (completionOrder events)) = Some (JString "timeout")
  /\ (exists r : Response,
        dfd two = Some (rejectWith r)
        /\ map batch (updatePromisesList two) = [batchOf ["a"]; batchOf ["b"]]
        /\ message r = JString "i"
        /\ Some (message r) <> last (omap failureMessage (completionOrder events))
        /\ httpData r = JArray [JUndefined; JString "m"; JString "m"]
        /\ xhrRequest r = JArray [JUndefined; JString "m"; JString "m"])
  /\ (exists r : Response,
        dfd one = Some (rejectWith r)
        /\ map batch (updatePromisesList one) = [batchOf ["a"; "b"]]
        /\ message r = JString "timeout").
Proof.
  destruct whenOrder; vm_compute;
    (split; [reflexivity |]); split; eexists;
    repeat (split; [reflexivity || discriminate |]); reflexivity.
Qed.

(** C8, as amended.  When no outcome carries a transport-level failure,
    every document is inspected; if at least one encodes an application
    error the status is [error] and the message is that of the last such
    document in the order of [updatePromisesList] (each later one
    overwrites the message), and otherwise the status is [success] with the
    message [Update Successful.]. *)
Theorem application_error_last_wins
    (whenOrder : AttachOrder)
    (doesMsgHaveError : JsVal -> bool) (getMsgError : JsVal -> string)
    (firing : nat) (outcomes : list Outcome) :
  outcomes <> [] ->
  Forall (fun o => isRejected o = false) outcomes ->
  let s := aggregate whenOrder doesMsgHaveError getMsgError firing outcomes in
  match last (List.filter doesMsgHaveError (map payload outcomes)) with
  | Some p =>
      s = rejectWith (responseOf s) /\ status (responseOf s) = "error" /\
      message (responseOf s) = JString (getMsgError p)
  | None =>
      s = resolveWith (responseOf s) /\ status (responseOf s) = "success" /\
      message (responseOf s) = JString "Update Successful."
  end.
Proof.
  intros Hne Hall s.
  assert (Hr : responseOf s
               = mkResponse
                   (match last (List.filter doesMsgHaveError (map payload outcomes)) with
                    | Some _ => "error"
                    | None => "success"
                    end)
                   (match last (List.filter doesMsgHaveError (map payload outcomes)) with
                    | Some p => JString (getMsgError p)
                    | None => JString "Update Successful."
                    end)
                   (httpData (responseOf s)) (xhrRequest (responseOf s))).
  { destruct outcomes as [|o1 [|o2 os]]; [contradiction | |].
    - destruct o1 as [d t x | x t e]; [| now inversion Hall].
      subst s. rewrite aggregate_resolved_single. simpl.
      now destruct (doesMsgHaveError (JXml d)).
    - subst s. rewrite aggregate_resolved_multi by (simpl; auto; lia).
      reflexivity. }
  pose proof (aggregate_settlement whenOrder doesMsgHaveError getMsgError firing outcomes) as Hs.
  fold s in Hs. rewrite Hs, Hr.
  destruct (last (List.filter doesMsgHaveError (map payload outcomes))); simpl; auto.
Qed.

Lemma application_error_last_wins_witness :
  [Resolved "fine" "success" 0; Resolved "ERR duplicate key" "success" 1] <> [] /\
  message (responseOf (aggregate FirstToLast sampleHasError sampleGetError 1
             [Resolved "fine" "success" 0; Resolved "ERR duplicate key" "success" 1]))
  = JString "ERR duplicate key".
Proof.
  split; [discriminate |].
  pose proof (application_error_last_wins FirstToLast sampleHasError sampleGetError 1
                [Resolved "fine" "success" 0; Resolved "ERR duplicate key" "success" 1]
                ltac:(discriminate) ltac:(repeat constructor)) as H.
  simpl in H. apply H.
Defined.

(** Two documents with an application error: the message is that of the
    second one, not of the first one detected. *)
Lemma first_application_error_overwritten :
  let outcomes := [Resolved "ERR first" "success" 0; Resolved "ERR second" "success" 1] in
  let r := responseOf (aggregate FirstToLast sampleHasError sampleGetError 1 outcomes) in
  Forall (fun o => isRejected o = false) outcomes
  /\ List.find sampleHasError (map payload outcomes) = Some (JXml "ERR first")
  /\ status r = "error"
  /\ message r = JString "ERR second"
  /\ message r <> JString (sampleGetError (JXml "ERR first")).
Proof.
  simpl. split; [repeat constructor |].
  vm_compute. split; [reflexivity |]. split; [reflexivity |].
  split; [reflexivity | discriminate].
Qed.

Lemma settled_Some_length (ps : list Promise) (outcomes : list Outcome) :
  map settled ps = map Some outcomes -> length ps = length outcomes.
Proof.
  intros H. now rewrite <- (length_map settled ps), H, length_map.
Qed.

(** C7, as amended.  If exactly one batch was submitted, [httpData] and
    [xhrRequest] of the result are single values, not arrays.  If more than
    one batch was submitted and all of them succeeded, both are arrays with
    one entry per batch, in the order of [updatePromisesList], which is the
    order in which the batches were submitted. *)
Theorem response_shape
    (whenOrder : AttachOrder)
    (doesMsgHaveError : JsVal -> bool) (getMsgError : JsVal -> string)
    (opt : Opt) (queue : list string) (events : list (nat * Outcome))
    (s : Settlement) :
  let st := dispatch whenOrder doesMsgHaveError getMsgError opt queue events in
  dfd st = Some s ->
  exists outcomes : list Outcome,
    map settled (updatePromisesList st) = map Some outcomes
    /\ (length (updatePromisesList st) = 1%nat ->
        isArrayVal (httpData (responseOf s)) = false /\
        isArrayVal (xhrRequest (responseOf s)) = false)
    /\ ((1 < length (updatePromisesList st))%nat ->
        Forall (fun o => isRejected o = false) outcomes ->
        httpData (responseOf s) = JArray (map payload outcomes) /\
        xhrRequest (responseOf s) = JArray (map rawResponse outcomes)).
Proof.
  intros st Hs.
  destruct (dispatch_dfd whenOrder doesMsgHaveError getMsgError opt queue events s Hs)
    as (_ & firing & outcomes & _ & Hmap & ->).
  fold st in Hmap. exists outcomes. split; [exact Hmap |].
  rewrite (settled_Some_length _ _ Hmap). split.
  - intros Hlen. destruct outcomes as [|o [|? ?]]; try discriminate.
    destruct o as [d t x | x t e].
    + rewrite aggregate_resolved_single. auto.
    + rewrite aggregate_rejected_single. auto.
  - intros Hlen Hall. now rewrite aggregate_resolved_multi.
Qed.

Lemma response_shape_witness :
  exists s outcomes,
    dfd (sampleDispatch 1 2 ["a"; "b"]
           [(1%nat, Resolved "d2" "success" 1); (0%nat, Resolved "d1" "success" 0)])
    = Some s
    /\ outcomes = [Resolved "d1" "success" 0; Resolved "d2" "success" 1]
    /\ httpData (responseOf s) = JArray (map payload outcomes).
Proof.
  eexists. 
  destruct (response_shape FirstToLast sampleHasError sampleGetError (sampleOpt 1 2) ["a"; "b"]
              [(1%nat, Resolved "d2" "success" 1); (0%nat, Resolved "d1" "success" 0)]
              _ eq_refl) as (outcomes & Hmap & _ & Hmulti).
  exists outcomes. split; [reflexivity |].
  assert (Ho : outcomes = [Resolved "d1" "success" 0; Resolved "d2" "success" 1]).
  { vm_compute in Hmap.
    destruct outcomes as [|o1 [|o2 [|o3 os]]]; try discriminate.
    now injection Hmap as <- <-. }
  split; [exact Ho |].
  apply Hmulti; [vm_compute; lia | subst outcomes; repeat constructor].
Defined.

(** Two batches that both succeed and complete in the order 2, 1: the
    entries of [httpData] and [xhrRequest] are in submission order, not in
    completion order. *)
Lemma response_in_submission_order :
  let events := [(1%nat, Resolved "d2" "success" 1); (0%nat, Resolved "d1" "success" 0)] in
  let st := sampleDispatch 1 2 ["a"; "b"] events in
  exists r : Response,
    dfd st = Some (resolveWith r)
    /\ length (updatePromisesList st) = 2%nat
    /\ httpData r = JArray [JXml "d1"; JXml "d2"]
    /\ xhrRequest r = JArray [JXhr 0; JXhr 1]
    /\ httpData r <> JArray (map payload (completionOrder events))
    /\ xhrRequest r <> JArray (map rawResponse (completionOrder events)).
Proof.
  vm_compute. eexists. split; [reflexivity |].
  repeat (split; [reflexivity |]). split; discriminate.
Qed.

(** ** Independence of the outcomes *)

Section Independence.

Variable whenOrder : AttachOrder.
Variable doesMsgHaveError : JsVal -> bool.
Variable getMsgError : JsVal -> string.
Variable opt : Opt.

Lemma Same_launch (st st' : State) :
  Same st st' -> Same (launch opt st) (launch opt st').
Proof.
  intros [Hu Hd Hf Hl Hp Hdfd]. unfold launch.
  rewrite !getBatchUpdateList_chunk. simpl.
  constructor; simpl; rewrite <- ?Hu, <- ?Hd, <- ?Hf, <- ?Hl; try reflexivity.
  - apply Forall2_app; [assumption |]. repeat constructor; simpl; auto.
  - assumption.
Qed.

Lemma Same_execBatchUpdate_rec (fuel : nat) :
  forall st st' : State,
    Same st st' ->
    Same (execBatchUpdate_rec opt fuel st) (execBatchUpdate_rec opt fuel st').
Proof.
  induction fuel as [|fuel IH]; intros st st' HS;
    rewrite (execBatchUpdate_rec_unfold opt _ st),
            (execBatchUpdate_rec_unfold opt _ st');
    rewrite <- (same_done _ _ HS), <- (same_inFlight _ _ HS);
    destruct (batchProcessingDone st || (concurrency opt <=? updatesInFlight st));
    try assumption.
  pose proof (Same_launch _ _ HS) as HL.
  rewrite <- (same_done _ _ HL).
  destruct (batchProcessingDone (launch opt st)); simpl; auto.
Qed.

Lemma Same_execBatchUpdate (st st' : State) :
  Same st st' -> Same (execBatchUpdate opt st) (execBatchUpdate opt st').
Proof.
  intros HS. unfold execBatchUpdate.
  rewrite <- (same_inFlight _ _ HS). now apply Same_execBatchUpdate_rec.
Qed.

Lemma Same_pendingCount (ps ps' : list Promise) :
  Forall2 (fun p p' => batch p = batch p' /\ (settled p = None <-> settled p' = None))
          ps ps' ->
  pendingCount ps = pendingCount ps'.
Proof.
  induction 1 as [|p p' ps ps' [_ [H1 H2]] _ IH]; [reflexivity |]. simpl.
  destruct (settled p) as [o|], (settled p') as [o'|]; try (now rewrite IH).
  - specialize (H2 eq_refl). discriminate.
  - specialize (H1 eq_refl). discriminate.
Qed.

Lemma Same_all_settled (ps ps' : list Promise) :
  Forall2 (fun p p' => batch p = batch p' /\ (settled p = None <-> settled p' = None))
          ps ps' ->
  mapM settled ps = None <-> mapM settled ps' = None.
Proof.
  intros H. apply Same_pendingCount in H.
  split; intros Hnone.
  - destruct (mapM settled ps') as [os|] eqn:E; [| reflexivity].
    apply settled_pendingCount_zero in E. rewrite <- H in E.
    destruct (pendingCount_zero_settled _ E) as [os' Hos]. congruence.
  - destruct (mapM settled ps) as [os|] eqn:E; [| reflexivity].
    apply settled_pendingCount_zero in E. rewrite H in E.
    destruct (pendingCount_zero_settled _ E) as [os' Hos]. congruence.
Qed.

Lemma Same_resolveUpdateListItems (firing : nat) (st st' : State) :
  Same st st' ->
  Same (resolveUpdateListItems whenOrder doesMsgHaveError getMsgError firing st)
       (resolveUpdateListItems whenOrder doesMsgHaveError getMsgError firing st').
Proof.
  intros HS. unfold resolveUpdateListItems.
  pose proof (Same_all_settled _ _ (same_promises _ _ HS)) as Hall.
  destruct (mapM settled (updatePromisesList st)) as [os|],
           (mapM settled (updatePromisesList st')) as [os'|];
    try assumption;
    try (destruct Hall as [H1 H2];
         (specialize (H1 eq_refl) || specialize (H2 eq_refl)); discriminate).
  unfold settle_dfd. pose proof (same_dfd _ _ HS) as Hdfd.
  destruct (dfd st) as [s|] eqn:Hs, (dfd st') as [s'|] eqn:Hs';
    try assumption;
    try (destruct Hdfd as [H1 H2];
         (specialize (H1 eq_refl) || specialize (H2 eq_refl)); discriminate).
  destruct HS. constructor; simpl; try assumption. easy.
Qed.

Lemma Same_onUpdateDone (firing : nat) (st st' : State) :
  Same st st' ->
  Same (onUpdateDone whenOrder doesMsgHaveError getMsgError opt firing st)
       (onUpdateDone whenOrder doesMsgHaveError getMsgError opt firing st').
Proof.
  intros HS. unfold onUpdateDone.
  assert (HS1 : Same (set_updatesInFlight (updatesInFlight st - 1) st)
                     (set_updatesInFlight (updatesInFlight st' - 1) st')).
  { destruct HS as [Hu Hd Hf Hl Hp Hdfd].
    constructor; simpl; rewrite <- ?Hf, <- ?Hl; auto. }
  cbv zeta.
  rewrite <- (same_done _ _ HS1), <- (same_inFlight _ _ HS1).
  destruct ((updatesInFlight (set_updatesInFlight (updatesInFlight st - 1) st) =? 0)
            && batchProcessingDone (set_updatesInFlight (updatesInFlight st - 1) st)).
  - now apply Same_resolveUpdateListItems.
  - unfold maxConcurrentUpds.
    destruct (updatesInFlight (set_updatesInFlight (updatesInFlight st - 1) st)
              <? concurrency opt); [now apply Same_execBatchUpdate | assumption].
Qed.

Lemma Same_complete (st st' : State) (i : nat) (o o' : Outcome) :
  Same st st' ->
  Same (complete whenOrder doesMsgHaveError getMsgError opt st (i, o))
       (complete whenOrder doesMsgHaveError getMsgError opt st' (i, o')).
Proof.
  intros HS. unfold complete.
  pose proof (same_promises _ _ HS) as Hps.
  destruct (updatePromisesList st !! i) as [p|] eqn:Hi.
  - destruct (Forall2_lookup_l _ _ _ _ _ Hps Hi) as (p' & Hi' & Hb & Hp).
    rewrite Hi'.
    destruct (settled p) eqn:Hsp, (settled p') eqn:Hsp'; try assumption;
      try (destruct Hp as [H1 H2];
           (specialize (H1 eq_refl) || specialize (H2 eq_refl)); discriminate).
    apply Same_onUpdateDone. destruct HS as [Hu Hd Hf Hl _ Hdfd].
    constructor; simpl; try assumption.
    apply Forall2_insert; [assumption |]. simpl. split; [assumption | easy].
  - destruct (updatePromisesList st' !! i) as [p'|] eqn:Hi'; [| assumption].
    destruct (Forall2_lookup_r _ _ _ _ _ Hps Hi') as (p & Hi2 & _). congruence.
Qed.

Lemma Same_fold (events : list (nat * Outcome)) :
  forall (events' : list (nat * Outcome)) (st st' : State),
    map fst events = map fst events' -> Same st st' ->
    Same (fold_left (complete whenOrder doesMsgHaveError getMsgError opt) events st)
         (fold_left (complete whenOrder doesMsgHaveError getMsgError opt) events' st').
Proof.
  induction events as [|[i o] events IH]; intros [|[i' o'] events'] st st' Hev HS;
    try discriminate; simpl; [assumption |].
  simpl in Hev. injection Hev as <- Hev.
  apply IH; [assumption |]. now apply Same_complete.
Qed.

Lemma Same_refl (st : State) : Same st st.
Proof.
  constructor; try reflexivity.
  apply Forall_Forall2_diag, Forall_forall. intros p _. easy.
Qed.

Lemma Same_dispatch (queue : list string) (events events' : list (nat * Outcome)) :
  map fst events = map fst events' ->
  Same (dispatch whenOrder doesMsgHaveError getMsgError opt queue events)
       (dispatch whenOrder doesMsgHaveError getMsgError opt queue events').
Proof.
  intros Hev. unfold dispatch. apply Same_fold; [assumption | apply Same_refl].
Qed.

End Independence.

(** C9.  A Transport failure never cancels or repeats a batch.  Two runs
    of a dispatch whose requests complete in the same order, whatever their
    outcomes (success or failure), submit the same batches, leave the same
    queue, have the same requests in flight and settle the overall promise
    at the same moment.  The batches submitted are, once each and in build
    order, the successive groups of the queue; and the overall promise is
    settled only when the queue is exhausted and every submitted request has
    completed, while with a concurrency of at least one a request is in
    flight as long as it is pending. *)
Theorem failures_do_not_cancel
    (whenOrder : AttachOrder)
    (doesMsgHaveError : JsVal -> bool) (getMsgError : JsVal -> string)
    (opt : Opt) (queue : list string) (events events' : list (nat * Outcome)) :
  map fst events = map fst events' ->
  let st := dispatch whenOrder doesMsgHaveError getMsgError opt queue events in
  let st' := dispatch whenOrder doesMsgHaveError getMsgError opt queue events' in
  (map batch (updatePromisesList st) = map batch (updatePromisesList st')
   /\ _updates st = _updates st'
   /\ updatesInFlight st = updatesInFlight st'
   /\ (forall i, (exists p, updatePromisesList st !! i = Some p /\ settled p = None)
                 <-> (exists p', updatePromisesList st' !! i = Some p' /\ settled p' = None))
   /\ (dfd st = None <-> dfd st' = None))
  /\ (map batch (updatePromisesList st)
      = map (fun j => batchOf (chunk (Z.to_nat (batchSize opt)) j queue))
            (seq 0 (length (updatePromisesList st))))
  /\ (is_Some (dfd st) ->
      _updates st = [] /\
      Forall (fun p => is_Some (settled p)) (updatePromisesList st))
  /\ (1 <= concurrency opt -> dfd st = None ->
      exists i p, updatePromisesList st !! i = Some p /\ settled p = None).
Proof.
  intros Hev st st'.
  pose proof (Same_dispatch whenOrder doesMsgHaveError getMsgError opt queue events events' Hev)
    as [Hu Hd Hf Hl Hp Hdfd].
  fold st st' in Hu, Hd, Hf, Hl, Hp, Hdfd.
  destruct (Inv_dispatch whenOrder doesMsgHaveError getMsgError opt queue events) as [HI HQ].
  fold st in HI, HQ.
  split; [| split; [| split]].
  - split; [| split; [assumption | split; [assumption | split; [| assumption]]]].
    + clear -Hp. induction Hp as [|p p' ps ps' [Hb _] _ IH]; simpl;
        [reflexivity | now rewrite Hb, IH].
    + intros i. split.
      * intros (p & Hi & Hs).
        destruct (Forall2_lookup_l _ _ _ _ _ Hp Hi) as (p' & Hi' & _ & Hiff).
        exists p'. split; [assumption | now apply Hiff].
      * intros (p' & Hi' & Hs').
        destruct (Forall2_lookup_r _ _ _ _ _ Hp Hi') as (p & Hi & _ & Hiff).
        exists p. split; [assumption | now apply Hiff].
  - exact (inv_batches _ _ _ _ _ _ HI).
  - intros [s Hs].
    destruct (dispatch_dfd whenOrder doesMsgHaveError getMsgError opt queue events s Hs)
      as (Hnil & firing & outcomes & _ & Hmap & _).
    fold st in Hnil, Hmap. split; [assumption |].
    exact (settled_map_Some_all _ _ Hmap).
  - intros Hc Hnone.
    now apply (dispatch_pending whenOrder doesMsgHaveError getMsgError opt queue events).
Qed.

Lemma failures_do_not_cancel_witness :
  map fst [(1%nat, Rejected 1 "timeout" "timeout");
           (0%nat, Rejected 0 "error" "Not Found")]
  = map fst [ok 1; ok 0]
  /\ map batch (updatePromisesList
                  (sampleDispatch 1 2 ["a"; "b"; "c"]
                     [(1%nat, Rejected 1 "timeout" "timeout");
                      (0%nat, Rejected 0 "error" "Not Found")]))
     = map batch (updatePromisesList (sampleDispatch 1 2 ["a"; "b"; "c"] [ok 1; ok 0])).
Proof.
  split; [reflexivity |].
  apply (failures_do_not_cancel FirstToLast sampleHasError sampleGetError (sampleOpt 1 2)
           ["a"; "b"; "c"]
           [(1%nat, Rejected 1 "timeout" "timeout");
            (0%nat, Rejected 0 "error" "Not Found")]
           [ok 1; ok 0] eq_refl).
Defined.

(** ** The caller's options *)

Lemma assoc_assign (name name' : string) (v : Val) (props : list (string * Val)) :
  assoc name' (assign name v props)
  = if String.eqb name name' then Some v else assoc name' props.
Proof.
  induction props as [|[k w] props IH]; simpl.
  - rewrite String.eqb_sym. reflexivity.
  - destruct (String.eqb_spec k name) as [-> | Hk]; simpl.
    + destruct (String.eqb_spec name name'); reflexivity.
    + rewrite IH. destruct (String.eqb_spec k name') as [-> | Hk'].
      * destruct (String.eqb_spec name name'); [congruence | reflexivity].
      * reflexivity.
Qed.

Lemma assoc_not_in (name : string) (props : list (string * Val)) :
  ~ In name (map fst props) -> assoc name props = None.
Proof.
  induction props as [|[k w] props IH]; simpl; [reflexivity |].
  intros Hnot. destruct (String.eqb_spec k name); [tauto |]. apply IH. tauto.
Qed.

(** What [$.extend] leaves in a property of the target: the value of the
    source unless the source lacks the property or has it [undefined]. *)
Lemma extendWith_assoc (name : string) (source : list (string * Val)) :
  NoDup (map fst source) ->
  forall target : list (string * Val),
    assoc name (extendWith target source)
    = match assoc name source with
      | None | Some VUndefined => assoc name target
      | Some v => Some v
      end.
Proof.
  unfold extendWith.
  induction source as [|[k w] source IH]; intros Hnd target; simpl; [reflexivity |].
  apply NoDup_cons in Hnd as [Hk Hnd]. rewrite (IH Hnd).
  destruct (String.eqb_spec k name) as [-> | Hne].
  - rewrite (assoc_not_in name source) by (now rewrite <- list_elem_of_In).
    destruct w; try reflexivity; rewrite assoc_assign, String.eqb_refl; reflexivity.
  - assert (Hsame : assoc name
                      match w with
                      | VUndefined => target
                      | _ => assign k w target
                      end = assoc name target).
    { destruct w; try reflexivity; rewrite assoc_assign;
        now destruct (String.eqb_spec k name). }
    now rewrite Hsame.
Qed.

Lemma setProp_other (h : Heap) (l l' : loc) (name : string) (v : Val) :
  l' <> l -> setProp h l name v !! l' = h !! l'.
Proof.
  intros Hne. unfold setProp.
  destruct (h !! l) as [[props | elems]|]; try reflexivity.
  now rewrite lookup_insert_ne.
Qed.

Lemma setProp_object (h : Heap) (l : loc) (name : string) (v : Val)
    (props : list (string * Val)) :
  h !! l = Some (CObject props) ->
  setProp h l name v !! l = Some (CObject (assign name v props)).
Proof. intros H. unfold setProp. rewrite H. apply lookup_insert_eq. Qed.

Lemma getProp_setProp (h : Heap) (l : loc) (name name' : string) (v : Val)
    (props : list (string * Val)) :
  h !! l = Some (CObject props) ->
  getProp (setProp h l name v) l name'
  = if String.eqb name name' then v else getProp h l name'.
Proof.
  intros H. unfold getProp. rewrite (setProp_object _ _ _ _ _ H), H, assoc_assign.
  now destruct (String.eqb name name').
Qed.

Lemma alloc_fresh (h : Heap) (c : Cell) :
  h !! fst (alloc h c) = None
  /\ snd (alloc h c) !! fst (alloc h c) = Some c
  /\ forall l, l <> fst (alloc h c) -> snd (alloc h c) !! l = h !! l.
Proof.
  unfold alloc. simpl. split; [| split].
  - apply not_elem_of_dom, is_fresh.
  - apply lookup_insert_eq.
  - intros l Hne. now apply lookup_insert_ne.
Qed.

Lemma getProp_setProp_ne (h : Heap) (l : loc) (name name' : string) (v : Val) :
  name <> name' -> getProp (setProp h l name v) l name' = getProp h l name'.
Proof.
  intros Hne. unfold setProp.
  destruct (h !! l) as [[props | elems]|] eqn:Hl; try reflexivity.
  unfold getProp. rewrite lookup_insert_eq, Hl, assoc_assign.
  now destruct (String.eqb_spec name name').
Qed.

Lemma getProp_same_cell (h h' : Heap) (l : loc) (name : string) :
  h' !! l = h !! l -> getProp h' l name = getProp h l name.
Proof. intros H. unfold getProp. now rewrite H. Qed.

Lemma onlyCounter_refl (options : loc) (h : Heap) : onlyCounter options h h.
Proof. repeat split; eauto. Qed.

Lemma onlyCounter_trans (options : loc) (h1 h2 h3 : Heap) :
  onlyCounter options h1 h2 -> onlyCounter options h2 h3 ->
  onlyCounter options h1 h3.
Proof.
  intros (Ha & Hb & Hc) (Ha' & Hb' & Hc'). split; [| split].
  - intros l Hl. now rewrite Ha', Ha.
  - intros name Hn. now rewrite Hb', Hb.
  - intros m Hm. destruct (Hc m Hm) as [m' Hm']. eauto.
Qed.

Lemma onlyCounter_setProp (options : loc) (h : Heap) (v : Val) :
  onlyCounter options h (setProp h options "counter" v).
Proof.
  split; [| split].
  - intros l Hl. now apply setProp_other.
  - intros name Hn. apply getProp_setProp_ne. congruence.
  - intros m Hm. eexists. apply (setProp_object _ _ _ _ _ Hm).
Qed.

Section Frame.

Variable numberToString : Z -> string.
Variable objectToString : Heap -> loc -> option string.

(** The two loops of [getUpdateArray] write to the [counter] of the
    options object they are given, and to nothing else. *)
Lemma pushMethod_onlyCounter (options : loc) (thisUpd : string)
    (acc acc' : Heap * list string) :
  pushMethod numberToString objectToString options thisUpd acc = Some acc' ->
  onlyCounter options (fst acc) (fst acc').
Proof.
  destruct acc as [h updates]. unfold pushMethod.
  case_bool_decide as Hempty.
  - intros [= <-]. apply onlyCounter_refl.
  - intros H. apply bind_Some in H as (id & _ & H).
    apply bind_Some in H as (cmd & _ & H). injection H as <-.
    apply onlyCounter_setProp.
Qed.

Lemma processArrayOfObjects_onlyCounter (options : loc) (updArray : list Val) :
  forall acc acc' : Heap * list string,
    processArrayOfObjects numberToString objectToString options updArray acc
    = Some acc' ->
    onlyCounter options (fst acc) (fst acc').
Proof.
  induction updArray as [|upd updArray IH]; intros acc acc' H; simpl in H.
  - injection H as <-. apply onlyCounter_refl.
  - apply bind_Some in H as (thisUpd & _ & H).
    apply bind_Some in H as (acc1 & Hpush & H).
    eapply onlyCounter_trans.
    + eapply pushMethod_onlyCounter; eassumption.
    + now apply IH.
Qed.

Lemma processArrayOfArrays_onlyCounter (options : loc) (updArray : list Val)
    (acc acc' : Heap * list string) :
  processArrayOfArrays numberToString objectToString options updArray acc
  = Some acc' ->
  onlyCounter options (fst acc) (fst acc').
Proof.
  unfold processArrayOfArrays. intros H.
  apply bind_Some in H as (thisUpd & _ & H).
  eapply pushMethod_onlyCounter; eassumption.
Qed.

(** [getUpdateArray] writes to the options object it is given and, on the
    backwards-compatibility path, appends a new pair to the array its
    [valuepairs] refers to. *)
Lemma getUpdateArray_frame (h h' : Heap) (opt : loc) (updates : list string) :
  getUpdateArray numberToString objectToString h opt = Some (h', updates) ->
  if negb (truthy (getProp h opt "updates")) && truthy (getProp h opt "ID")
     && truthy (getProp h opt "valuepairs")
  then
    exists (a : loc) (elems : list Val) (idPair : loc),
      getProp h opt "valuepairs" = VRef a
      /\ h !! a = Some (CArray elems)
      /\ h !! idPair = None
      /\ (a <> opt -> h' !! a = Some (CArray (elems ++ [VRef idPair])))
      /\ (idPair <> opt ->
          h' !! idPair = Some (CArray [VStr "ID"; getProp h opt "ID"]))
      /\ (forall l, l <> a -> l <> idPair -> l <> opt -> h' !! l = h !! l)
  else forall l, l <> opt -> h' !! l = h !! l.
Proof.
  unfold getUpdateArray.
  destruct (negb (truthy (getProp h opt "updates")) && truthy (getProp h opt "ID")
            && truthy (getProp h opt "valuepairs")).
  - destruct (getProp h opt "valuepairs") as [| | | | |a]; try discriminate.
    destruct (h !! a) as [[props|elems]|] eqn:Ha; try discriminate.
    destruct (alloc_fresh h (CArray [VStr "ID"; getProp h opt "ID"]))
      as (Hfresh & Hnew & Hold).
    destruct (alloc h (CArray [VStr "ID"; getProp h opt "ID"])) as [idPair h1].
    simpl in Hfresh, Hnew, Hold.
    intros Heq. apply processArrayOfArrays_onlyCounter in Heq as (Hother & _).
    cbn [fst] in Hother.
    assert (Hne : a <> idPair) by congruence.
    exists a, elems, idPair. split; [reflexivity |].
    split; [exact Ha |]. split; [assumption |].
    split; [| split].
    + intros Hopt. rewrite Hother by assumption. apply lookup_insert_eq.
    + intros Hopt. rewrite Hother by assumption.
      rewrite lookup_insert_ne by assumption. exact Hnew.
    + intros l Hla Hlp Hlo. rewrite Hother by assumption.
      rewrite lookup_insert_ne by congruence. now apply Hold.
  - destruct (String.eqb (typeof (getProp h opt "updates")) "string").
    { intros [= <- _]. reflexivity. }
    destruct (getProp h opt "updates") as [| | | | |u];
      try (intros [= <- _]; reflexivity).
    destruct (h !! u) as [[props|[|first others]]|];
      try (intros [= <- _]; reflexivity).
    destruct (String.eqb (typeof first) "object").
    { intros Heq l Hl.
      apply processArrayOfObjects_onlyCounter in Heq as (Hother & _).
      now apply Hother. }
    destruct (String.eqb (typeof first) "string").
    { intros Heq. apply bind_Some in Heq as (strs & _ & [= <- _]). reflexivity. }
    destruct (isArray h first).
    { intros Heq l Hl.
      apply processArrayOfArrays_onlyCounter in Heq as (Hother & _).
      now apply Hother. }
    intros [= <- _]. reflexivity.
Qed.

(** [getUpdateArray] leaves every property of the options object it is
    given as it is, but [counter]. *)
Lemma getUpdateArray_getProp (h h' : Heap) (options : loc)
    (props : list (string * Val)) (updates : list string) :
  h !! options = Some (CObject props) ->
  getUpdateArray numberToString objectToString h options = Some (h', updates) ->
  (forall name, name <> "counter" ->
     getProp h' options name = getProp h options name)
  /\ exists props', h' !! options = Some (CObject props').
Proof.
  intros Hobj. unfold getUpdateArray.
  destruct (negb (truthy (getProp h options "updates"))
            && truthy (getProp h options "ID")
            && truthy (getProp h options "valuepairs")).
  - destruct (getProp h options "valuepairs") as [| | | | |a]; try discriminate.
    destruct (h !! a) as [[ps|elems]|] eqn:Ha; try discriminate.
    destruct (alloc_fresh h (CArray [VStr "ID"; getProp h options "ID"]))
      as (Hfresh & Hnew & Hold).
    destruct (alloc h (CArray [VStr "ID"; getProp h options "ID"])) as [idPair h1].
    simpl in Hfresh, Hnew, Hold.
    intros Heq. apply processArrayOfArrays_onlyCounter in Heq as (_ & Hget & Hob).
    cbn [fst] in Hget, Hob.
    assert (Hcell : <[a := CArray (elems ++ [VRef idPair])]> h1 !! options
                    = h !! options).
    { rewrite lookup_insert_ne by congruence. apply Hold. congruence. }
    split.
    + intros name Hne. rewrite Hget by assumption. now apply getProp_same_cell.
    + apply (Hob props). now rewrite Hcell.
  - destruct (String.eqb (typeof (getProp h options "updates")) "string").
    { intros [= <- _]. eauto. }
    destruct (getProp h options "updates") as [| | | | |u];
      try (intros [= <- _]; eauto).
    destruct (h !! u) as [[ps|[|first others]]|];
      try (intros [= <- _]; eauto).
    destruct (String.eqb (typeof first) "object").
    { intros Heq.
      apply processArrayOfObjects_onlyCounter in Heq as (_ & Hget & Hob). eauto. }
    destruct (String.eqb (typeof first) "string").
    { intros Heq. apply bind_Some in Heq as (strs & _ & [= <- _]). eauto. }
    destruct (isArray h first).
    { intros Heq.
      apply processArrayOfArrays_onlyCounter in Heq as (_ & Hget & Hob). eauto. }
    intros [= <- _]. eauto.
Qed.

End Frame.

(** The properties of the merged copy [opt]: those of the caller's options
    where they are defined, the defaults elsewhere. *)
Lemma merged_assoc (name : string) (props : list (string * Val)) :
  name <> "counter" -> NoDup (map fst props) ->
  assoc name (extendWith (extendWith (extendWith [] defaults) props)
                         [("counter", VNum 1)])
  = match assoc name props with
    | None | Some VUndefined => assoc name defaults
    | Some v => Some v
    end.
Proof.
  intros Hname Hnd.
  change (extendWith (extendWith (extendWith [] defaults) props) [("counter", VNum 1)])
    with (assign "counter" (VNum 1) (extendWith (extendWith [] defaults) props)).
  rewrite assoc_assign.
  destruct (String.eqb_spec "counter" name) as [<- | _]; [congruence |].
  now rewrite extendWith_assoc.
Qed.

Section Prologue.

Variable getSiteUrl : string.
Variable numberToString : Z -> string.
Variable objectToString : Heap -> loc -> option string.

(** The statements of the entry point before the [$.Deferred], one after
    the other: the store [h3] that [getUpdateArray] receives with the
    properties of the copy [opt] in it, the store [h4] that it leaves, and
    the new array [q] of the queue. *)
Lemma prologue_steps (h h' : Heap) (options opt : loc)
    (props : list (string * Val)) (updates : list string) :
  h !! options = Some (CObject props) ->
  NoDup (map fst props) ->
  prologue getSiteUrl numberToString objectToString h options
  = Some (h', opt, updates) ->
  exists (h3 h4 : Heap) (m3 : list (string * Val)) (q : loc),
    getUpdateArray numberToString objectToString h3 opt = Some (h4, updates)
    /\ h !! opt = None
    /\ h3 !! opt = Some (CObject m3)
    /\ (forall l, l <> opt -> h3 !! l = h !! l)
    /\ (forall n, n <> "webURL" -> n <> "updateType" -> n <> "counter" ->
        getProp h3 opt n = mergedVal props n)
    /\ getProp h3 opt "counter" = VNum 1
    /\ getProp h3 opt "webURL"
       = normalizedWebURL getSiteUrl (mergedVal props "webURL")
    /\ getProp h3 opt "updateType"
       = (if truthy (mergedVal props "batchCmd") then mergedVal props "batchCmd"
          else mergedVal props "updateType")
    /\ h4 !! q = None
    /\ q <> opt
    /\ h' !! q = Some (CArray (map VStr updates))
    /\ getProp h' opt "_updates" = VRef q
    /\ (forall l, l <> opt -> l <> q -> h' !! l = h4 !! l)
    /\ (forall n, n <> "_updates" -> getProp h' opt n = getProp h4 opt n).
Proof.
  intros Hopts Hnd. unfold prologue. cbn [ownProps]. rewrite Hopts.
  set (merged := extendWith (extendWith (extendWith [] defaults) props)
                            [("counter", VNum 1)]).
  destruct (alloc_fresh h (CObject merged)) as (Hfresh & Hnew & Hold).
  destruct (alloc h (CObject merged)) as [o h1]. simpl in Hfresh, Hnew, Hold.
  assert (Hm : forall n, n <> "counter" -> getProp h1 o n = mergedVal props n).
  { intros n Hn. unfold getProp, mergedVal. rewrite Hnew. unfold merged.
    now rewrite merged_assoc. }
  assert (Hc1 : getProp h1 o "counter" = VNum 1).
  { unfold getProp. rewrite Hnew. unfold merged.
    change (extendWith (extendWith (extendWith [] defaults) props) [("counter", VNum 1)])
      with (assign "counter" (VNum 1) (extendWith (extendWith [] defaults) props)).
    now rewrite assoc_assign. }
  assert (Hset : forall v,
             setProp h1 o "webURL" v !! o = Some (CObject (assign "webURL" v merged))
             /\ (forall l, l <> o -> setProp h1 o "webURL" v !! l = h1 !! l)
             /\ (forall n, n <> "webURL" ->
                 getProp (setProp h1 o "webURL" v) o n = getProp h1 o n)
             /\ getProp (setProp h1 o "webURL" v) o "webURL" = v).
  { intros v. split; [now apply setProp_object |].
    split; [intros l Hl; now apply setProp_other |].
    split; [intros n Hn; apply getProp_setProp_ne; congruence |].
    rewrite (getProp_setProp _ _ _ _ _ _ Hnew). now rewrite String.eqb_refl. }
  intros Hpro. apply bind_Some in Hpro as (h2 & Hweb & Hpro).
  (* the webURL statement *)
  assert (H2 : exists m2,
             h2 !! o = Some (CObject m2)
             /\ (forall l, l <> o -> h2 !! l = h1 !! l)
             /\ (forall n, n <> "webURL" -> getProp h2 o n = getProp h1 o n)
             /\ getProp h2 o "webURL"
                = normalizedWebURL getSiteUrl (mergedVal props "webURL")).
  { rewrite (Hm "webURL") in Hweb by discriminate.
    destruct (negb (truthy (mergedVal props "webURL"))) eqn:Htr.
    - injection Hweb as <-. destruct (Hset (VStr getSiteUrl)) as (? & ? & ? & Hv).
      eexists. repeat (split; [eassumption |]).
      rewrite Hv. unfold normalizedWebURL. now rewrite Htr.
    - destruct (mergedVal props "webURL") as [| | | |s|] eqn:Hw; try discriminate.
      case_bool_decide as Hslash; cbn [negb] in Hweb; injection Hweb as <-.
      + exists merged. split; [assumption |]. split; [auto |]. split; [auto |].
        rewrite (Hm "webURL") by discriminate.
        rewrite Hw. unfold normalizedWebURL. rewrite Htr.
        now rewrite bool_decide_eq_true_2.
      + destruct (Hset (VStr (s +:+ "/"))) as (? & ? & ? & Hv).
        eexists. repeat (split; [eassumption |]).
        rewrite Hv. unfold normalizedWebURL. rewrite Htr.
        now rewrite bool_decide_eq_false_2. }
  destruct H2 as (m2 & Hobj2 & Hold2 & Hget2 & Hweb2). clear Hweb.
  (* the updateType statement and getUpdateArray *)
  cbv zeta in Hpro.
  set (h3 := setProp h2 o "updateType" _) in Hpro.
  apply bind_Some in Hpro as ([h4 upd] & Hgua & Hpro).
  assert (Hobj3 : h3 !! o
                  = Some (CObject
                            (assign "updateType"
                               (if truthy (getProp h2 o "batchCmd")
                                then getProp h2 o "batchCmd"
                                else getProp h2 o "updateType") m2)))
    by (subst h3; now apply setProp_object).
  destruct (getUpdateArray_getProp _ _ _ _ _ _ _ Hobj3 Hgua) as (Hget4 & m4 & Hobj4).
  (* the queue *)
  destruct (alloc_fresh h4 (CArray (map VStr upd))) as (Hfresh' & Hnew' & Hold').
  destruct (alloc h4 (CArray (map VStr upd))) as [q h5].
  simpl in Hfresh', Hnew', Hold'. injection Hpro as <- <- <-.
  assert (Hqo : q <> o) by congruence.
  assert (Hobj5 : h5 !! o = Some (CObject m4)) by (rewrite Hold'; auto).
  eexists h3, h4, _, q.
  split; [exact Hgua |]. split; [exact Hfresh |]. split; [exact Hobj3 |].
  split; [intros l Hl; subst h3; rewrite setProp_other, Hold2 by assumption; auto |].
  split.
  { intros n Hn1 Hn2 Hn3. subst h3.
    rewrite getProp_setProp_ne by congruence. rewrite Hget2 by assumption. auto. }
  split.
  { subst h3. rewrite getProp_setProp_ne by discriminate.
    rewrite Hget2 by discriminate. exact Hc1. }
  split.
  { subst h3. rewrite getProp_setProp_ne by discriminate. exact Hweb2. }
  split.
  { subst h3. rewrite (getProp_setProp _ _ _ _ _ _ Hobj2), String.eqb_refl.
    rewrite !Hget2 by discriminate. now rewrite !Hm by discriminate. }
  split; [exact Hfresh' |]. split; [exact Hqo |].
  split; [rewrite setProp_other by assumption; exact Hnew' |].
  split.
  { rewrite (getProp_setProp _ _ _ _ _ _ Hobj5). now rewrite String.eqb_refl. }
  split.
  { intros l Hlo Hlq. rewrite setProp_other by assumption. now apply Hold'. }
  intros n Hn. rewrite getProp_setProp_ne by congruence.
  apply getProp_same_cell. now apply Hold'.
Qed.

(** The entry point up to the [$.Deferred] leaves the caller's object as
    it was and writes, of what the caller can reach, only to the array of
    [valuepairs]; so it is whatever the dispatcher then leaves in the array
    of the queue. *)
Lemma prologue_frame (h h' : Heap) (options opt : loc)
    (props : list (string * Val)) (updates queue : list string) :
  h !! options = Some (CObject props) ->
  NoDup (map fst props) ->
  prologue getSiteUrl numberToString objectToString h options
  = Some (h', opt, updates) ->
  let hs := storeQueue h' opt queue in
  hs !! options = Some (CObject props)
  /\ if negb (truthy (getProp h options "updates"))
        && truthy (getProp h options "ID")
        && truthy (getProp h options "valuepairs")
     then
       exists (a : loc) (elems : list Val) (idPair : loc),
         getProp h options "valuepairs" = VRef a
         /\ h !! a = Some (CArray elems)
         /\ h !! idPair = None
         /\ hs !! a = Some (CArray (elems ++ [VRef idPair]))
         /\ hs !! idPair = Some (CArray [VStr "ID"; getProp h options "ID"])
         /\ (forall l, l <> a -> is_Some (h !! l) -> hs !! l = h !! l)
     else forall l, is_Some (h !! l) -> hs !! l = h !! l.
Proof.
  intros Hopts Hnd Hpro hs.
  destruct (prologue_steps _ _ _ _ _ _ Hopts Hnd Hpro)
    as (h3 & h4 & m3 & q & Hgua & Hfresh & Hobj3 & Hold3 & Hget3 & _ & _ & _
        & Hq & Hqo & _ & Hqueue & Hold' & _).
  assert (Hstore : forall l, l <> q -> hs !! l = h' !! l).
  { intros l Hl. subst hs. unfold storeQueue. rewrite Hqueue.
    now apply lookup_insert_ne. }
  assert (Hcaller : forall n, getProp h options n = default VUndefined (assoc n props)).
  { intros n. unfold getProp. now rewrite Hopts. }
  assert (HID : getProp h3 opt "ID" = getProp h options "ID").
  { rewrite Hget3, Hcaller by discriminate. unfold mergedVal.
    now destruct (assoc "ID" props) as [[]|]. }
  assert (Hvp : getProp h3 opt "valuepairs" = getProp h options "valuepairs").
  { rewrite Hget3, Hcaller by discriminate. unfold mergedVal.
    now destruct (assoc "valuepairs" props) as [[]|]. }
  assert (Hupd : truthy (getProp h3 opt "updates")
                 = truthy (getProp h options "updates")).
  { rewrite Hget3, Hcaller by discriminate. unfold mergedVal.
    now destruct (assoc "updates" props) as [[]|]. }
  pose proof (getUpdateArray_frame _ _ _ _ _ _ Hgua) as Hframe.
  rewrite HID, Hvp, Hupd in Hframe.
  assert (Hoo : options <> opt) by congruence.
  destruct (negb (truthy (getProp h options "updates"))
            && truthy (getProp h options "ID")
            && truthy (getProp h options "valuepairs")).
  - destruct Hframe as (a & elems & idPair & Ha & Harr & Hnone & Hpa & Hpp & Hfr).
    assert (Hao : a <> opt) by congruence.
    assert (Hpo : idPair <> opt) by congruence.
    rewrite Hold3 in Harr, Hnone by assumption.
    assert (Hoa : options <> a) by congruence.
    assert (Hop : options <> idPair) by congruence.
    specialize (Hpa Hao). specialize (Hpp Hpo).
    assert (Haq : a <> q) by congruence.
    assert (Hpq : idPair <> q) by congruence.
    assert (Hoq : options <> q).
    { intros ->. rewrite Hfr, Hold3 in Hq by congruence. congruence. }
    split; [rewrite Hstore, Hold', Hfr, Hold3 by congruence; assumption |].
    exists a, elems, idPair.
    split; [assumption |]. split; [assumption |]. split; [assumption |].
    split; [rewrite Hstore, Hold' by assumption; assumption |].
    split; [rewrite Hstore, Hold' by assumption; assumption |].
    intros l Hla [c Hc].
    assert (l <> opt) by congruence. assert (l <> idPair) by congruence.
    assert (l <> q).
    { intros ->. rewrite Hfr, Hold3 in Hq by assumption. congruence. }
    rewrite Hstore, Hold', Hfr, Hold3 by assumption. reflexivity.
  - assert (Hin : forall l, is_Some (h !! l) -> l <> opt /\ l <> q).
    { intros l [c Hc]. assert (l <> opt) by congruence. split; [assumption |].
      intros ->. rewrite Hframe, Hold3 in Hq by assumption. congruence. }
    split.
    + destruct (Hin options ltac:(eauto)).
      rewrite Hstore, Hold', Hframe, Hold3 by assumption. assumption.
    + intros l Hl. destruct (Hin l Hl).
      rewrite Hstore, Hold', Hframe, Hold3 by assumption. reflexivity.
Qed.

(** The properties of the copy [opt] when the prologue is over. *)
Lemma prologue_final (h h' : Heap) (options opt : loc)
    (props : list (string * Val)) (updates : list string) :
  h !! options = Some (CObject props) ->
  NoDup (map fst props) ->
  prologue getSiteUrl numberToString objectToString h options
  = Some (h', opt, updates) ->
  (forall n, n <> "webURL" -> n <> "updateType" -> n <> "counter" ->
     n <> "_updates" -> getProp h' opt n = mergedVal props n)
  /\ getProp h' opt "webURL"
     = normalizedWebURL getSiteUrl (mergedVal props "webURL")
  /\ getProp h' opt "updateType"
     = (if truthy (mergedVal props "batchCmd") then mergedVal props "batchCmd"
        else mergedVal props "updateType")
  /\ exists q : loc,
       getProp h' opt "_updates" = VRef q
       /\ h' !! q = Some (CArray (map VStr updates)).
Proof.
  intros Hopts Hnd Hpro.
  destruct (prologue_steps _ _ _ _ _ _ Hopts Hnd Hpro)
    as (h3 & h4 & m3 & q & Hgua & _ & Hobj3 & _ & Hget3 & _ & Hweb & Hut
        & _ & _ & Hq & Hqueue & _ & Hget').
  destruct (getUpdateArray_getProp _ _ _ _ _ _ _ Hobj3 Hgua) as [Hget4 _].
  split; [| split; [| split]].
  - intros n H1 H2 H3 H4. rewrite Hget', Hget4 by assumption. now apply Hget3.
  - rewrite Hget', Hget4 by discriminate. exact Hweb.
  - rewrite Hget', Hget4 by discriminate. exact Hut.
  - eauto.
Qed.

End Prologue.

(** C10.  The entry point never changes the caller's options object: the
    object holds the same properties with the same values afterwards, since
    every assignment goes to the merged copy.  Of what the caller can reach,
    only one thing changes, on the backwards-compatibility path (no truthy
    [updates], in particular none at all, and both [ID] and [valuepairs]
    supplied): the array [valuepairs] refers to is the caller's own and gets
    a new pair [["ID", ID]] appended.  Everything else in the caller's store
    is left as it was. *)
Theorem caller_options_frame
    (getSiteUrl : string) (numberToString : Z -> string)
    (stringToNumber : string -> Number)
    (objectToString : Heap -> loc -> option string)
    (whenOrder : AttachOrder)
    (doesMsgHaveError : JsVal -> bool) (getMsgError : JsVal -> string)
    (h h' : Heap) (options : loc) (props : list (string * Val))
    (events : list (nat * Outcome)) (st : State) :
  h !! options = Some (CObject props) ->
  NoDup (map fst props) ->
  updateListItems getSiteUrl numberToString stringToNumber objectToString
                  whenOrder doesMsgHaveError getMsgError
                  h options events = Some (h', st) ->
  h' !! options = Some (CObject props)
  /\ (if negb (truthy (getProp h options "updates"))
         && truthy (getProp h options "ID")
         && truthy (getProp h options "valuepairs")
      then
        exists (a : loc) (elems : list Val) (idPair : loc),
          getProp h options "valuepairs" = VRef a
          /\ h !! a = Some (CArray elems)
          /\ h !! idPair = None
          /\ h' !! a = Some (CArray (elems ++ [VRef idPair]))
          /\ h' !! idPair = Some (CArray [VStr "ID"; getProp h options "ID"])
          /\ (forall l, l <> a -> is_Some (h !! l) -> h' !! l = h !! l)
      else forall l, is_Some (h !! l) -> h' !! l = h !! l)
  /\ (assoc "updates" props = None ->
      truthy (getProp h options "ID") = true ->
      forall (a : loc) (elems : list Val),
        getProp h options "valuepairs" = VRef a ->
        h !! a = Some (CArray elems) ->
        exists idPair : loc,
          h !! idPair = None
          /\ h' !! a = Some (CArray (elems ++ [VRef idPair]))
          /\ h' !! idPair = Some (CArray [VStr "ID"; getProp h options "ID"])).
Proof.
  intros Hopts Hnd Hrun. unfold updateListItems in Hrun.
  apply bind_Some in Hrun as ([[h1 opt] updates] & Hpro & Hrun).
  apply bind_Some in Hrun as (o & _ & Hrun). injection Hrun as <- _.
  destruct (prologue_frame _ _ _ _ _ _ _ _ _
              (_updates (dispatch whenOrder doesMsgHaveError getMsgError o
                           updates events))
              Hopts Hnd Hpro) as [Hsame Hframe].
  split; [assumption |]. split; [assumption |].
  intros Hupd HID a elems Hvp Harr.
  assert (Hu : getProp h options "updates" = VUndefined).
  { unfold getProp. now rewrite Hopts, Hupd. }
  rewrite Hu, HID, Hvp in Hframe. simpl in Hframe.
  destruct Hframe as (a' & elems' & idPair & [= <-] & Harr' & Hnone & Ha & Hp & _).
  exists idPair. rewrite Harr in Harr'. injection Harr' as <-. auto.
Qed.

Lemma caller_options_frame_witness :
  exists (h' : Heap) (st : State),
    updateListItems "http://site/" sampleNumberToString sampleStringToNumber
      sampleObjectToString FirstToLast sampleHasError
      sampleGetError sampleCompatStore 0%nat [] = Some (h', st)
    /\ h' !! 0%nat = sampleCompatStore !! 0%nat.
Proof.
  destruct (updateListItems "http://site/" sampleNumberToString sampleStringToNumber
              sampleObjectToString FirstToLast sampleHasError
              sampleGetError sampleCompatStore 0%nat [])
    as [[h' st]|] eqn:Hrun.
  - exists h', st. split; [reflexivity |].
    destruct (caller_options_frame _ _ _ _ _ _ _ _ _ _ _ _ _
                (eq_refl : sampleCompatStore !! 0%nat = Some (CObject _))
                ltac:(compute_done) Hrun) as [H _].
    exact H.
  - vm_compute in Hrun. discriminate.
Defined.

(** The backwards-compatibility path on a concrete store: the caller's
    array at location 1 has the new pair appended, and the one batch
    submitted carries the update built from the pairs. *)
Example compat_path_appends_to_valuepairs :
  exists (h' : Heap) (st : State),
    updateListItems "http://site/" sampleNumberToString sampleStringToNumber
      sampleObjectToString FirstToLast sampleHasError
      sampleGetError sampleCompatStore 0%nat [] = Some (h', st)
    /\ sampleCompatStore !! 1%nat = Some (CArray [VRef 2%nat])
    /\ h' !! 1%nat = Some (CArray [VRef 2%nat; VRef 4%nat])
    /\ h' !! 4%nat = Some (CArray [VStr "ID"; VNum 7])
    /\ length (updatePromisesList st) = 1%nat.
Proof.
  eexists. eexists. split; [vm_compute; reflexivity |].
  vm_compute. auto.
Qed.

(** An options object that asks for [updateOnError: 'Return']: the batch
    submitted still says [Continue]. *)
Example updateOnError_Return_end_to_end :
  let store : Heap :=
    list_to_map
      [ (0%nat, CObject [("listName", VStr "Tasks"); ("updates", VRef 1%nat);
                         ("updateOnError", VStr "Return")]);
        (1%nat, CArray [VStr "<Method/>"]) ] in
  exists (h' : Heap) (st : State),
    updateListItems "http://site/" sampleNumberToString sampleStringToNumber
      sampleObjectToString FirstToLast sampleHasError
      sampleGetError store 0%nat [] = Some (h', st)
    /\ map batch (updatePromisesList st)
       = ["<Batch OnError=" +:+ quoted "Continue" +:+ "><Method/></Batch>"].
Proof.
  eexists. eexists. split; [vm_compute; reflexivity |].
  vm_compute. reflexivity.
Qed.

(** 250 descriptors, batches of 100, two concurrent requests: three batches
    of 100, 100 and 50 descriptors, never more than two requests in flight,
    and a result that aggregates three outcomes. *)
Example scenario_250_100_2 :
  let queue := replicate 250 "<Method/>" in
  let st := sampleDispatch 100 2 queue [ok 0; ok 1; ok 2] in
  map batch (updatePromisesList st)
  = map batchOf [take 100 queue; take 100 (drop 100 queue); drop 200 queue]
  /\ map length [take 100 queue; take 100 (drop 100 queue); drop 200 queue]
     = [100; 100; 50]%nat
  /\ inFlightLog st = [1; 2; 1; 2; 1; 0]
  /\ (exists r, dfd st = Some (resolveWith r)
                /\ httpData r = JArray [JXml "ok"; JXml "ok"; JXml "ok"]).
Proof.
  vm_compute. split; [reflexivity |]. split; [reflexivity |].
  split; [reflexivity |]. eauto.
Qed.

(** * Further properties of the code *)

(** ** The scheduler *)

(** X1.  The overall promise is settled exactly when the queue has been
    exhausted and no request is in flight, the test [onUpdateDone] makes;
    and [updatesInFlight] is at every moment the number of submitted
    requests that have not completed. *)
Theorem settled_iff_done_and_idle
    (whenOrder : AttachOrder)
    (doesMsgHaveError : JsVal -> bool) (getMsgError : JsVal -> string)
    (opt : Opt) (queue : list string) (events : list (nat * Outcome)) :
  let st := dispatch whenOrder doesMsgHaveError getMsgError opt queue events in
  (is_Some (dfd st)
   <-> batchProcessingDone st = true /\ updatesInFlight st = 0)
  /\ updatesInFlight st = Z.of_nat (pendingCount (updatePromisesList st)).
Proof.
  intros st.
  destruct (Inv_dispatch whenOrder doesMsgHaveError getMsgError opt queue events) as [HI HQ].
  fold st in HI, HQ.
  pose proof (inv_inFlight _ _ _ _ _ _ HI) as Hf.
  split; [| exact Hf]. split.
  - intros [s Hs].
    destruct (inv_dfd _ _ _ _ _ _ HI s Hs) as (Hd & f & outs & _ & Hm & _).
    apply settled_pendingCount_zero in Hm. split; [assumption | lia].
  - intros [Hd Hz].
    destruct (dfd st) as [s|] eqn:Hs; [eauto |].
    destruct (HQ Hs) as [_ Htrue]. specialize (Htrue Hd). lia.
Qed.

(** X2.  The concurrency window is kept full: with a concurrency bound of
    at least one, whenever a handler has returned and descriptors are still
    queued, exactly [opt.concurrency] requests are in flight.  In
    particular the first [execBatchUpdate()] launches requests until the
    bound is reached or the queue is exhausted, before any response
    arrives. *)
Theorem window_full_while_queued
    (whenOrder : AttachOrder)
    (doesMsgHaveError : JsVal -> bool) (getMsgError : JsVal -> string)
    (opt : Opt) (queue : list string) (events : list (nat * Outcome)) :
  1 <= concurrency opt ->
  let st := dispatch whenOrder doesMsgHaveError getMsgError opt queue events in
  (_updates st <> [] -> updatesInFlight st = concurrency opt)
  /\ (batchProcessingDone st = false -> updatesInFlight st = concurrency opt)
  /\ (events = [] ->
      Z.of_nat (length (updatePromisesList st)) = updatesInFlight st
      /\ (batchProcessingDone st = true \/ updatesInFlight st = concurrency opt)).
Proof.
  intros Hc st.
  destruct (Inv_dispatch whenOrder doesMsgHaveError getMsgError opt queue events) as [HI HQ].
  fold st in HI, HQ.
  pose proof (inv_bound _ _ _ _ _ _ HI) as Hb. rewrite Z.max_r in Hb by lia.
  assert (Hnd : batchProcessingDone st = false -> updatesInFlight st = concurrency opt).
  { intros Hd.
    assert (Hnone : dfd st = None).
    { destruct (dfd st) as [s|] eqn:Hs; [| reflexivity].
      destruct (inv_dfd _ _ _ _ _ _ HI s Hs) as [Hd' _]. congruence. }
    destruct (HQ Hnone) as [Hfalse _]. specialize (Hfalse Hd). lia. }
  split; [| split; [exact Hnd |]].
  - intros Hq. apply Hnd.
    destruct (batchProcessingDone st) eqn:Hd; [| reflexivity].
    apply (inv_done _ _ _ _ _ _ HI) in Hd as [_ Hnil]. contradiction.
  - intros ->. split.
    + pose proof (validSchedule_completed whenOrder doesMsgHaveError getMsgError opt queue []
                    eq_refl) as Hcomp.
      fold st in Hcomp. simpl in Hcomp.
      rewrite (inv_inFlight _ _ _ _ _ _ HI). now rewrite Hcomp.
    + destruct (batchProcessingDone st) eqn:Hd; [now left | right; now apply Hnd].
Qed.

Lemma window_full_while_queued_witness :
  1 <= concurrency (sampleOpt 1 2) /\
  updatesInFlight (sampleDispatch 1 2 ["a"; "b"; "c"; "d"] [ok 1]) = 2.
Proof.
  split; [simpl; lia |].
  destruct (window_full_while_queued FirstToLast sampleHasError sampleGetError (sampleOpt 1 2)
              ["a"; "b"; "c"; "d"] [ok 1]) as (H & _); [simpl; lia |].
  apply H. vm_compute. discriminate.
Defined.

Section Monotone.

Variable whenOrder : AttachOrder.
Variable doesMsgHaveError : JsVal -> bool.
Variable getMsgError : JsVal -> string.
Variable opt : Opt.

Lemma length_execBatchUpdate_rec (fuel : nat) :
  forall st : State,
    (length (updatePromisesList st)
     <= length (updatePromisesList (execBatchUpdate_rec opt fuel st)))%nat.
Proof.
  induction fuel as [|fuel IH]; intros st; rewrite execBatchUpdate_rec_unfold;
    destruct (batchProcessingDone st || (concurrency opt <=? updatesInFlight st));
    try lia.
  assert (Hl : length (updatePromisesList (launch opt st))
               = S (length (updatePromisesList st))).
  { unfold launch. rewrite getBatchUpdateList_chunk. simpl.
    rewrite length_app. simpl. lia. }
  destruct (batchProcessingDone (launch opt st)); simpl; [lia |].
  specialize (IH (launch opt st)). lia.
Qed.

Lemma length_complete (st : State) (ev : nat * Outcome) :
  (length (updatePromisesList st)
   <= length (updatePromisesList (complete whenOrder doesMsgHaveError getMsgError opt st ev)))%nat.
Proof.
  destruct ev as [i o]. unfold complete.
  destruct (updatePromisesList st !! i) as [p|]; [| lia].
  destruct (settled p); [lia |].
  unfold onUpdateDone. cbv zeta.
  set (st1 := set_updatesInFlight _ _).
  assert (H1 : length (updatePromisesList st1) = length (updatePromisesList st)).
  { subst st1. simpl. apply length_insert. }
  rewrite <- H1.
  destruct ((updatesInFlight st1 =? 0) && batchProcessingDone st1).
  - unfold resolveUpdateListItems.
    destruct (mapM settled (updatePromisesList st1)); [| lia].
    unfold settle_dfd. destruct (dfd st1); simpl; lia.
  - destruct (updatesInFlight st1 <? maxConcurrentUpds opt); [| lia].
    apply length_execBatchUpdate_rec.
Qed.

Lemma length_fold_complete (events : list (nat * Outcome)) :
  forall st : State,
    (length (updatePromisesList st)
     <= length (updatePromisesList
                  (fold_left (complete whenOrder doesMsgHaveError getMsgError opt) events st)))%nat.
Proof.
  induction events as [|ev events IH]; intros st; simpl; [lia |].
  pose proof (length_complete st ev). specialize (IH (complete whenOrder doesMsgHaveError getMsgError opt st ev)). lia.
Qed.

End Monotone.

(** X3.  [batchProcessingDone] is true exactly when at least one batch has
    been built and the queue is empty, and once true it stays true.  The
    queue is only ever drained from its front and the list of submitted
    batches only grows at its end: after further completions the queue is a
    suffix of what it was and the earlier batches are a prefix of the later
    ones. *)
Theorem queue_drained_monotonically
    (whenOrder : AttachOrder)
    (doesMsgHaveError : JsVal -> bool) (getMsgError : JsVal -> string)
    (opt : Opt) (queue : list string) (events more : list (nat * Outcome)) :
  let st := dispatch whenOrder doesMsgHaveError getMsgError opt queue events in
  let st' := dispatch whenOrder doesMsgHaveError getMsgError opt queue (events ++ more) in
  (batchProcessingDone st = true
   <-> (1 <= length (updatePromisesList st))%nat /\ _updates st = [])
  /\ (batchProcessingDone st = true -> batchProcessingDone st' = true)
  /\ _updates st' `suffix_of` _updates st
  /\ map batch (updatePromisesList st) `prefix_of` map batch (updatePromisesList st').
Proof.
  intros st st'.
  destruct (Inv_dispatch whenOrder doesMsgHaveError getMsgError opt queue events) as [HI _].
  destruct (Inv_dispatch whenOrder doesMsgHaveError getMsgError opt queue (events ++ more))
    as [HI' _].
  fold st in HI. fold st' in HI'.
  assert (Hk : (length (updatePromisesList st) <= length (updatePromisesList st'))%nat).
  { subst st st'. unfold dispatch. rewrite fold_left_app.
    apply length_fold_complete. }
  set (k := length (updatePromisesList st)) in *.
  set (k' := length (updatePromisesList st')) in *.
  assert (Hsuf : _updates st' = drop ((k' - k) * Z.to_nat (batchSize opt)) (_updates st)).
  { rewrite (inv_queue _ _ _ _ _ _ HI), (inv_queue _ _ _ _ _ _ HI'), drop_drop.
    fold k k'. f_equal. nia. }
  split; [exact (inv_done _ _ _ _ _ _ HI) |]. split; [| split].
  - intros Hd. apply (inv_done _ _ _ _ _ _ HI) in Hd as [H1 Hnil].
    apply (inv_done _ _ _ _ _ _ HI'). fold k k'. fold k in H1.
    split; [lia |]. rewrite Hsuf, Hnil. apply drop_nil.
  - rewrite Hsuf. apply suffix_drop.
  - rewrite (inv_batches _ _ _ _ _ _ HI), (inv_batches _ _ _ _ _ _ HI'). fold k k'.
    replace k' with (k + (k' - k))%nat by lia.
    rewrite seq_app, map_app. apply prefix_app_r. reflexivity.
Qed.

(** ** The aggregated result *)

Section ResultStatus.

Variable whenOrder : AttachOrder.
Variable doesMsgHaveError : JsVal -> bool.
Variable getMsgError : JsVal -> string.

(** A response that is still the initial success, or an error. *)
Local Abbreviation Classified r :=
  ((status r = "success" /\ message r = JString "Update Successful.")
   \/ status r = "error").

Lemma forEachResponse_classified (isMulti isHttpError : bool) (r : Response)
    (reqResponse : JsVal) :
  Classified r ->
  Classified (forEachResponse doesMsgHaveError getMsgError isMulti isHttpError
                r reqResponse).
Proof.
  intros H. unfold forEachResponse.
  destruct isHttpError; [now right |].
  destruct (doesMsgHaveError (index reqResponse 0)); [now right |].
  destruct isMulti; exact H.
Qed.

Lemma forEach_classified (isMulti isHttpError : bool) (args : list JsVal) :
  forall r : Response,
    Classified r ->
    Classified (fold_left (forEachResponse doesMsgHaveError getMsgError
                             isMulti isHttpError) args r).
Proof.
  induction args as [|a args IH]; intros r H; simpl; [exact H |].
  apply IH. now apply forEachResponse_classified.
Qed.

Lemma processAjaxResponses_classified (n : nat) (args : list JsVal) (isHttpError : bool) :
  let s := processAjaxResponses doesMsgHaveError getMsgError n args isHttpError in
  (s = resolveWith (responseOf s) /\ status (responseOf s) = "success"
   /\ message (responseOf s) = JString "Update Successful.")
  \/ (s = rejectWith (responseOf s) /\ status (responseOf s) = "error").
Proof.
  unfold processAjaxResponses.
  match goal with
  | |- context [fold_left ?f ?a ?r0] =>
      pose proof (forEach_classified (1 <? n)%nat isHttpError a r0
                    (or_introl (conj eq_refl eq_refl))) as H;
      destruct (fold_left f a r0) as [st msg hd xr]
  end.
  simpl in *. destruct H as [[-> ->] | ->]; simpl; [left | right]; auto.
Qed.

Lemma rejected_or_all_resolved (outcomes : list Outcome) :
  Forall (fun o => isRejected o = false) outcomes
  \/ Exists (fun o => isRejected o = true) outcomes.
Proof.
  induction outcomes as [|o os [IH | IH]].
  - left. constructor.
  - destruct (isRejected o) eqn:Ho; [right; now constructor | left; now constructor].
  - right. now constructor.
Qed.

Lemma filter_nil_Forall (ps : list JsVal) :
  List.filter doesMsgHaveError ps = [] <-> Forall (fun p => doesMsgHaveError p = false) ps.
Proof.
  induction ps as [|p ps IH]; simpl; [split; [constructor | reflexivity] |].
  destruct (doesMsgHaveError p) eqn:Hp; split.
  - discriminate.
  - intros H. apply Forall_cons in H as [H _]. congruence.
  - intros H. constructor; [assumption | now apply IH].
  - intros H. apply Forall_cons in H as [_ H]. now apply IH.
Qed.

(** A dispatch with a failed request is an error. *)
Lemma aggregate_rejected_status (firing : nat) (outcomes : list Outcome) :
  Exists (fun o => isRejected o = true) outcomes ->
  status (responseOf (aggregate whenOrder doesMsgHaveError getMsgError firing outcomes))
  = "error".
Proof.
  intros Hex.
  destruct (jq_when_rejected whenOrder firing outcomes Hex) as (x & t & e & _ & Hjq).
  unfold aggregate. rewrite Hjq. unfold processAjaxResponses.
  now destruct (1 <? length outcomes)%nat.
Qed.

(** Without failed requests the status is an error exactly when a document
    carries one. *)
Lemma aggregate_resolved_status (firing : nat) (outcomes : list Outcome) :
  outcomes <> [] ->
  Forall (fun o => isRejected o = false) outcomes ->
  status (responseOf (aggregate whenOrder doesMsgHaveError getMsgError firing outcomes))
  = "success"
  <-> Forall (fun p => doesMsgHaveError p = false) (map payload outcomes).
Proof.
  intros Hne Hall. rewrite <- filter_nil_Forall, <- last_None.
  destruct outcomes as [|o1 [|o2 os]]; [contradiction | |].
  - destruct o1 as [d t x | x t e]; [| now inversion Hall].
    rewrite aggregate_resolved_single. simpl.
    destruct (doesMsgHaveError (JXml d)); simpl; split; congruence.
  - rewrite aggregate_resolved_multi by (simpl; auto; lia).
    destruct (last (List.filter doesMsgHaveError
                      (map payload (o1 :: o2 :: os)))); simpl; split; congruence.
Qed.

End ResultStatus.

(** X4.  The result of a dispatch always has the status [success] or
    [error].  With [success] the overall promise is resolved and the
    message is [Update Successful.]; with [error] it is rejected.  The
    status is [success] exactly when every request was resolved and none of
    the documents carries an error. *)
Theorem result_status
    (whenOrder : AttachOrder)
    (doesMsgHaveError : JsVal -> bool) (getMsgError : JsVal -> string)
    (opt : Opt) (queue : list string) (events : list (nat * Outcome))
    (s : Settlement) :
  let st := dispatch whenOrder doesMsgHaveError getMsgError opt queue events in
  dfd st = Some s ->
  ((s = resolveWith (responseOf s) /\ status (responseOf s) = "success"
    /\ message (responseOf s) = JString "Update Successful.")
   \/ (s = rejectWith (responseOf s) /\ status (responseOf s) = "error"))
  /\ (status (responseOf s) = "success"
      <-> Forall (fun p => exists d t x,
                     settled p = Some (Resolved d t x)
                     /\ doesMsgHaveError (JXml d) = false)
                 (updatePromisesList st)).
Proof.
  intros st Hs.
  destruct (Inv_dispatch whenOrder doesMsgHaveError getMsgError opt queue events) as [HI _].
  fold st in HI.
  destruct (inv_dfd _ _ _ _ _ _ HI s Hs) as (Hd & firing & outcomes & _ & Hm & ->).
  apply (inv_done _ _ _ _ _ _ HI) in Hd as [Hk _].
  split.
  { unfold aggregate. destruct (jq_when whenOrder firing outcomes) as [rej args].
    apply processAjaxResponses_classified. }
  pose proof (settled_map_Some _ _ Hm) as Hmap.
  assert (Hne : outcomes <> []).
  { intros ->. apply (f_equal length) in Hmap. rewrite !length_map in Hmap.
    simpl in Hmap. lia. }
  assert (Hps : forall (P : Outcome -> Prop),
             Forall P outcomes
             <-> Forall (fun p => exists o, settled p = Some o /\ P o)
                        (updatePromisesList st)).
  { intros P. clear -Hmap. revert outcomes Hmap.
    induction (updatePromisesList st) as [|p ps IH]; intros [|o os] Hmap;
      try discriminate.
    - split; constructor.
    - simpl in Hmap. injection Hmap as Hp Hmap. split; intros H.
      + apply Forall_cons in H as [H1 H2]. constructor; [eauto | now apply (IH os)].
      + apply Forall_cons in H as [(o' & Ho' & H1) H2].
        constructor; [congruence | now apply (IH os)]. }
  destruct (rejected_or_all_resolved outcomes) as [Hall | Hex].
  - rewrite (aggregate_resolved_status _ _ _ _ _ Hne Hall).
    rewrite Forall_map. 
    rewrite (Hps (fun o => doesMsgHaveError (payload o) = false)).
    apply (Hps (fun o => isRejected o = false)) in Hall.
    split; intros H.
    + rewrite Forall_forall in *. intros p Hp.
      destruct (H p Hp) as (o & Ho & He). destruct (Hall p Hp) as (o' & Ho' & Hr).
      destruct o as [d t x | x t e]; [simpl in He; eauto |].
      rewrite Ho in Ho'. injection Ho' as <-. discriminate.
    + eapply Forall_impl; [exact H |]. simpl.
      intros p (d & t & x & Hp & He). eauto.
  - rewrite (aggregate_rejected_status _ _ _ _ _ Hex). split; [discriminate |].
    intros H. exfalso.
    apply Exists_exists in Hex as (o & Hin & Hr).
    assert (Hno : Forall (fun o => isRejected o = false) outcomes).
    { apply (Hps (fun o => isRejected o = false)).
      eapply Forall_impl; [exact H |]. simpl.
      intros p (d & t & x & Hp & _). eauto. }
    rewrite Forall_forall in Hno. specialize (Hno o Hin). congruence.
Qed.

Lemma result_status_witness :
  exists s : Settlement,
    dfd (sampleDispatch 1 2 ["a"; "b"] [ok 1; ok 0]) = Some s
    /\ status (responseOf s) = "success".
Proof.
  eexists. split; [reflexivity |].
  destruct (result_status FirstToLast sampleHasError sampleGetError (sampleOpt 1 2) ["a"; "b"]
              [ok 1; ok 0] _ eq_refl) as [_ H].
  apply H. vm_compute. repeat constructor; eauto.
Defined.

Lemma head_filter_first {A : Type} (P : A -> bool) (l : list A) (p : A) :
  head (List.filter P l) = Some p ->
  exists k, l !! k = Some p /\ P p = true /\
            forall j q, l !! j = Some q -> P q = true -> (k <= j)%nat.
Proof.
  induction l as [|a l IH]; simpl; [discriminate |].
  destruct (P a) eqn:Ha; simpl.
  - intros [= ->]. exists 0%nat. split; [reflexivity |]. split; [assumption |].
    intros; lia.
  - intros H. destruct (IH H) as (k & Hk & Hp & Hmin).
    exists (S k). split; [assumption |]. split; [assumption |].
    intros [|j] q Hj Hq; simpl in Hj.
    + congruence.
    + specialize (Hmin j q Hj Hq). lia.
Qed.

Lemma filter_nil_none {A : Type} (P : A -> bool) (l : list A) :
  List.filter P l = [] -> forall j q, l !! j = Some q -> P q = false.
Proof.
  intros Hnil j q Hj. destruct (P q) eqn:Hq; [| reflexivity].
  assert (Hin : In q (List.filter P l)).
  { apply filter_In. split; [| assumption].
    apply list_elem_of_In. eapply list_elem_of_lookup_2; eassumption. }
  rewrite Hnil in Hin. destruct Hin.
Qed.

Lemma last_filter_last {A : Type} (P : A -> bool) (l : list A) (p : A) :
  last (List.filter P l) = Some p ->
  exists k, l !! k = Some p /\ P p = true /\
            forall j q, l !! j = Some q -> P q = true -> (j <= k)%nat.
Proof.
  induction l as [|a l IH]; simpl; [discriminate |].
  destruct (P a) eqn:Ha; simpl.
  - destruct (List.filter P l) as [|b rest] eqn:Hf.
    + intros [= ->]. exists 0%nat. split; [reflexivity |]. split; [assumption |].
      intros [|j] q Hj Hq; [lia |]. simpl in Hj.
      pose proof (filter_nil_none P l Hf j q Hj). congruence.
    + intros H. rewrite last_cons_cons in H.
      destruct (IH H) as (k & Hk & Hp & Hmax).
      exists (S k). split; [assumption |]. split; [assumption |].
      intros [|j] q Hj Hq; [lia |]. simpl in Hj.
      specialize (Hmax j q Hj Hq). lia.
  - intros H. destruct (IH H) as (k & Hk & Hp & Hmax).
    exists (S k). split; [assumption |]. split; [assumption |].
    intros [|j] q Hj Hq; simpl in Hj; [congruence |].
    specialize (Hmax j q Hj Hq). lia.
Qed.

(** Which promise rejects the master of [$.when]: promise [firing] only
    when it is the only rejected one, and otherwise the first of the others
    in attach order. *)
Lemma jq_when_rejected_which (order : AttachOrder) (firing : nat)
    (outcomes : list Outcome) :
  (1 < length outcomes)%nat ->
  Exists (fun o => isRejected o = true) outcomes ->
  exists k x t e,
    outcomes !! k = Some (Rejected x t e)
    /\ jq_when order firing outcomes = (true, [JXhr x; JString t; JString e])
    /\ (k = firing ->
        forall j q, outcomes !! j = Some q -> isRejected q = true -> j = firing)
    /\ (k <> firing ->
        forall j q, outcomes !! j = Some q -> isRejected q = true -> j <> firing ->
          match order with
          | FirstToLast => (k <= j)%nat
          | LastToFirst => (j <= k)%nat
          end).
Proof.
  intros Hlen Hex.
  set (before := List.filter isRejected (delete firing outcomes)).
  (* an index of [delete firing outcomes] as an index of [outcomes] *)
  set (up := fun k' : nat => if (k' <? firing)%nat then k' else S k').
  assert (Hup : forall k', delete firing outcomes !! k' = outcomes !! up k').
  { intros k'. unfold up. destruct (Nat.ltb_spec k' firing).
    - now apply list_lookup_delete_lt.
    - now apply list_lookup_delete_ge. }
  assert (Hdown : forall j, j <> firing ->
                    exists j', up j' = j
                               /\ forall k', ((j' <= k')%nat <-> (j <= up k')%nat)).
  { intros j Hj. destruct (Nat.lt_ge_cases j firing).
    - exists j. unfold up. destruct (Nat.ltb_spec j firing); [| lia].
      split; [reflexivity |]. intros k'. destruct (Nat.ltb_spec k' firing); lia.
    - exists (pred j). unfold up. destruct (Nat.ltb_spec (pred j) firing); [lia |].
      split; [lia |]. intros k'. destruct (Nat.ltb_spec k' firing); lia. }
  assert (Hupne : forall k', up k' <> firing).
  { intros k'. unfold up. destruct (Nat.ltb_spec k' firing); lia. }
  assert (Hjq : jq_when order firing outcomes
                = match match order with
                        | FirstToLast => head before
                        | LastToFirst => last before
                        end with
                  | Some p => (true, callbackArgs p)
                  | None =>
                      match List.find isRejected outcomes with
                      | Some p => (true, callbackArgs p)
                      | None => (false, map (fun p => JArray (callbackArgs p)) outcomes)
                      end
                  end).
  { destruct outcomes as [|o1 [|o2 os]]; simpl in Hlen; try lia. reflexivity. }
  rewrite Hjq. clear Hjq.
  destruct (match order with
            | FirstToLast => head before
            | LastToFirst => last before
            end) as [p|] eqn:Hfirst.
  - (* a promise rejected before *)
    assert (Hk : exists k', delete firing outcomes !! k' = Some p
                   /\ isRejected p = true
                   /\ forall j' q, delete firing outcomes !! j' = Some q ->
                        isRejected q = true ->
                        match order with
                        | FirstToLast => (k' <= j')%nat
                        | LastToFirst => (j' <= k')%nat
                        end).
    { destruct order.
      - now apply head_filter_first.
      - now apply last_filter_last. }
    destruct Hk as (k' & Hk' & Hp & Hext).
    destruct p as [|x t e]; [discriminate |].
    exists (up k'), x, t, e. rewrite <- Hup.
    split; [assumption |]. split; [reflexivity |].
    split; [intros Heq; now destruct (Hupne k') |].
    intros _ j q Hj Hq Hne.
    destruct (Hdown j Hne) as (j' & <- & Hle).
    rewrite <- Hup in Hj. specialize (Hext j' q Hj Hq).
    destruct order; unfold up in *;
      destruct (Nat.ltb_spec k' firing), (Nat.ltb_spec j' firing); lia.
  - (* no promise was rejected before: the firing one is the only one *)
    assert (Hnil : before = []).
    { destruct order; [now destruct before |].
      destruct before as [|b rest] using rev_ind; [reflexivity |].
      rewrite last_snoc in Hfirst. discriminate. }
    assert (Honly : forall j q, outcomes !! j = Some q -> isRejected q = true ->
                      j = firing).
    { intros j q Hj Hq. destruct (Nat.eq_dec j firing) as [| Hne]; [assumption |].
      destruct (Hdown j Hne) as (j' & <- & _). rewrite <- Hup in Hj.
      pose proof (filter_nil_none isRejected _ Hnil j' q Hj). congruence. }
    assert (Hfind : exists p, List.find isRejected outcomes = Some p).
    { clear -Hex. induction Hex as [o os Ho | o os _ IH]; simpl.
      - rewrite Ho. eauto.
      - destruct (isRejected o); eauto. }
    destruct Hfind as [p Hfind]. rewrite Hfind.
    apply find_some in Hfind as [Hin Hp].
    apply list_elem_of_In, list_elem_of_lookup in Hin as [k Hk].
    destruct p as [|x t e]; [discriminate |].
    exists k, x, t, e. split; [assumption |]. split; [reflexivity |].
    split; [intros _; exact Honly |].
    intros Hne. now destruct Hne; apply (Honly k _ Hk).
Qed.

Lemma dfd_execBatchUpdate_rec (opt : Opt) (fuel : nat) :
  forall st : State, dfd (execBatchUpdate_rec opt fuel st) = dfd st.
Proof.
  induction fuel as [|fuel IH]; intros st; rewrite execBatchUpdate_rec_unfold;
    destruct (batchProcessingDone st || (concurrency opt <=? updatesInFlight st));
    try reflexivity.
  assert (Hl : dfd (launch opt st) = dfd st)
    by (unfold launch; now rewrite getBatchUpdateList_chunk).
  destruct (negb (batchProcessingDone (launch opt st))); [| exact Hl].
  now rewrite IH.
Qed.

Section Settling.

Variable whenOrder : AttachOrder.
Variable doesMsgHaveError : JsVal -> bool.
Variable getMsgError : JsVal -> string.
Variable opt : Opt.
Variable queue : list string.

Local Abbreviation run := (dispatch whenOrder doesMsgHaveError getMsgError opt queue).

(** The completion that settles the overall promise is that of the promise
    whose callback calls [$.when]. *)
Lemma dispatch_settles_at (events : list (nat * Outcome)) (i : nat) (o : Outcome)
    (s : Settlement) :
  dfd (run events) = None ->
  dfd (run (events ++ [(i, o)])) = Some s ->
  exists outcomes : list Outcome,
    map settled (updatePromisesList (run (events ++ [(i, o)]))) = map Some outcomes
    /\ outcomes !! i = Some o
    /\ s = aggregate whenOrder doesMsgHaveError getMsgError i outcomes.
Proof.
  unfold dispatch. rewrite fold_left_app. simpl.
  set (st := fold_left _ events _). intros Hnone.
  destruct (updatePromisesList st !! i) as [p|] eqn:Hi; [| congruence].
  destruct (settled p) eqn:Hp; [congruence |].
  unfold onUpdateDone. cbv zeta.
  set (st1 := set_updatesInFlight _ _).
  assert (Hps : updatePromisesList st1
                = <[i := mkPromise (batch p) (Some o)]> (updatePromisesList st))
    by reflexivity.
  assert (Hnone1 : dfd st1 = None) by exact Hnone.
  destruct ((updatesInFlight st1 =? 0) && batchProcessingDone st1).
  - unfold resolveUpdateListItems.
    destruct (mapM settled (updatePromisesList st1)) as [outcomes|] eqn:Hm;
      [| congruence].
    unfold settle_dfd. rewrite Hnone1. simpl. intros [= <-].
    apply settled_map_Some in Hm. exists outcomes.
    split; [assumption |]. split; [| reflexivity].
    apply (f_equal (fun l => l !! i)) in Hm.
    rewrite Hps, !list_lookup_fmap, list_lookup_insert_eq in Hm
      by (now apply lookup_lt_Some in Hi).
    simpl in Hm. destruct (outcomes !! i); simpl in Hm; congruence.
  - destruct (updatesInFlight st1 <? maxConcurrentUpds opt); [| congruence].
    unfold execBatchUpdate. rewrite dfd_execBatchUpdate_rec. congruence.
Qed.

End Settling.

(** X5.  When several batches were submitted and at least one request
    failed, the result is made from the [fail] arguments of one failed
    request alone: its message is the second character of that request's
    [errorThrown] ([HTTP error.] when there is none), and [httpData] and
    [xhrRequest] hold three entries taken from those arguments.  The request
    whose completion settles the overall promise is that one only when no
    other request failed; otherwise it is, among the other failed requests,
    the first one in the order in which [$.when] attaches its callbacks. *)
Theorem multi_request_failure_result
    (whenOrder : AttachOrder)
    (doesMsgHaveError : JsVal -> bool) (getMsgError : JsVal -> string)
    (opt : Opt) (queue : list string) (events : list (nat * Outcome))
    (i : nat) (o : Outcome) (s : Settlement) :
  let st := dispatch whenOrder doesMsgHaveError getMsgError opt queue
              (events ++ [(i, o)]) in
  dfd (dispatch whenOrder doesMsgHaveError getMsgError opt queue events) = None ->
  dfd st = Some s ->
  (1 < length (updatePromisesList st))%nat ->
  Exists (fun p => failed p = true) (updatePromisesList st) ->
  exists (k : nat) (p : Promise) (x : nat) (t e : string),
    updatePromisesList st !! k = Some p
    /\ settled p = Some (Rejected x t e)
    /\ s = rejectWith
             (mkResponse "error"
                (or (index (JString e) 1) (JString "HTTP error."))
                (JArray [JUndefined; index (JString t) 2; index (JString e) 2])
                (JArray [JUndefined; index (JString t) 2; index (JString e) 2]))
    /\ (k = i ->
        forall j q, updatePromisesList st !! j = Some q -> failed q = true -> j = i)
    /\ (k <> i ->
        forall j q, updatePromisesList st !! j = Some q -> failed q = true ->
          j <> i ->
          match whenOrder with
          | FirstToLast => (k <= j)%nat
          | LastToFirst => (j <= k)%nat
          end).
Proof.
  intros st Hnone Hs Hlen Hex.
  destruct (dispatch_settles_at whenOrder doesMsgHaveError getMsgError opt queue
              events i o s Hnone Hs) as (outcomes & Hmap & _ & ->).
  fold st in Hmap.
  assert (Hlook : forall j q, updatePromisesList st !! j = Some q ->
                    exists oq, outcomes !! j = Some oq /\ settled q = Some oq).
  { intros j q Hj. apply (f_equal (fun l => l !! j)) in Hmap.
    rewrite !list_lookup_fmap, Hj in Hmap. simpl in Hmap.
    destruct (outcomes !! j) as [oq|]; [| discriminate].
    exists oq. split; [reflexivity | now injection Hmap]. }
  assert (Hback : forall j oq, outcomes !! j = Some oq ->
                    exists q, updatePromisesList st !! j = Some q
                              /\ settled q = Some oq).
  { intros j oq Hj. apply (f_equal (fun l => l !! j)) in Hmap.
    rewrite !list_lookup_fmap, Hj in Hmap. simpl in Hmap.
    destruct (updatePromisesList st !! j) as [q|]; [| discriminate].
    exists q. split; [reflexivity | now injection Hmap]. }
  assert (Hlen' : (1 < length outcomes)%nat)
    by (now rewrite <- (settled_Some_length _ _ Hmap)).
  assert (Hex' : Exists (fun oq => isRejected oq = true) outcomes).
  { apply Exists_exists in Hex as (q & Hin & Hq).
    apply list_elem_of_lookup in Hin as [j Hj].
    destruct (Hlook j q Hj) as (oq & Hoq & Hsq).
    apply Exists_exists. exists oq. split.
    - eapply list_elem_of_lookup_2; eassumption.
    - unfold failed in Hq. now rewrite Hsq in Hq. }
  destruct (jq_when_rejected_which whenOrder i outcomes Hlen' Hex')
    as (k & x & t & e & Hk & Hjq & Honly & Hfirst).
  destruct (Hback k _ Hk) as (p & Hp & Hsp).
  exists k, p, x, t, e. split; [assumption |]. split; [assumption |].
  split; [| split].
  - unfold aggregate. rewrite Hjq. unfold processAjaxResponses.
    destruct (Nat.ltb_spec 1 (length outcomes)) as [_ | ?]; [| lia].
    reflexivity.
  - intros Hki j q Hj Hq. destruct (Hlook j q Hj) as (oq & Hoq & Hsq).
    apply (Honly Hki j oq Hoq). unfold failed in Hq. now rewrite Hsq in Hq.
  - intros Hki j q Hj Hq Hji. destruct (Hlook j q Hj) as (oq & Hoq & Hsq).
    apply (Hfirst Hki j oq Hoq); [| assumption].
    unfold failed in Hq. now rewrite Hsq in Hq.
Qed.

(** Two batches that both fail; the first one, with [Not Found], completes
    last: the message comes from the second one, [timeout]. *)
Lemma multi_request_failure_result_witness :
  exists r : Response,
    dfd (sampleDispatch 1 2 ["a"; "b"]
           [(1%nat, Rejected 1 "timeout" "timeout");
            (0%nat, Rejected 0 "error" "Not Found")])
    = Some (rejectWith r)
    /\ message r = JString "i".
Proof.
  destruct (multi_request_failure_result FirstToLast sampleHasError sampleGetError
              (sampleOpt 1 2) ["a"; "b"]
              [(1%nat, Rejected 1 "timeout" "timeout")]
              0%nat (Rejected 0 "error" "Not Found") _
              eq_refl eq_refl ltac:(vm_compute; lia)
              ltac:(vm_compute; constructor; reflexivity))
    as (k & p & x & t & e & Hk & Hp & Hs & Honly & Hfirst).
  assert (Hk1 : k = 1%nat).
  { destruct (Nat.eq_dec k 0%nat) as [-> | Hne].
    - specialize (Honly eq_refl 1%nat (mkPromise (batchOf ["b"])
                    (Some (Rejected 1 "timeout" "timeout"))) eq_refl eq_refl).
      discriminate.
    - apply lookup_lt_Some in Hk. vm_compute in Hk. lia. }
  subst k. vm_compute in Hk. injection Hk as <-. simpl in Hp.
  injection Hp as <- <- <-.
  eexists. split; [reflexivity |]. reflexivity.
Defined.

(** ** The Batch wrapper *)

Lemma prefix_append (pat b : string) : String.prefix pat (pat +:+ b) = true.
Proof.
  induction pat as [|c pat IH]; [now destruct b |].
  rewrite append_cons. simpl. now destruct (Ascii.ascii_dec c c).
Qed.

Lemma prefix_inv (pat : string) :
  forall s : string, String.prefix pat s = true -> exists b, s = pat +:+ b.
Proof.
  induction pat as [|c pat IH]; intros s H.
  - exists s. reflexivity.
  - destruct s as [|c' s]; [discriminate |]. simpl in H.
    destruct (Ascii.ascii_dec c c') as [<- | _]; [| discriminate].
    destruct (IH s H) as [b ->]. exists b. now rewrite append_cons.
Qed.

Lemma includes_unfold (pat s : string) :
  includes pat s
  = String.prefix pat s
    || match s with
       | EmptyString => false
       | String _ s' => includes pat s'
       end.
Proof. destruct s; reflexivity. Qed.

(** [includes] is the substring test. *)
Lemma includes_spec (pat s : string) :
  includes pat s = true <-> exists a b, s = a +:+ pat +:+ b.
Proof.
  split.
  - induction s as [|c s IH]; rewrite includes_unfold; intros H;
      apply orb_true_iff in H as [H | H].
    + apply prefix_inv in H as [b ->]. exists EmptyString, b. reflexivity.
    + discriminate.
    + apply prefix_inv in H as [b ->]. exists EmptyString, b. reflexivity.
    + destruct (IH H) as (a & b & ->). exists (String c a), b.
      now rewrite append_cons.
  - intros (a & b & ->). induction a as [|c a IH].
    + rewrite append_empty_l, includes_unfold, prefix_append. reflexivity.
    + rewrite append_cons, includes_unfold, IH. apply orb_true_r.
Qed.

(** X6.  Every batch string the builder returns holds a closing
    [</Batch>] tag.  A string that already holds one, such as an update
    given as a whole [<Batch>] element, is returned as it is, and only
    such a string is; any other is put between [<Batch OnError="Continue">]
    and [</Batch>].  Wrapping twice is wrapping once.  So every batch a
    dispatch submits holds the tag. *)
Theorem wrapBatch_closed
    (whenOrder : AttachOrder)
    (doesMsgHaveError : JsVal -> bool) (getMsgError : JsVal -> string)
    (opt : Opt) (queue : list string) (events : list (nat * Outcome))
    (s : string) :
  (exists a b, wrapBatch s = a +:+ "</Batch>" +:+ b)
  /\ (wrapBatch s = s <-> exists a b, s = a +:+ "</Batch>" +:+ b)
  /\ (wrapBatch s = s
      \/ wrapBatch s = "<Batch OnError=" +:+ quoted "Continue" +:+ ">"
                       +:+ s +:+ "</Batch>")
  /\ wrapBatch (wrapBatch s) = wrapBatch s
  /\ Forall (fun p => exists a b, batch p = a +:+ "</Batch>" +:+ b)
            (updatePromisesList
               (dispatch whenOrder doesMsgHaveError getMsgError opt queue events)).
Proof.
  assert (Hin : forall s, includes "</Batch>" (wrapBatch s) = true).
  { intros s0. unfold wrapBatch.
    destruct (includes "</Batch>" s0) eqn:E; cbn [negb]; [exact E |].
    apply includes_spec.
    exists ("<Batch OnError=" +:+ quoted "Continue" +:+ ">" +:+ s0), EmptyString.
    now rewrite append_empty_r, !append_assoc. }
  assert (Hfix : forall s, includes "</Batch>" s = true -> wrapBatch s = s).
  { intros s0 E. unfold wrapBatch. now rewrite E. }
  split; [apply includes_spec, Hin |]. split; [| split; [| split]].
  - rewrite <- includes_spec. split; [| apply Hfix].
    intros E. rewrite <- E. apply Hin.
  - unfold wrapBatch. destruct (includes "</Batch>" s); cbn [negb]; auto.
  - apply Hfix, Hin.
  - destruct (Inv_dispatch whenOrder doesMsgHaveError getMsgError opt queue events) as [HI _].
    pose proof (inv_batches _ _ _ _ _ _ HI) as Hb.
    apply Forall_forall. intros p Hp.
    apply (list_elem_of_fmap_2 batch) in Hp.
    change (batch <$> ?l) with (map batch l) in Hp. rewrite Hb in Hp.
    change (map ?f ?l) with (f <$> l) in Hp.
    apply list_elem_of_fmap in Hp as (j & -> & _).
    apply includes_spec, Hin.
Qed.

(** ** The merged options *)

Lemma length_append_slash (s : string) :
  String.length (s +:+ "/") = S (String.length s).
Proof.
  induction s as [|c s IH]; [reflexivity |].
  rewrite append_cons. simpl. now rewrite IH.
Qed.

Lemma last_append_slash (s : string) :
  String.get (String.length (s +:+ "/") - 1) (s +:+ "/")
  = Some (Ascii.ascii_of_nat 47).
Proof.
  induction s as [|c s IH]; [reflexivity |].
  rewrite append_cons. simpl String.length.
  rewrite length_append_slash in *. simpl in *.
  now rewrite Nat.sub_0_r in IH.
Qed.

Lemma toStr_primitive (numberToString : Z -> string)
    (objectToString : Heap -> loc -> option string) (h : Heap) (v : Val) :
  isRef v = false ->
  toStr numberToString objectToString h v
  = Some (primitiveToString numberToString v).
Proof. now destruct v. Qed.

Lemma mergedVal_primitive (h : Heap) (options : loc)
    (props : list (string * Val)) (name : string) :
  h !! options = Some (CObject props) ->
  isRef (getProp h options name) = false ->
  isRef (default VUndefined (assoc name defaults)) = false ->
  isRef (mergedVal props name) = false.
Proof.
  intros Hopts Hp Hd. unfold getProp in Hp. rewrite Hopts in Hp.
  unfold mergedVal. now destruct (assoc name props) as [[]|].
Qed.

Section EntryOptions.

Variable getSiteUrl : string.
Variable numberToString : Z -> string.
Variable stringToNumber : string -> Number.
Variable objectToString : Heap -> loc -> option string.

(** Numbers for the batch size and the concurrency are read as they are,
    when the list name can be written into a request. *)
Lemma dispatcherOpt_numbers (h : Heap) (opt : loc) (updates : list string)
    (b c : Z) :
  getProp h opt "batchSize" = VNum b ->
  getProp h opt "concurrency" = VNum c ->
  isRef (getProp h opt "listName") = false ->
  exists o : Opt,
    dispatcherOpt numberToString stringToNumber objectToString h opt updates
    = Some o
    /\ batchSize o = b /\ concurrency o = c.
Proof.
  intros Hb Hc Hl. unfold dispatcherOpt. rewrite Hb, Hc.
  rewrite (toStr_primitive _ _ _ _ Hl). cbn [toNumber mbind option_bind].
  destruct (c <=? 0); [eauto |].
  destruct updates; cbn [mbind option_bind]; eauto.
Qed.

(** X7.  The options the dispatcher works with are the caller's over the
    defaults.  Every property of the copy, apart from [webURL],
    [updateType], [counter] and [_updates], is the caller's value where the
    caller defines one and the default otherwise; [_updates] refers to a
    new array that holds the queue.  When the caller gives no [batchSize]
    and no [concurrency] the batch size is 100 and the concurrency 2, and
    numbers the caller gives are taken as they are. *)
Theorem options_over_defaults (h h' : Heap) (options opt : loc)
    (props : list (string * Val)) (updates : list string) :
  h !! options = Some (CObject props) ->
  NoDup (map fst props) ->
  prologue getSiteUrl numberToString objectToString h options
  = Some (h', opt, updates) ->
  (forall n, n <> "webURL" -> n <> "updateType" -> n <> "counter" ->
     n <> "_updates" -> getProp h' opt n = mergedVal props n)
  /\ (exists q : loc,
        getProp h' opt "_updates" = VRef q
        /\ h' !! q = Some (CArray (map VStr updates))
        /\ q <> options)
  /\ (isRef (getProp h options "listName") = false ->
      (assoc "batchSize" props = None -> assoc "concurrency" props = None ->
       exists o,
         dispatcherOpt numberToString stringToNumber objectToString h' opt updates
         = Some o
         /\ batchSize o = 100 /\ concurrency o = 2)
      /\ (forall b c,
            assoc "batchSize" props = Some (VNum b) ->
            assoc "concurrency" props = Some (VNum c) ->
            exists o,
              dispatcherOpt numberToString stringToNumber objectToString h' opt
                            updates = Some o
              /\ batchSize o = b /\ concurrency o = c)).
Proof.
  intros Hopts Hnd Hpro.
  destruct (prologue_final _ _ _ _ _ _ _ _ _ Hopts Hnd Hpro)
    as (Hfinal & _ & _ & q & Hq & Hcell).
  split; [exact Hfinal |]. split.
  { exists q. split; [assumption |]. split; [assumption |].
    intros ->.
    destruct (prologue_frame _ _ _ _ _ _ _ _ _ updates Hopts Hnd Hpro) as [Hsame _].
    unfold storeQueue in Hsame. rewrite Hq, lookup_insert_eq in Hsame.
    discriminate. }
  intros Hname.
  assert (Hl : isRef (getProp h' opt "listName") = false).
  { rewrite Hfinal by discriminate.
    now apply (mergedVal_primitive h options). }
  split.
  - intros Hb Hc. apply dispatcherOpt_numbers; [| | assumption].
    + rewrite Hfinal by discriminate. unfold mergedVal. now rewrite Hb.
    + rewrite Hfinal by discriminate. unfold mergedVal. now rewrite Hc.
  - intros b c Hb Hc. apply dispatcherOpt_numbers; [| | assumption].
    + rewrite Hfinal by discriminate. unfold mergedVal. now rewrite Hb.
    + rewrite Hfinal by discriminate. unfold mergedVal. now rewrite Hc.
Qed.

(** X8.  The site URL of the copy: without a [webURL] from the caller (or
    with an empty one) it is what [getSiteUrl()] returns; a string the
    caller gives is kept when it ends in a slash and gets one appended
    otherwise, so it always ends in a slash. *)
Theorem webURL_normalized (h h' : Heap) (options opt : loc)
    (props : list (string * Val)) (updates : list string) :
  h !! options = Some (CObject props) ->
  NoDup (map fst props) ->
  prologue getSiteUrl numberToString objectToString h options
  = Some (h', opt, updates) ->
  getProp h' opt "webURL"
  = normalizedWebURL getSiteUrl (mergedVal props "webURL")
  /\ (truthy (getProp h options "webURL") = false ->
      getProp h' opt "webURL" = VStr getSiteUrl)
  /\ (forall s, getProp h options "webURL" = VStr s -> s <> EmptyString ->
      exists s',
        getProp h' opt "webURL" = VStr s'
        /\ (s' = s \/ s' = s +:+ "/")
        /\ String.get (String.length s' - 1) s' = Some (Ascii.ascii_of_nat 47)).
Proof.
  intros Hopts Hnd Hpro.
  destruct (prologue_final _ _ _ _ _ _ _ _ _ Hopts Hnd Hpro)
    as (_ & Hfinal & _).
  assert (Hcaller : getProp h options "webURL"
                    = default VUndefined (assoc "webURL" props)).
  { unfold getProp. now rewrite Hopts. }
  split; [exact Hfinal |]. split.
  - intros Hf. rewrite Hfinal. rewrite Hcaller in Hf.
    assert (Hm : truthy (mergedVal props "webURL") = false).
    { unfold mergedVal.
      destruct (assoc "webURL" props) as [[]|]; simpl in *; auto. }
    unfold normalizedWebURL. now rewrite Hm.
  - intros s Hs Hne. rewrite Hfinal. unfold normalizedWebURL, mergedVal.
    rewrite Hcaller in Hs.
    destruct (assoc "webURL" props) as [v|]; simpl in Hs; [| discriminate].
    subst v. simpl.
    destruct s as [|c s]; [contradiction |]. cbn [truthy negb].
    case_bool_decide as Hslash.
    + exists (String c s). auto.
    + exists (String c s +:+ "/"). split; [reflexivity |].
      split; [auto | apply last_append_slash].
Qed.

(** X9.  The command of the updates: the copy's [updateType] is the
    caller's [batchCmd] when that is given (and truthy), otherwise the
    caller's [updateType], otherwise [Update]. *)
Theorem updateType_from_batchCmd (h h' : Heap) (options opt : loc)
    (props : list (string * Val)) (updates : list string) :
  h !! options = Some (CObject props) ->
  NoDup (map fst props) ->
  prologue getSiteUrl numberToString objectToString h options
  = Some (h', opt, updates) ->
  getProp h' opt "updateType"
  = (if truthy (getProp h options "batchCmd") then getProp h options "batchCmd"
     else match getProp h options "updateType" with
          | VUndefined => VStr "Update"
          | v => v
          end).
Proof.
  intros Hopts Hnd Hpro.
  destruct (prologue_final _ _ _ _ _ _ _ _ _ Hopts Hnd Hpro)
    as (_ & _ & Hut & _).
  rewrite Hut.
  unfold getProp. rewrite Hopts. unfold mergedVal.
  destruct (assoc "batchCmd" props) as [[]|], (assoc "updateType" props) as [[]|];
    reflexivity.
Qed.

End EntryOptions.

Lemma options_over_defaults_witness :
  exists h' opt updates o,
    prologue "http://site/" sampleNumberToString sampleObjectToString
             sampleObjectsStore 0%nat
    = Some (h', opt, updates)
    /\ dispatcherOpt sampleNumberToString sampleStringToNumber sampleObjectToString
                     h' opt updates = Some o
    /\ batchSize o = 100 /\ concurrency o = 2.
Proof.
  destruct (prologue "http://site/" sampleNumberToString sampleObjectToString
                     sampleObjectsStore 0%nat)
    as [[[h' opt] updates]|] eqn:Hrun; [| vm_compute in Hrun; discriminate].
  destruct (options_over_defaults _ _ sampleStringToNumber _ _ _ _ _ _ _
              (eq_refl : sampleObjectsStore !! 0%nat = Some (CObject _))
              ltac:(compute_done) Hrun) as (_ & _ & H).
  destruct (H eq_refl) as [H0 _].
  destruct H0 as (o & Ho & Hb & Hc); [reflexivity | reflexivity |].
  exists h', opt, updates, o. auto.
Defined.

Lemma webURL_normalized_witness :
  exists h' opt updates,
    prologue "http://site/" sampleNumberToString sampleObjectToString
             sampleObjectsStore 0%nat
    = Some (h', opt, updates)
    /\ getProp h' opt "webURL" = VStr "http://x/".
Proof.
  destruct (prologue "http://site/" sampleNumberToString sampleObjectToString
                     sampleObjectsStore 0%nat)
    as [[[h' opt] updates]|] eqn:Hrun; [| vm_compute in Hrun; discriminate].
  destruct (webURL_normalized _ _ _ _ _ _ _ _ _
              (eq_refl : sampleObjectsStore !! 0%nat = Some (CObject _))
              ltac:(compute_done) Hrun) as (H & _).
  exists h', opt, updates. split; [reflexivity |]. rewrite H. reflexivity.
Defined.

Lemma updateType_from_batchCmd_witness :
  exists h' opt updates,
    prologue "http://site/" sampleNumberToString sampleObjectToString
             sampleObjectsStore 0%nat
    = Some (h', opt, updates)
    /\ getProp h' opt "updateType" = VStr "Delete".
Proof.
  destruct (prologue "http://site/" sampleNumberToString sampleObjectToString
                     sampleObjectsStore 0%nat)
    as [[[h' opt] updates]|] eqn:Hrun; [| vm_compute in Hrun; discriminate].
  pose proof (updateType_from_batchCmd _ _ _ _ _ _ _ _ _
                (eq_refl : sampleObjectsStore !! 0%nat = Some (CObject _))
                ltac:(compute_done) Hrun) as H.
  exists h', opt, updates. split; [reflexivity |]. rewrite H. reflexivity.
Defined.

(** ** Updates given as strings *)

Lemma mergedVal_caller (props : list (string * Val)) (name : string) (v : Val) :
  assoc name props = Some v -> v <> VUndefined -> mergedVal props name = v.
Proof. intros H Hv. unfold mergedVal. rewrite H. now destruct v. Qed.

Lemma execBatchUpdate_initial_single (opt : Opt) (s : string) :
  1 <= batchSize opt -> 1 <= concurrency opt ->
  execBatchUpdate opt (initial [s])
  = mkState [] true 1 [mkPromise (wrapBatch s) None] None [1].
Proof.
  intros Hb Hc. unfold execBatchUpdate, maxConcurrentUpds. simpl.
  destruct (Z.to_nat (concurrency opt - 0)) as [|fuel] eqn:Hfuel; [lia |].
  rewrite execBatchUpdate_rec_unfold. simpl.
  destruct (Z.leb_spec (concurrency opt) 0) as [? | _]; [lia |].
  unfold launch. rewrite getBatchUpdateList_chunk. simpl.
  destruct (Z.to_nat (batchSize opt)) as [|n] eqn:Hn; [lia |]. simpl.
  rewrite take_nil, drop_nil. unfold batchOf. simpl.
  now rewrite append_empty_r.
Qed.

Lemma mapM_toStr_strings (numberToString : Z -> string)
    (objectToString : Heap -> loc -> option string) (h : Heap) (strs : list string) :
  mapM (toStr numberToString objectToString h) (map VStr strs) = Some strs.
Proof.
  induction strs as [|s strs IH]; [reflexivity |].
  simpl. rewrite IH. reflexivity.
Qed.

Section StringUpdates.

Variable getSiteUrl : string.
Variable numberToString : Z -> string.
Variable objectToString : Heap -> loc -> option string.
Variable whenOrder : AttachOrder.
Variable doesMsgHaveError : JsVal -> bool.
Variable getMsgError : JsVal -> string.

(** X10.  Updates given as one string that is not empty are queued as that
    one descriptor, unchanged, and for a valid configuration submitted in a
    single request whose batch is the string in its [<Batch>] wrapper, or
    the string itself when it holds a [</Batch>] tag. *)
Theorem string_updates_passed_through (h h' : Heap) (options opt : loc)
    (props : list (string * Val)) (updates : list string) (s : string) :
  h !! options = Some (CObject props) ->
  NoDup (map fst props) ->
  assoc "updates" props = Some (VStr s) ->
  s <> EmptyString ->
  prologue getSiteUrl numberToString objectToString h options
  = Some (h', opt, updates) ->
  updates = [s]
  /\ forall o : Opt,
       1 <= batchSize o -> 1 <= concurrency o ->
       let st := dispatch whenOrder doesMsgHaveError getMsgError o updates [] in
       map batch (updatePromisesList st) = [wrapBatch s]
       /\ _updates st = []
       /\ batchProcessingDone st = true.
Proof.
  intros Hopts Hnd Hupd Hne Hpro.
  destruct (prologue_steps _ _ _ _ _ _ _ _ _ Hopts Hnd Hpro)
    as (h3 & h4 & m3 & q & Hgua & _ & Hobj & _ & Hm & _).
  assert (Hq : updates = [s]).
  { unfold getUpdateArray in Hgua.
    rewrite (Hm "updates") in Hgua by discriminate.
    rewrite (mergedVal_caller _ _ _ Hupd) in Hgua by discriminate.
    destruct s as [|c s]; [contradiction |]. simpl in Hgua.
    now injection Hgua as _ <-. }
  split; [exact Hq |]. subst updates.
  intros o Hb Hc st. subst st. unfold dispatch. simpl.
  rewrite execBatchUpdate_initial_single by assumption. auto.
Qed.

(** X11.  Updates given as an array of strings are queued one descriptor
    per string, in the order of the array; the array is left as it is and
    the counter of the copy stays at 1. *)
Theorem string_array_updates_in_order (h h' : Heap) (options opt u : loc)
    (props : list (string * Val)) (updates strs : list string) :
  h !! options = Some (CObject props) ->
  NoDup (map fst props) ->
  assoc "updates" props = Some (VRef u) ->
  h !! u = Some (CArray (map VStr strs)) ->
  strs <> [] ->
  prologue getSiteUrl numberToString objectToString h options
  = Some (h', opt, updates) ->
  updates = strs
  /\ h' !! u = Some (CArray (map VStr strs))
  /\ getProp h' opt "counter" = VNum 1.
Proof.
  intros Hopts Hnd Hupd Hu Hne Hpro.
  destruct (prologue_steps _ _ _ _ _ _ _ _ _ Hopts Hnd Hpro)
    as (h3 & h4 & m3 & q & Hgua & Hfresh & Hobj & Hold & Hm & Hc1 & _ & _
        & Hq & Hqo & _ & _ & Hold' & Hget').
  assert (Huo : u <> opt) by congruence.
  unfold getUpdateArray in Hgua.
  rewrite (Hm "updates") in Hgua by discriminate.
  rewrite (mergedVal_caller _ _ _ Hupd) in Hgua by discriminate.
  cbn [truthy negb andb typeof] in Hgua.
  change (String.eqb "object" "string") with false in Hgua. cbv iota in Hgua.
  rewrite (Hold u Huo), Hu in Hgua.
  destruct strs as [|s0 strs]; [contradiction |].
  change (map VStr (s0 :: strs)) with (VStr s0 :: map VStr strs) in Hgua.
  cbn [typeof] in Hgua.
  change (String.eqb "string" "object") with false in Hgua.
  change (String.eqb "string" "string") with true in Hgua. cbv iota in Hgua.
  change (VStr s0 :: map VStr strs) with (map VStr (s0 :: strs)) in Hgua.
  rewrite mapM_toStr_strings in Hgua. cbn [mbind option_bind] in Hgua.
  injection Hgua as <- <-.
  assert (Huq : u <> q).
  { intros ->. rewrite (Hold q Huo), Hu in Hq. discriminate. }
  split; [reflexivity |]. split.
  - now rewrite Hold', (Hold u Huo).
  - rewrite Hget' by discriminate. exact Hc1.
Qed.

End StringUpdates.

Lemma string_updates_passed_through_witness :
  exists h' opt updates,
    prologue "http://site/" sampleNumberToString sampleObjectToString
             sampleStringStore 0%nat
    = Some (h', opt, updates)
    /\ updates = ["<Method/>"].
Proof.
  destruct (prologue "http://site/" sampleNumberToString sampleObjectToString
                     sampleStringStore 0%nat)
    as [[[h' opt] updates]|] eqn:Hrun; [| vm_compute in Hrun; discriminate].
  destruct (string_updates_passed_through "http://site/" sampleNumberToString
              sampleObjectToString
              FirstToLast sampleHasError sampleGetError _ _ _ _ _ _ "<Method/>"
              (eq_refl : sampleStringStore !! 0%nat = Some (CObject _))
              ltac:(compute_done) eq_refl ltac:(discriminate) Hrun) as [H _].
  exists h', opt, updates. auto.
Defined.

Lemma string_array_updates_in_order_witness :
  exists h' opt updates,
    prologue "http://site/" sampleNumberToString sampleObjectToString
             sampleStringsStore 0%nat
    = Some (h', opt, updates)
    /\ updates = ["<a/>"; "<b/>"]
    /\ getProp h' opt "counter" = VNum 1.
Proof.
  destruct (prologue "http://site/" sampleNumberToString sampleObjectToString
                     sampleStringsStore 0%nat)
    as [[[h' opt] updates]|] eqn:Hrun; [| vm_compute in Hrun; discriminate].
  destruct (string_array_updates_in_order "http://site/" sampleNumberToString
              sampleObjectToString
              _ _ _ _ 1%nat _ _ ["<a/>"; "<b/>"]
              (eq_refl : sampleStringsStore !! 0%nat = Some (CObject _))
              ltac:(compute_done) eq_refl eq_refl ltac:(discriminate) Hrun)
    as (H & _ & Hc).
  exists h', opt, updates. auto.
Defined.

(** ** Updates given as objects *)

Lemma assign_same (name : string) (v : Val) (props : list (string * Val)) :
  assoc name props = Some v -> assign name v props = props.
Proof.
  induction props as [|[k w] props IH]; simpl; [discriminate |].
  destruct (String.eqb_spec k name) as [-> | Hk]; intros H.
  - now injection H as ->.
  - now rewrite IH.
Qed.

Lemma assign_assign (name : string) (v w : Val) (props : list (string * Val)) :
  assign name w (assign name v props) = assign name w props.
Proof.
  induction props as [|[k u] props IH]; simpl.
  - now rewrite String.eqb_refl.
  - destruct (String.eqb_spec k name) as [-> | Hk]; simpl.
    + now rewrite String.eqb_refl.
    + destruct (String.eqb_spec k name); [contradiction |]. now rewrite IH.
Qed.

Lemma setProp_same (h : Heap) (l : loc) (name : string) (v : Val)
    (props : list (string * Val)) :
  h !! l = Some (CObject props) -> assoc name props = Some v ->
  setProp h l name v = h.
Proof.
  intros Hl Ha. unfold setProp. rewrite Hl, (assign_same _ _ _ Ha).
  now apply insert_id.
Qed.

Lemma setProp_setProp (h : Heap) (l : loc) (name : string) (v w : Val) :
  setProp (setProp h l name v) l name w = setProp h l name w.
Proof.
  unfold setProp at 2 3.
  destruct (h !! l) as [[props | elems]|] eqn:Hl.
  - unfold setProp. rewrite lookup_insert_eq, insert_insert_eq.
    now rewrite assign_assign.
  - unfold setProp. now rewrite Hl.
  - unfold setProp. now rewrite Hl.
Qed.

Lemma ownProps_setProp (h : Heap) (l : loc) (name : string) (w v : Val) :
  v <> VRef l -> ownProps (setProp h l name w) v = ownProps h v.
Proof.
  intros Hv. destruct v as [| | | | |l']; try reflexivity.
  simpl. rewrite setProp_other by congruence. reflexivity.
Qed.

Lemma hasProps_setProp (h : Heap) (l : loc) (name : string) (w v : Val) :
  v <> VRef l -> hasProps (setProp h l name w) v = hasProps h v.
Proof. intros Hv. unfold hasProps. now rewrite ownProps_setProp. Qed.

Lemma append_nonempty (a b : string) : a <> EmptyString -> a +:+ b <> EmptyString.
Proof. destruct a; [contradiction | intros _; rewrite append_cons; discriminate]. Qed.

Lemma append_nonempty_r (a b : string) : b <> EmptyString -> a +:+ b <> EmptyString.
Proof.
  intros Hb. destruct a; [now rewrite append_empty_l |].
  rewrite append_cons. discriminate.
Qed.

Lemma fieldXml_nonempty (name value : string) : fieldXml name value <> EmptyString.
Proof. unfold fieldXml. apply append_nonempty. discriminate. Qed.

Lemma joinAll_nonempty (parts : list string) :
  Forall (fun s => s <> EmptyString) parts ->
  joinAll parts = EmptyString -> parts = [].
Proof.
  intros Hall. destruct Hall as [|s parts Hs _]; [reflexivity |].
  simpl. intros H. exfalso. revert H. now apply append_nonempty.
Qed.

Lemma fieldsXml_empty_iff (numberToString : Z -> string)
    (props : list (string * Val)) :
  fieldsXml numberToString props = EmptyString <-> props = [].
Proof.
  split; [| intros ->; reflexivity].
  unfold fieldsXml. intros H. apply joinAll_nonempty in H.
  - now destruct props.
  - apply Forall_map, Forall_forall. intros [col v] _. apply fieldXml_nonempty.
Qed.

Lemma plainUpdate_setProp (h : Heap) (options : loc) (name : string) (w upd : Val) :
  plainUpdate h options upd -> plainUpdate (setProp h options name w) options upd.
Proof.
  intros (Hne & Hal & Hfl & Hsh). split; [assumption |]. split; [| split].
  - destruct upd as [| | | | |l]; simpl in *; try exact I.
    rewrite setProp_other by congruence. assumption.
  - unfold flat. now rewrite ownProps_setProp.
  - destruct upd as [| | | | |l]; simpl in *; try reflexivity.
    rewrite setProp_other by congruence. assumption.
Qed.

Section ObjectUpdates.

Variable numberToString : Z -> string.
Variable objectToString : Heap -> loc -> option string.

(** On a plain update the built-in [hasOwnProperty] is called, and it
    holds of every property the loop visits. *)
Lemma hasOwnProperty_plain (h : Heap) (upd : Val) (col : string) (v : Val) :
  allocated h upd -> shadowsHasOwnProperty h upd = false ->
  (col, v) ∈ ownProps h upd ->
  hasOwnProperty h upd col = Some true.
Proof.
  intros Hal Hsh Hin.
  assert (Hcol : col ∈ map fst (ownProps h upd)).
  { apply list_elem_of_In, in_map_iff. exists (col, v).
    split; [reflexivity | now apply list_elem_of_In]. }
  destruct upd as [| | | | s |l]; simpl in *;
    try (now apply elem_of_nil in Hin).
  - f_equal. apply bool_decide_eq_true_2. now right.
  - destruct Hal as [cell Hcell]. rewrite Hcell in *.
    destruct cell as [props | elems].
    + destruct (assoc "hasOwnProperty" props) eqn:Ha.
      * apply bool_decide_eq_false_1 in Hsh. destruct Hsh. eauto.
      * f_equal. now apply bool_decide_eq_true_2.
    + f_equal. apply bool_decide_eq_true_2. now right.
Qed.

Lemma fieldsLoop_plain (h : Heap) (upd : Val) (props : list (string * Val)) :
  Forall (fun '(col, v) => hasOwnProperty h upd col = Some true /\ isRef v = false)
         props ->
  forall thisUpd : string,
    fieldsLoop numberToString objectToString h upd props thisUpd
    = Some (thisUpd +:+ fieldsXml numberToString props).
Proof.
  induction 1 as [|[col v] props [Hown Hv] _ IH]; intros thisUpd; simpl.
  - unfold fieldsXml. simpl. now rewrite append_empty_r.
  - rewrite Hown. cbn [mbind option_bind].
    rewrite (toStr_primitive _ _ _ _ Hv). cbn [mbind option_bind].
    rewrite IH. unfold fieldsXml. simpl. now rewrite append_assoc.
Qed.

(** The fields of one plain update *)
Lemma fieldsLoop_plainUpdate (h : Heap) (options : loc) (upd : Val) :
  plainUpdate h options upd ->
  fieldsLoop numberToString objectToString h upd (ownProps h upd) EmptyString
  = Some (fieldsXml numberToString (ownProps h upd)).
Proof.
  intros (_ & Hal & Hfl & Hsh).
  rewrite fieldsLoop_plain; [now rewrite append_empty_l |].
  unfold flat in Hfl. rewrite Forall_forall in *. intros [col v] Hin.
  split.
  - now apply (hasOwnProperty_plain h upd col v).
  - specialize (Hfl _ Hin). simpl in Hfl. now destruct v.
Qed.

(** The object loop over plain updates, one update after the other. *)
Lemma processArrayOfObjects_methods (options : loc) (updArray : list Val) :
  forall (h : Heap) (props : list (string * Val)) (c : Z) (acc : list string),
    h !! options = Some (CObject props) ->
    assoc "counter" props = Some (VNum c) ->
    isRef (getProp h options "updateType") = false ->
    Forall (plainUpdate h options) updArray ->
    processArrayOfObjects numberToString objectToString options updArray (h, acc)
    = Some
        (setProp h options "counter"
           (VNum (c + Z.of_nat (length (List.filter (hasProps h) updArray)))),
         acc ++ imap
                  (fun j upd =>
                     methodXml (numberToString (c + Z.of_nat j))
                       (primitiveToString numberToString
                          (getProp h options "updateType"))
                       (fieldsXml numberToString (ownProps h upd)))
                  (List.filter (hasProps h) updArray)).
Proof.
  induction updArray as [|upd updArray IH]; intros h props c acc Hobj Hc Hcmd Hall.
  - simpl. rewrite Z.add_0_r, app_nil_r.
    now rewrite (setProp_same _ _ _ _ _ Hobj Hc).
  - apply Forall_cons in Hall as [Hupd Hall].
    cbn [processArrayOfObjects fst].
    rewrite (fieldsLoop_plainUpdate h options upd Hupd).
    cbn [mbind option_bind]. unfold pushMethod. simpl List.filter.
    case_bool_decide as Hempty.
    + apply fieldsXml_empty_iff in Hempty.
      assert (Hhas : hasProps h upd = false)
        by (unfold hasProps; now rewrite Hempty).
      rewrite Hhas. cbn [mbind option_bind]. now apply (IH h props).
    + assert (Hhas : hasProps h upd = true).
      { unfold hasProps. destruct (ownProps h upd); [| reflexivity].
        now destruct Hempty. }
      rewrite Hhas.
      assert (Hcnt : getProp h options "counter" = VNum c).
      { unfold getProp. now rewrite Hobj, Hc. }
      rewrite Hcnt. rewrite (toStr_primitive _ _ _ _ Hcmd).
      cbn [toStr primitiveToString mbind option_bind].
      set (h1 := setProp h options "counter" (VNum (c + 1))).
      assert (Hobj1 : h1 !! options
                      = Some (CObject (assign "counter" (VNum (c + 1)) props))).
      { subst h1. now apply setProp_object. }
      assert (Hc1 : assoc "counter" (assign "counter" (VNum (c + 1)) props)
                    = Some (VNum (c + 1))).
      { now rewrite assoc_assign, String.eqb_refl. }
      assert (Htype : getProp h1 options "updateType"
                      = getProp h options "updateType").
      { subst h1. now apply getProp_setProp_ne. }
      assert (Hall1 : Forall (plainUpdate h1 options) updArray).
      { eapply Forall_impl; [exact Hall |]. intros v Hv. subst h1.
        now apply plainUpdate_setProp. }
      rewrite (IH h1 _ (c + 1) _ Hobj1 Hc1 ltac:(now rewrite Htype) Hall1).
      assert (Hno : Forall (fun v => v <> VRef options) updArray).
      { eapply Forall_impl; [exact Hall |]. now intros v [Hv _]. }
      assert (Hfilter : List.filter (hasProps h1) updArray
                        = List.filter (hasProps h) updArray).
      { subst h1. clear -Hno.
        induction Hno as [|v vs Hv _ IHvs]; simpl; [reflexivity |].
        rewrite hasProps_setProp by assumption. now rewrite IHvs. }
      rewrite Hfilter, Htype. simpl length.
      f_equal. f_equal.
      * subst h1. rewrite setProp_setProp. do 2 f_equal. lia.
      * rewrite <- app_assoc. f_equal. simpl. f_equal.
        -- now rewrite Z.add_0_r.
        -- apply imap_ext. intros j v Hj. simpl.
           replace (c + 1 + Z.of_nat j) with (c + Z.of_nat (S j)) by lia.
           f_equal. subst h1. rewrite ownProps_setProp; [reflexivity |].
           apply list_elem_of_lookup_2 in Hj. rewrite list_elem_of_In in Hj.
           apply filter_In in Hj as [Hj _]. rewrite <- list_elem_of_In in Hj.
           rewrite Forall_forall in Hno. now apply Hno.
Qed.

End ObjectUpdates.

Section ObjectUpdatesEntry.

Variable numberToString : Z -> string.
Variable objectToString : Heap -> loc -> option string.

(** X12.  Updates given as an array of plain objects (primitive property
    values, no property named [hasOwnProperty]) with a primitive command:
    every update with at least one own property becomes one [<Method>], in
    the order of the array, with one [<Field>] per property in the order
    of the object, and the methods are numbered consecutively from
    [options.counter]; an update without properties is skipped and uses no
    number.  The counter ends at its start plus the number of methods, and
    nothing else of the store changes. *)
Theorem object_updates_numbered (h : Heap) (options u : loc)
    (props : list (string * Val)) (c : Z) (first : Val) (others : list Val) :
  h !! options = Some (CObject props) ->
  assoc "counter" props = Some (VNum c) ->
  isRef (getProp h options "updateType") = false ->
  getProp h options "updates" = VRef u ->
  h !! u = Some (CArray (first :: others)) ->
  typeof first = "object" ->
  Forall (plainUpdate h options) (first :: others) ->
  let kept := List.filter (hasProps h) (first :: others) in
  getUpdateArray numberToString objectToString h options
  = Some (setProp h options "counter" (VNum (c + Z.of_nat (length kept))),
          imap
            (fun j upd =>
               methodXml (numberToString (c + Z.of_nat j))
                 (primitiveToString numberToString (getProp h options "updateType"))
                 (fieldsXml numberToString (ownProps h upd)))
            kept).
Proof.
  intros Hobj Hc Hcmd Hupd Hu Htype Hall kept. unfold getUpdateArray.
  rewrite Hupd. cbn [truthy negb andb typeof].
  change (String.eqb "object" "string") with false. cbv iota.
  rewrite Hu, Htype. change (String.eqb "object" "object") with true. cbv iota.
  now rewrite (processArrayOfObjects_methods numberToString objectToString
                 options _ h props c [] Hobj Hc Hcmd Hall).
Qed.

(** X13.  Updates given as an array of arrays take the same loop as an
    array of objects, since an array has the type [object]: each inner
    pair [[name, value]] becomes a [<Method>] of its own whose fields are
    named by the indices 0 and 1, numbered from [options.counter]. *)
Theorem array_updates_as_objects (h : Heap) (options u : loc)
    (props : list (string * Val)) (c : Z) (cmd : string)
    (locs : list loc) (pairs : list (string * string)) :
  h !! options = Some (CObject props) ->
  assoc "counter" props = Some (VNum c) ->
  getProp h options "updateType" = VStr cmd ->
  getProp h options "updates" = VRef u ->
  h !! u = Some (CArray (map VRef locs)) ->
  locs <> [] ->
  Forall2 (fun l '(n, v) => l <> options /\ h !! l = Some (CArray [VStr n; VStr v]))
          locs pairs ->
  getUpdateArray numberToString objectToString h options
  = Some (setProp h options "counter" (VNum (c + Z.of_nat (length pairs))),
          imap
            (fun j '(n, v) =>
               methodXml (numberToString (c + Z.of_nat j)) cmd
                         (fieldXml "0" n +:+ fieldXml "1" v))
            pairs).
Proof.
  intros Hobj Hc Hcmd Hupd Hu Hne Hpairs.
  destruct locs as [|l0 locs]; [contradiction |]. simpl in Hu.
  assert (Hall : Forall (plainUpdate h options) (VRef l0 :: map VRef locs)).
  { change (VRef l0 :: map VRef locs) with (map VRef (l0 :: locs)).
    apply Forall_map. eapply Forall2_Forall_l; [exact Hpairs |].
    apply Forall_forall. intros [n v] _ l [Hl Hcell]. simpl.
    split; [congruence |]. split; [simpl; rewrite Hcell; eauto |].
    split.
    - unfold flat. simpl. rewrite Hcell. simpl. repeat constructor.
    - simpl. now rewrite Hcell. }
  unfold getUpdateArray.
  rewrite Hupd. cbn [truthy negb andb typeof].
  change (String.eqb "object" "string") with false. cbv iota.
  rewrite Hu. cbn [typeof].
  change (String.eqb "object" "object") with true. cbv iota.
  rewrite (processArrayOfObjects_methods numberToString objectToString
             options _ h props c [] Hobj Hc ltac:(now rewrite Hcmd) Hall).
  cbn [app].
  change (VRef l0 :: map VRef locs) with (map VRef (l0 :: locs)).
  assert (Hkept : List.filter (hasProps h) (map VRef (l0 :: locs))
                  = map VRef (l0 :: locs)).
  { clear -Hpairs. induction Hpairs as [|l [n v] ls ps [_ Hl] _ IH]; [reflexivity |].
    simpl. unfold hasProps at 1. simpl. rewrite Hl. simpl. now rewrite IH. }
  rewrite Hkept, length_map, (Forall2_length _ _ _ Hpairs).
  do 2 f_equal. rewrite Hcmd.
  clear -Hpairs. revert c.
  induction Hpairs as [|l [n v] ls ps [Hlo Hl] _ IH]; intros c; [reflexivity |].
  simpl. f_equal.
  - unfold fieldsXml. simpl. rewrite Hl. simpl. now rewrite append_empty_r.
  - specialize (IH (c + 1)).
    erewrite imap_ext; [erewrite (imap_ext _ _ ps); [exact IH |] |].
    + intros j [n' v'] _. simpl.
      replace (c + 1 + Z.of_nat j) with (c + Z.of_nat (S j)) by lia. reflexivity.
    + intros j upd _. simpl.
      replace (c + 1 + Z.of_nat j) with (c + Z.of_nat (S j)) by lia. reflexivity.
Qed.

End ObjectUpdatesEntry.

Lemma object_updates_numbered_witness :
  exists h' m1 m2,
    getUpdateArray sampleNumberToString sampleObjectToString sampleMergedObjects 0%nat
    = Some (h', [m1; m2])
    /\ getProp h' 0%nat "counter" = VNum 3.
Proof.
  eexists. eexists. eexists. split.
  - rewrite (object_updates_numbered sampleNumberToString sampleObjectToString
               sampleMergedObjects
               0%nat 1%nat _ 1 (VRef 2%nat) [VRef 3%nat; VRef 4%nat]
               eq_refl eq_refl eq_refl eq_refl eq_refl eq_refl
               ltac:(repeat constructor; try discriminate;
                     vm_compute; eauto)).
    vm_compute. reflexivity.
  - vm_compute. reflexivity.
Defined.

Lemma array_updates_as_objects_witness :
  exists h',
    getUpdateArray sampleNumberToString sampleObjectToString sampleMergedPairs 0%nat
    = Some (h',
            [methodXml "1" "Update" (fieldXml "0" "Title" +:+ fieldXml "1" "a");
             methodXml "2" "Update" (fieldXml "0" "Status" +:+ fieldXml "1" "b")]).
Proof.
  eexists.
  rewrite (array_updates_as_objects sampleNumberToString sampleObjectToString
             sampleMergedPairs
             0%nat 1%nat _ 1 "Update" [2%nat; 3%nat]
             [("Title", "a"); ("Status", "b")]
             eq_refl eq_refl eq_refl eq_refl eq_refl ltac:(discriminate)
             ltac:(repeat constructor; discriminate)).
  vm_compute. reflexivity.
Defined.

(** ** The backwards-compatibility path *)

Section CompatPath.

Variable numberToString : Z -> string.
Variable objectToString : Heap -> loc -> option string.

Lemma pairsLoop_app (h : Heap) (l1 l2 : list Val) :
  forall thisUpd : string,
    pairsLoop numberToString objectToString h (l1 ++ l2) thisUpd
    = (s ← pairsLoop numberToString objectToString h l1 thisUpd;
       pairsLoop numberToString objectToString h l2 s).
Proof.
  induction l1 as [|upd l1 IH]; intros thisUpd; [reflexivity |].
  simpl. destruct (isArray h upd); [| apply IH].
  destruct (toStr numberToString objectToString h (at_index h upd 0)); [| reflexivity].
  destruct (toStr numberToString objectToString h (at_index h upd 1)); [| reflexivity].
  simpl. apply IH.
Qed.

(** The pair loop over plain pairs, read in a store [hp] that agrees with
    [h] on them. *)
Lemma pairsLoop_plain (h hp : Heap) (a : loc) (elems : list Val) :
  Forall (plainPair h a) elems ->
  (forall l, l <> a -> is_Some (h !! l) -> hp !! l = h !! l) ->
  forall thisUpd : string,
    pairsLoop numberToString objectToString hp elems thisUpd
    = Some (thisUpd +:+ joinAll (map (pairXml numberToString h) elems)).
Proof.
  intros Hall Hagree.
  induction Hall as [|upd elems (Hne & Hal & Hprim) _ IH]; intros thisUpd; simpl.
  - now rewrite append_empty_r.
  - assert (Harr : isArray hp upd = isArray h upd).
    { destruct upd as [| | | | |l]; try reflexivity. simpl in *.
      rewrite Hagree; [reflexivity | congruence | assumption]. }
    assert (Hat : forall i, at_index hp upd i = at_index h upd i).
    { intros i. destruct upd as [| | | | |l]; try reflexivity. simpl in *.
      rewrite Hagree; [reflexivity | congruence | assumption]. }
    rewrite Harr. unfold pairXml at 1.
    destruct (isArray h upd) eqn:Hisarr.
    + destruct (Hprim eq_refl) as [H0 H1]. rewrite !Hat.
      rewrite (toStr_primitive _ _ _ _ H0), (toStr_primitive _ _ _ _ H1).
      cbn [mbind option_bind]. rewrite IH. now rewrite append_assoc.
    + rewrite IH. now rewrite append_empty_l.
Qed.

(** X14.  On the backwards-compatibility path (no truthy [updates], a
    primitive [ID] and a [valuepairs] array of plain pairs) exactly one
    [<Method>] is queued, numbered by [options.counter]; its fields are
    those of the pairs, in their order, followed, last, by the field [ID]
    with the given identifier.  The counter advances by one. *)
Theorem compat_path_single_method (h : Heap) (options a : loc)
    (props : list (string * Val)) (c : Z) (cmd : string) (elems : list Val) :
  h !! options = Some (CObject props) ->
  assoc "counter" props = Some (VNum c) ->
  getProp h options "updateType" = VStr cmd ->
  truthy (getProp h options "updates") = false ->
  truthy (getProp h options "ID") = true ->
  isRef (getProp h options "ID") = false ->
  getProp h options "valuepairs" = VRef a ->
  h !! a = Some (CArray elems) ->
  Forall (plainPair h a) elems ->
  exists h' : Heap,
    getUpdateArray numberToString objectToString h options
    = Some (h', [methodXml (numberToString c) cmd
                   (joinAll (map (pairXml numberToString h) elems)
                    +:+ fieldXml "ID"
                          (primitiveToString numberToString
                             (getProp h options "ID")))])
    /\ getProp h' options "counter" = VNum (c + 1).
Proof.
  intros Hobj Hc Hcmd Hupd HID Hprim Hvp Ha Hpairs. unfold getUpdateArray.
  rewrite Hupd, HID, Hvp. cbn [truthy negb andb]. cbv iota. rewrite Ha.
  destruct (alloc_fresh h (CArray [VStr "ID"; getProp h options "ID"]))
    as (Hfresh & Hnew & Hold).
  destruct (alloc h (CArray [VStr "ID"; getProp h options "ID"])) as [idPair h1].
  simpl in Hfresh, Hnew, Hold.
  set (hp := <[a := CArray (elems ++ [VRef idPair])]> h1).
  assert (Hai : a <> idPair) by congruence.
  assert (Hoa : options <> a) by congruence.
  assert (Hoi : options <> idPair) by congruence.
  assert (Hpi : hp !! idPair = Some (CArray [VStr "ID"; getProp h options "ID"])).
  { subst hp. now rewrite lookup_insert_ne. }
  assert (Hpo : hp !! options = Some (CObject props)).
  { subst hp. rewrite lookup_insert_ne by congruence. now rewrite Hold. }
  assert (Hagree : forall l, l <> a -> is_Some (h !! l) -> hp !! l = h !! l).
  { intros l Hla [cell Hcell]. subst hp. rewrite lookup_insert_ne by congruence.
    apply Hold. congruence. }
  unfold processArrayOfArrays. cbn [fst].
  rewrite pairsLoop_app, (pairsLoop_plain h hp a elems Hpairs Hagree).
  cbn [mbind option_bind pairsLoop].
  assert (Harr : isArray hp (VRef idPair) = true) by (simpl; now rewrite Hpi).
  assert (H0 : at_index hp (VRef idPair) 0 = VStr "ID") by (simpl; now rewrite Hpi).
  assert (H1 : at_index hp (VRef idPair) 1 = getProp h options "ID")
    by (simpl; now rewrite Hpi).
  rewrite Harr, H0, H1. rewrite (toStr_primitive _ _ _ _ Hprim).
  cbn [toStr primitiveToString mbind option_bind]. rewrite append_empty_l.
  unfold pushMethod.
  rewrite bool_decide_eq_false_2
    by (apply append_nonempty_r, fieldXml_nonempty).
  assert (Hcnt : getProp hp options "counter" = VNum c).
  { unfold getProp. now rewrite Hpo, Hc. }
  assert (Hcmd' : getProp hp options "updateType" = VStr cmd).
  { rewrite <- Hcmd. apply getProp_same_cell. now rewrite Hpo. }
  rewrite Hcnt, Hcmd'. cbn [toStr primitiveToString mbind option_bind app].
  eexists. split; [reflexivity |].
  rewrite (getProp_setProp _ _ _ _ _ _ Hpo). now rewrite String.eqb_refl.
Qed.

End CompatPath.

Lemma compat_path_single_method_witness :
  exists h',
    getUpdateArray sampleNumberToString sampleObjectToString sampleMergedCompat 0%nat
    = Some (h', [methodXml "1" "Update"
                   (fieldXml "Title" "hello" +:+ fieldXml "ID" "7")]).
Proof.
  destruct (compat_path_single_method sampleNumberToString sampleObjectToString
              sampleMergedCompat
              0%nat 1%nat _ 1 "Update" [VRef 2%nat]
              eq_refl eq_refl eq_refl eq_refl eq_refl eq_refl eq_refl eq_refl
              ltac:(repeat constructor; try discriminate; vm_compute; eauto))
    as (h' & H & _).
  exists h'. exact H.
Defined.

(** ** Nothing to update *)

Lemma mergedVal_no_default (props : list (string * Val)) (name : string) :
  assoc name defaults = None ->
  mergedVal props name = default VUndefined (assoc name props).
Proof.
  intros Hd. unfold mergedVal. rewrite Hd.
  now destruct (assoc name props) as [[]|].
Qed.

Section NothingToUpdate.

Variable getSiteUrl : string.
Variable numberToString : Z -> string.
Variable objectToString : Heap -> loc -> option string.

(** X15.  What is queued when there is nothing to update.  Without
    [updates] (or with the empty string) and off the compatibility path,
    the default [updates: ''] is queued: one descriptor, the empty string.
    With [updates] a single object that is not an array, or an empty array,
    nothing is queued at all. *)
Theorem nothing_to_update (h h' : Heap) (options opt : loc)
    (props : list (string * Val)) (updates : list string) :
  h !! options = Some (CObject props) ->
  NoDup (map fst props) ->
  prologue getSiteUrl numberToString objectToString h options
  = Some (h', opt, updates) ->
  ((assoc "updates" props = None \/ assoc "updates" props = Some VUndefined
    \/ assoc "updates" props = Some (VStr EmptyString)) ->
   truthy (getProp h options "ID") && truthy (getProp h options "valuepairs") = false ->
   updates = [EmptyString])
  /\ (forall u,
        assoc "updates" props = Some (VRef u) ->
        (exists ps, h !! u = Some (CObject ps)) \/ h !! u = Some (CArray []) ->
        updates = []).
Proof.
  intros Hopts Hnd Hpro.
  destruct (prologue_steps _ _ _ _ _ _ _ _ _ Hopts Hnd Hpro)
    as (h3 & h4 & m3 & q & Hgua & Hfresh & Hobj & Hold & Hm & _).
  assert (Hcaller : forall n, getProp h options n = default VUndefined (assoc n props)).
  { intros n. unfold getProp. now rewrite Hopts. }
  unfold getUpdateArray in Hgua.
  rewrite (Hm "updates"), (Hm "ID"), (Hm "valuepairs") in Hgua by discriminate.
  rewrite (mergedVal_no_default props "ID"),
          (mergedVal_no_default props "valuepairs") in Hgua by reflexivity.
  rewrite <- !Hcaller in Hgua.
  split.
  - intros Hupd Hoff.
    assert (Hmu : mergedVal props "updates" = VStr EmptyString).
    { unfold mergedVal. destruct Hupd as [-> | [-> | ->]]; reflexivity. }
    rewrite Hmu in Hgua. cbn [truthy negb andb] in Hgua.
    rewrite Hoff in Hgua. simpl in Hgua. now injection Hgua as _ <-.
  - intros u Hupd Hu.
    rewrite (mergedVal_caller _ _ _ Hupd) in Hgua by discriminate.
    assert (Huo : u <> opt).
    { destruct Hu as [[ps Hu] | Hu]; congruence. }
    simpl in Hgua. rewrite (Hold u Huo) in Hgua.
    destruct Hu as [[ps Hu] | Hu]; rewrite Hu in Hgua; now injection Hgua as _ <-.
Qed.

End NothingToUpdate.

Lemma nothing_to_update_witness :
  exists h' opt updates,
    prologue "http://site/" sampleNumberToString sampleObjectToString
             sampleBareStore 0%nat
    = Some (h', opt, updates)
    /\ updates = [EmptyString].
Proof.
  destruct (prologue "http://site/" sampleNumberToString sampleObjectToString
             sampleBareStore 0%nat)
    as [[[h' opt] updates]|] eqn:Hrun; [| vm_compute in Hrun; discriminate].
  destruct (nothing_to_update "http://site/" sampleNumberToString
              sampleObjectToString _ _ _ _
              [("listName", VStr "Tasks")] _
              (eq_refl : sampleBareStore !! 0%nat = Some (CObject _))
              ltac:(compute_done) Hrun) as [H _].
  exists h', opt, updates. split; [reflexivity |].
  apply H; [now left | reflexivity].
Defined.

(** ** A queue that fits in one batch *)

Lemma execBatchUpdate_initial_one_batch (opt : Opt) (queue : list string) :
  (length queue <= Z.to_nat (batchSize opt))%nat -> 1 <= concurrency opt ->
  execBatchUpdate opt (initial queue)
  = mkState [] true 1 [mkPromise (batchOf queue) None] None [1].
Proof.
  intros Hb Hc. unfold execBatchUpdate, maxConcurrentUpds. simpl.
  destruct (Z.to_nat (concurrency opt - 0)) as [|fuel] eqn:Hfuel; [lia |].
  rewrite execBatchUpdate_rec_unfold. simpl.
  destruct (Z.leb_spec (concurrency opt) 0) as [? | _]; [lia |].
  unfold launch. rewrite getBatchUpdateList_chunk. simpl.
  rewrite take_ge, drop_ge by assumption. reflexivity.
Qed.

(** X16.  A queue that fits in one batch: all its descriptors go out in a
    single request, and the result is made of that request's outcome.  A
    resolved request gives its document as [httpData] and its jqXHR as
    [xhrRequest], with the status and message of the document's inspection;
    a rejected one gives the status [error], its [textStatus] as message
    ([HTTP error.] when that is empty) and its [errorThrown], not its
    jqXHR, as both [httpData] and [xhrRequest]. *)
Theorem single_batch_result
    (whenOrder : AttachOrder)
    (doesMsgHaveError : JsVal -> bool) (getMsgError : JsVal -> string)
    (opt : Opt) (queue : list string) (o : Outcome)
    (events : list (nat * Outcome)) :
  (length queue <= Z.to_nat (batchSize opt))%nat -> 1 <= concurrency opt ->
  let st := dispatch whenOrder doesMsgHaveError getMsgError opt queue ((0%nat, o) :: events) in
  updatePromisesList st = [mkPromise (batchOf queue) (Some o)]
  /\ exists s, dfd st = Some s
     /\ responseOf s
        = match o with
          | Resolved d t x =>
              mkResponse
                (if doesMsgHaveError (JXml d) then "error" else "success")
                (if doesMsgHaveError (JXml d) then JString (getMsgError (JXml d))
                 else JString "Update Successful.")
                (JXml d) (JXhr x)
          | Rejected x t e =>
              mkResponse "error" (or (JString t) (JString "HTTP error."))
                         (JString e) (JString e)
          end.
Proof.
  intros Hb Hc st.
  assert (H1 : dispatch whenOrder doesMsgHaveError getMsgError opt queue [(0%nat, o)]
               = mkState [] true 0 [mkPromise (batchOf queue) (Some o)]
                   (Some (aggregate whenOrder doesMsgHaveError getMsgError 0 [o])) [1; 0]).
  { unfold dispatch. simpl.
    rewrite execBatchUpdate_initial_one_batch by assumption. reflexivity. }
  assert (H2 : st = dispatch whenOrder doesMsgHaveError getMsgError opt queue [(0%nat, o)]).
  { subst st. unfold dispatch. simpl.
    apply (settled_fold whenOrder doesMsgHaveError getMsgError opt queue).
    - apply (Inv_dispatch whenOrder doesMsgHaveError getMsgError opt queue [(0%nat, o)]).
    - unfold dispatch in H1. simpl in H1. rewrite H1. simpl. eauto. }
  rewrite H2, H1. simpl. split; [reflexivity |].
  eexists. split; [reflexivity |].
  destruct o as [d t x | x t e].
  - apply aggregate_resolved_single.
  - now rewrite aggregate_rejected_single.
Qed.

Lemma single_batch_result_witness :
  exists s,
    dfd (sampleDispatch 100 2 ["a"; "b"] [(0%nat, Rejected 0 "error" "Not Found")])
    = Some s
    /\ httpData (responseOf s) = JString "Not Found".
Proof.
  destruct (single_batch_result FirstToLast sampleHasError sampleGetError (sampleOpt 100 2)
              ["a"; "b"] (Rejected 0 "error" "Not Found") [])
    as (_ & s & Hs & Hr); [simpl; lia | simpl; lia |].
  exists s. split; [exact Hs |]. now rewrite Hr.
Defined.

(** ** When the entry point throws *)

Section Throws.

Variable getSiteUrl : string.
Variable numberToString : Z -> string.
Variable objectToString : Heap -> loc -> option string.

(** The object loop throws when it comes to an update that has a property
    named [hasOwnProperty], if it has not thrown before. *)
Lemma processArrayOfObjects_throws (options l : loc) (ps : list (string * Val))
    (updArray : list Val) :
  l <> options ->
  is_Some (assoc "hasOwnProperty" ps) ->
  forall (k : nat) (acc : Heap * list string),
    updArray !! k = Some (VRef l) ->
    fst acc !! l = Some (CObject ps) ->
    processArrayOfObjects numberToString objectToString options updArray acc = None.
Proof.
  intros Hne Hshadow.
  induction updArray as [|upd updArray IH]; intros k acc Hk Hl; [discriminate |].
  cbn [processArrayOfObjects]. destruct k as [|k]; simpl in Hk.
  - injection Hk as ->. cbn [ownProps]. rewrite Hl.
    destruct ps as [|[col v] ps]; [now destruct Hshadow as [? ?] |].
    cbn [fieldsLoop hasOwnProperty]. rewrite Hl.
    destruct Hshadow as [w ->]. reflexivity.
  - destruct (fieldsLoop numberToString objectToString (fst acc) upd
                (ownProps (fst acc) upd) EmptyString) as [thisUpd|];
      [| reflexivity].
    cbn [mbind option_bind].
    destruct (pushMethod numberToString objectToString options thisUpd acc)
      as [acc1|] eqn:Hpush; [| reflexivity].
    cbn [mbind option_bind]. apply (IH k); [assumption |].
    apply pushMethod_onlyCounter in Hpush as (Hother & _).
    now rewrite Hother.
Qed.

(** X17.  Three ways in which the statements before the [$.Deferred]
    throw.  A [webURL] that is truthy and not a string has no [charAt].  On
    the compatibility path a [valuepairs] that is not an array has no
    [push].  And of an array of objects, an update that has a property of
    its own named [hasOwnProperty] (holding no function) cannot be asked
    [hasOwnProperty(col)]. *)
Theorem prologue_error_paths (h : Heap) (options : loc)
    (props : list (string * Val)) :
  h !! options = Some (CObject props) ->
  NoDup (map fst props) ->
  let throws :=
    prologue getSiteUrl numberToString objectToString h options = None in
  (truthy (getProp h options "webURL") = true ->
   (forall s, getProp h options "webURL" <> VStr s) ->
   throws)
  /\ (truthy (getProp h options "updates") = false ->
      truthy (getProp h options "ID") = true ->
      truthy (getProp h options "valuepairs") = true ->
      (forall a elems, getProp h options "valuepairs" = VRef a ->
                       h !! a <> Some (CArray elems)) ->
      throws)
  /\ (forall (u l : loc) (first : Val) (others : list Val) (k : nat)
             (ps : list (string * Val)),
        assoc "updates" props = Some (VRef u) ->
        h !! u = Some (CArray (first :: others)) ->
        typeof first = "object" ->
        (first :: others) !! k = Some (VRef l) ->
        h !! l = Some (CObject ps) ->
        is_Some (assoc "hasOwnProperty" ps) ->
        throws).
Proof.
  intros Hopts Hnd throws.
  assert (Hcaller : forall n, getProp h options n = default VUndefined (assoc n props)).
  { intros n. unfold getProp. now rewrite Hopts. }
  split; [| split].
  - (* webURL *)
    intros Htruthy Hnostr. subst throws. unfold prologue. cbn [ownProps].
    rewrite Hopts.
    set (merged := extendWith (extendWith (extendWith [] defaults) props)
                              [("counter", VNum 1)]).
    destruct (alloc_fresh h (CObject merged)) as (_ & Hnew & _).
    destruct (alloc h (CObject merged)) as [o h1]. simpl in Hnew.
    assert (Hweb : getProp h1 o "webURL" = getProp h options "webURL").
    { unfold getProp at 1. rewrite Hnew. unfold merged.
      rewrite merged_assoc by (discriminate || assumption).
      rewrite Hcaller in *.
      destruct (assoc "webURL" props) as [[]|]; simpl in *; congruence. }
    rewrite Hweb, Htruthy. cbn [negb].
    destruct (getProp h options "webURL") as [| | | |s|]; try reflexivity.
    now destruct (Hnostr s).
  - (* valuepairs *)
    intros Hupd HID Hvp Hnoarr. subst throws.
    destruct (prologue getSiteUrl numberToString objectToString h options)
      as [[[h' opt] updates]|] eqn:Hpro; [exfalso | reflexivity].
    destruct (prologue_steps _ _ _ _ _ _ _ _ _ Hopts Hnd Hpro)
      as (h3 & h4 & m3 & q & Hgua & Hfresh & Hobj & Hold & Hm & _).
    unfold getUpdateArray in Hgua.
    rewrite (Hm "updates"), (Hm "ID"), (Hm "valuepairs") in Hgua by discriminate.
    rewrite (mergedVal_no_default props "ID"),
            (mergedVal_no_default props "valuepairs") in Hgua by reflexivity.
    rewrite <- !Hcaller in Hgua.
    assert (Hmu : truthy (mergedVal props "updates") = false).
    { rewrite Hcaller in Hupd. unfold mergedVal.
      destruct (assoc "updates" props) as [[]|]; simpl in *; congruence. }
    rewrite Hmu, HID, Hvp in Hgua. cbn [negb andb] in Hgua.
    destruct (getProp h options "valuepairs") as [| | | | |a] eqn:Ha;
      try discriminate.
    destruct (decide (a = opt)) as [-> | Hao].
    + rewrite Hobj in Hgua. discriminate.
    + rewrite (Hold a Hao) in Hgua.
      destruct (h !! a) as [[ps|elems]|] eqn:Hcell; try discriminate.
      now apply (Hnoarr a elems).
  - (* hasOwnProperty *)
    intros u l first others k ps Hupd Hu Htype Hk Hl Hshadow. subst throws.
    destruct (prologue getSiteUrl numberToString objectToString h options)
      as [[[h' opt] updates]|] eqn:Hpro; [exfalso | reflexivity].
    destruct (prologue_steps _ _ _ _ _ _ _ _ _ Hopts Hnd Hpro)
      as (h3 & h4 & m3 & q & Hgua & Hfresh & Hobj & Hold & Hm & _).
    assert (Huo : u <> opt) by congruence.
    assert (Hlo : l <> opt) by congruence.
    unfold getUpdateArray in Hgua.
    rewrite (Hm "updates") in Hgua by discriminate.
    rewrite (mergedVal_caller _ _ _ Hupd) in Hgua by discriminate.
    cbn [truthy negb andb typeof] in Hgua.
    change (String.eqb "object" "string") with false in Hgua. cbv iota in Hgua.
    rewrite (Hold u Huo), Hu, Htype in Hgua.
    change (String.eqb "object" "object") with true in Hgua. cbv iota in Hgua.
    rewrite (processArrayOfObjects_throws opt l ps _ Hlo Hshadow k (h3, []) Hk)
      in Hgua; [discriminate |].
    cbn [fst]. now rewrite (Hold l Hlo).
Qed.

End Throws.

Lemma prologue_error_paths_witness :
  prologue "http://site/" sampleNumberToString sampleObjectToString
           sampleShadowStore 0%nat = None.
Proof.
  destruct (prologue_error_paths "http://site/" sampleNumberToString
              sampleObjectToString sampleShadowStore 0%nat _
              eq_refl ltac:(compute_done)) as (_ & _ & H).
  apply (H 1%nat 3%nat (VRef 2%nat) [VRef 3%nat] 1%nat
           [("ID", VStr "4"); ("hasOwnProperty", VNum 1)]);
    try reflexivity.
  eexists. reflexivity.
Defined.

(** ** The scan of the responses *)

Section Scan.

Variable doesMsgHaveError : JsVal -> bool.
Variable getMsgError : JsVal -> string.

Lemma forEach_arrays (isHttpError : bool) (args : list JsVal) :
  forall (st : string) (msg : JsVal) (hd xr : list JsVal),
    let r := fold_left (forEachResponse doesMsgHaveError getMsgError true isHttpError)
               args (mkResponse st msg (JArray hd) (JArray xr)) in
    httpData r
    = JArray (hd ++ map (fun a => index a (if isHttpError then 2 else 0)%nat) args)
    /\ xhrRequest r = JArray (xr ++ map (fun a => index a 2) args)
    /\ (isHttpError = true ->
        status r = match args with [] => st | _ :: _ => "error" end
        /\ message r = match last args with
                       | Some a => or (index a 1) (JString "HTTP error.")
                       | None => msg
                       end).
Proof.
  induction args as [|a args IH]; intros st msg hd xr; simpl.
  - rewrite !app_nil_r. auto.
  - unfold forEachResponse at 2 4 6 8. simpl.
    destruct isHttpError.
    + destruct (IH "error" (or (index a 1) (JString "HTTP error."))
                  (hd ++ [index a 2]) (xr ++ [index a 2])) as (H1 & H2 & H3).
      rewrite H1, H2, <- !app_assoc. split; [reflexivity |].
      split; [reflexivity |]. intros _. destruct (H3 eq_refl) as [H4 H5].
      rewrite H4, H5. rewrite last_cons.
      destruct args as [|a' args']; [auto |].
      simpl. destruct (last (a' :: args')); auto.
    + destruct (doesMsgHaveError (index a 0)).
      * destruct (IH "error" (JString (getMsgError (index a 0)))
                    (hd ++ [index a 0]) (xr ++ [index a 2])) as (H1 & H2 & _).
        rewrite H1, H2, <- !app_assoc. split; [reflexivity |].
        split; [reflexivity | discriminate].
      * destruct (IH st msg (hd ++ [index a 0]) (xr ++ [index a 2]))
          as (H1 & H2 & _).
        rewrite H1, H2, <- !app_assoc. split; [reflexivity |].
        split; [reflexivity | discriminate].
Qed.

End Scan.

(** X18.  When several batches were submitted, the scan of
    [processAjaxResponses] visits every entry of the arguments it is given
    and never stops early: [httpData] and [xhrRequest] get one element per
    entry, in order.  With the HTTP-error flag the status is [error] and
    the message comes from the last entry alone. *)
Theorem responses_scanned_to_the_end
    (doesMsgHaveError : JsVal -> bool) (getMsgError : JsVal -> string)
    (n : nat) (args : list JsVal) (isHttpError : bool) :
  (1 < n)%nat ->
  let r := responseOf (processAjaxResponses doesMsgHaveError getMsgError
                         n args isHttpError) in
  httpData r = JArray (map (fun a => index a (if isHttpError then 2 else 0)%nat) args)
  /\ xhrRequest r = JArray (map (fun a => index a 2) args)
  /\ (isHttpError = true -> forall a, last args = Some a ->
      status r = "error"
      /\ message r = or (index a 1) (JString "HTTP error.")).
Proof.
  intros Hn r. subst r. unfold processAjaxResponses.
  destruct (Nat.ltb_spec 1 n) as [_ | ?]; [| lia]. cbn [negb].
  destruct (forEach_arrays doesMsgHaveError getMsgError isHttpError args
              "success" (JString "Update Successful.") [] []) as (H1 & H2 & H3).
  match goal with
  | |- context [fold_left ?f args ?r0] => set (r := fold_left f args r0) in *
  end.
  assert (Hr : responseOf (if String.eqb (status r) "error"
                           then rejectWith r else resolveWith r) = r)
    by now destruct (String.eqb (status r) "error").
  rewrite Hr. split; [exact H1 |]. split; [exact H2 |].
  intros He a Ha. destruct (H3 He) as [H4 H5]. rewrite H4, H5, Ha.
  destruct args; [discriminate | auto].
Qed.

Lemma responses_scanned_to_the_end_witness :
  httpData (responseOf (processAjaxResponses sampleHasError sampleGetError 2
              [JArray [JXml "ERR a"; JString "success"; JXhr 0];
               JArray [JXml "b"; JString "success"; JXhr 1]] false))
  = JArray [JXml "ERR a"; JXml "b"].
Proof.
  destruct (responses_scanned_to_the_end sampleHasError sampleGetError 2
              [JArray [JXml "ERR a"; JString "success"; JXhr 0];
               JArray [JXml "b"; JString "success"; JXhr 1]] false)
    as [H _]; [lia |].
  exact H.
Defined.

(** ** Updates given as objects, from the caller's side *)

Lemma ownProps_agree (h1 h2 : Heap) (upd : Val) :
  (forall l, upd = VRef l -> h1 !! l = h2 !! l) ->
  ownProps h1 upd = ownProps h2 upd.
Proof.
  intros H. destruct upd as [| | | | |l]; try reflexivity.
  simpl. now rewrite (H l eq_refl).
Qed.

(** A plain update of the caller's store is one for the copy of the
    options too. *)
Lemma plainUpdate_agree (h h3 : Heap) (options opt : loc) (upd : Val) :
  (forall l, l <> opt -> h3 !! l = h !! l) ->
  h !! opt = None ->
  plainUpdate h options upd ->
  plainUpdate h3 opt upd /\ ownProps h3 upd = ownProps h upd.
Proof.
  intros Hold Hfresh (_ & Hal & Hfl & Hsh).
  assert (Hcell : forall l, upd = VRef l -> h3 !! l = h !! l).
  { intros l ->. apply Hold. simpl in Hal. destruct Hal as [c Hc]. congruence. }
  assert (Hown : ownProps h3 upd = ownProps h upd) by now apply ownProps_agree.
  split; [| assumption]. split; [| split; [| split]].
  - intros ->. simpl in Hal. destruct Hal as [c Hc]. congruence.
  - destruct upd as [| | | | |l]; simpl in *; try exact I.
    now rewrite (Hcell l eq_refl).
  - unfold flat. now rewrite Hown.
  - destruct upd as [| | | | |l]; simpl in *; try reflexivity.
    now rewrite (Hcell l eq_refl).
Qed.

Section ObjectUpdatesCaller.

Variable getSiteUrl : string.
Variable numberToString : Z -> string.
Variable objectToString : Heap -> loc -> option string.

(** With a [webURL] that is absent, empty or a string, the statements
    before [getUpdateArray] do not throw: the store [h3] they leave, in
    which [getUpdateArray] runs. *)
Lemma prologue_eq (h : Heap) (options : loc) (props : list (string * Val)) :
  h !! options = Some (CObject props) ->
  NoDup (map fst props) ->
  truthy (getProp h options "webURL") = false
  \/ (exists s, getProp h options "webURL" = VStr s) ->
  exists (h3 : Heap) (opt : loc) (m3 : list (string * Val)),
    h !! opt = None
    /\ h3 !! opt = Some (CObject m3)
    /\ (forall l, l <> opt -> h3 !! l = h !! l)
    /\ (forall n, n <> "webURL" -> n <> "updateType" -> n <> "counter" ->
        getProp h3 opt n = mergedVal props n)
    /\ assoc "counter" m3 = Some (VNum 1)
    /\ getProp h3 opt "updateType"
       = (if truthy (mergedVal props "batchCmd") then mergedVal props "batchCmd"
          else mergedVal props "updateType")
    /\ prologue getSiteUrl numberToString objectToString h options
       = ('(h4, updates) ← getUpdateArray numberToString objectToString h3 opt;
          let '(queue, h5) := alloc h4 (CArray (map VStr updates)) in
          Some (setProp h5 opt "_updates" (VRef queue), opt, updates)).
Proof.
  intros Hopts Hnd Hweb. unfold prologue. cbn [ownProps]. rewrite Hopts.
  set (merged := extendWith (extendWith (extendWith [] defaults) props)
                            [("counter", VNum 1)]).
  destruct (alloc_fresh h (CObject merged)) as (Hfresh & Hnew & Hold).
  destruct (alloc h (CObject merged)) as [o h1]. simpl in Hfresh, Hnew, Hold.
  assert (Hm : forall n, n <> "counter" -> getProp h1 o n = mergedVal props n).
  { intros n Hn. unfold getProp, mergedVal. rewrite Hnew. unfold merged.
    now rewrite merged_assoc. }
  assert (Hc1 : assoc "counter" merged = Some (VNum 1)).
  { unfold merged.
    change (extendWith (extendWith (extendWith [] defaults) props) [("counter", VNum 1)])
      with (assign "counter" (VNum 1) (extendWith (extendWith [] defaults) props)).
    now rewrite assoc_assign. }
  assert (Hmw : truthy (mergedVal props "webURL") = false
                \/ exists s, mergedVal props "webURL" = VStr s).
  { unfold getProp in Hweb. rewrite Hopts in Hweb. unfold mergedVal.
    destruct (assoc "webURL" props) as [v|]; simpl in *; [| now left].
    destruct Hweb as [Hf | [s ->]]; [| right; eauto].
    destruct v; simpl in *; auto. }
  (* the store after the webURL statement *)
  assert (H2 : exists h2 m2,
             (if negb (truthy (getProp h1 o "webURL"))
              then Some (setProp h1 o "webURL" (VStr getSiteUrl))
              else match getProp h1 o "webURL" with
                   | VStr s =>
                       if negb (bool_decide
                                  (String.get (String.length s - 1) s
                                   = Some (Ascii.ascii_of_nat 47)))
                       then Some (setProp h1 o "webURL" (VStr (s +:+ "/")))
                       else Some h1
                   | _ => None
                   end) = Some h2
             /\ h2 !! o = Some (CObject m2)
             /\ assoc "counter" m2 = Some (VNum 1)
             /\ (forall l, l <> o -> h2 !! l = h1 !! l)
             /\ (forall n, n <> "webURL" -> getProp h2 o n = getProp h1 o n)).
  { assert (Hset : forall v,
               exists m2,
                 setProp h1 o "webURL" v !! o = Some (CObject m2)
                 /\ assoc "counter" m2 = Some (VNum 1)
                 /\ (forall l, l <> o -> setProp h1 o "webURL" v !! l = h1 !! l)
                 /\ (forall n, n <> "webURL" ->
                     getProp (setProp h1 o "webURL" v) o n = getProp h1 o n)).
    { intros v. eexists. split; [apply (setProp_object _ _ _ _ _ Hnew) |].
      split; [rewrite assoc_assign; exact Hc1 |].
      split; [intros l Hl; now apply setProp_other |].
      intros n Hn. apply getProp_setProp_ne. congruence. }
    rewrite (Hm "webURL") by discriminate.
    destruct (negb (truthy (mergedVal props "webURL"))) eqn:Htr.
    - destruct (Hset (VStr getSiteUrl)) as (m2 & ?). eauto.
    - destruct Hmw as [Hf | [s Hs]]; [rewrite Hf in Htr; discriminate |].
      rewrite Hs. case_bool_decide; cbn [negb].
      + exists h1, merged. auto.
      + destruct (Hset (VStr (s +:+ "/"))) as (m2 & ?). eauto. }
  destruct H2 as (h2 & m2 & -> & Hobj2 & Hc2 & Hold2 & Hget2).
  cbn [mbind option_bind].
  exists (setProp h2 o "updateType"
            (if truthy (getProp h2 o "batchCmd") then getProp h2 o "batchCmd"
             else getProp h2 o "updateType")), o.
  eexists.
  split; [exact Hfresh |].
  split; [apply (setProp_object _ _ _ _ _ Hobj2) |].
  split; [intros l Hl; rewrite setProp_other, Hold2 by assumption; auto |].
  split.
  { intros n Hn1 Hn2 Hn3.
    rewrite getProp_setProp_ne by congruence. rewrite Hget2 by assumption. auto. }
  split; [rewrite assoc_assign; exact Hc2 |].
  split; [| reflexivity].
  rewrite (getProp_setProp _ _ _ _ _ _ Hobj2), String.eqb_refl.
  rewrite !Hget2 by discriminate. now rewrite !Hm by discriminate.
Qed.

(** X19.  The documented use: updates given as an array of plain objects,
    with a [webURL] that is absent or a string and a primitive command.
    The entry point does not throw, and the queue holds one [<Method>] per
    object that has a property, in the order of the array, numbered 1, 2,
    3, ... whatever [counter] the caller may have passed, with the command
    taken from [batchCmd] or [updateType] and one [<Field>] per property in
    the order of the object. *)
Theorem object_updates_end_to_end (h : Heap) (options u : loc)
    (props : list (string * Val)) (first : Val) (others : list Val) :
  h !! options = Some (CObject props) ->
  NoDup (map fst props) ->
  truthy (getProp h options "webURL") = false
  \/ (exists s, getProp h options "webURL" = VStr s) ->
  assoc "updates" props = Some (VRef u) ->
  h !! u = Some (CArray (first :: others)) ->
  typeof first = "object" ->
  Forall (plainUpdate h options) (first :: others) ->
  let cmd :=
    if truthy (getProp h options "batchCmd") then getProp h options "batchCmd"
    else match getProp h options "updateType" with
         | VUndefined => VStr "Update"
         | v => v
         end in
  isRef cmd = false ->
  writesDigits numberToString ->
  Z.of_nat (length (first :: others)) < 2 ^ 32 ->
  exists (h' : Heap) (opt : loc),
    prologue getSiteUrl numberToString objectToString h options
    = Some (h', opt,
            imap (fun j upd =>
                    methodXml (pretty (1 + Z.of_nat j))
                      (primitiveToString numberToString cmd)
                      (fieldsXml numberToString (ownProps h upd)))
                 (List.filter (hasProps h) (first :: others))).
Proof.
  intros Hopts Hnd Hweb Hupd Hu Htype Hall cmd Hcmd Hdigits Hlen.
  destruct (prologue_eq h options props Hopts Hnd Hweb)
    as (h3 & opt & m3 & Hfresh & Hobj & Hold & Hm & Hc & Hut & ->).
  assert (Hcmd3 : getProp h3 opt "updateType" = cmd).
  { rewrite Hut. subst cmd. unfold getProp. rewrite Hopts. unfold mergedVal.
    destruct (assoc "batchCmd" props) as [[]|], (assoc "updateType" props) as [[]|];
      reflexivity. }
  assert (Huo : u <> opt) by congruence.
  assert (Hall3 : Forall (fun upd => plainUpdate h3 opt upd
                                     /\ ownProps h3 upd = ownProps h upd)
                         (first :: others)).
  { eapply Forall_impl; [exact Hall |]. intros upd Hp.
    now apply (plainUpdate_agree h h3 options opt). }
  assert (Hplain : Forall (plainUpdate h3 opt) (first :: others)).
  { eapply Forall_impl; [exact Hall3 |]. now intros upd [Hp _]. }
  assert (Hgua : getUpdateArray numberToString objectToString h3 opt
                 = processArrayOfObjects numberToString objectToString opt
                     (first :: others) (h3, [])).
  { unfold getUpdateArray.
    rewrite (Hm "updates") by discriminate.
    rewrite (mergedVal_caller _ _ _ Hupd) by discriminate.
    cbn [truthy negb andb typeof].
    change (String.eqb "object" "string") with false. cbv iota.
    rewrite (Hold u Huo), Hu, Htype.
    change (String.eqb "object" "object") with true. reflexivity. }
  rewrite Hgua.
  rewrite (processArrayOfObjects_methods numberToString objectToString opt _
             h3 m3 1 [] Hobj Hc ltac:(now rewrite Hcmd3) Hplain).
  cbn [mbind option_bind app].
  destruct (alloc _ (CArray _)) as [q h5].
  eexists _, opt. do 2 f_equal.
  assert (Hfilter : List.filter (hasProps h3) (first :: others)
                    = List.filter (hasProps h) (first :: others)).
  { clear -Hall3. induction Hall3 as [|v vs [_ Hv] _ IH]; [reflexivity |].
    assert (E : hasProps h3 v = hasProps h v)
      by (unfold hasProps; now rewrite Hv).
    simpl. now rewrite E, IH. }
  rewrite Hfilter, Hcmd3. apply imap_ext. intros j upd Hj. simpl.
  assert (Hin : upd ∈ first :: others).
  { apply list_elem_of_lookup_2 in Hj. rewrite list_elem_of_In in Hj.
    apply filter_In in Hj as [Hj _]. now rewrite <- list_elem_of_In in Hj. }
  rewrite Forall_forall in Hall3. destruct (Hall3 upd Hin) as [_ ->].
  f_equal. apply Hdigits.
  apply lookup_lt_Some in Hj.
  pose proof (filter_length (hasProps h) (first :: others)) as Hle.
  assert (2 ^ 32 < 2 ^ 53) by (vm_compute; reflexivity).
  lia.
Qed.

End ObjectUpdatesCaller.

Lemma object_updates_end_to_end_witness :
  exists h' opt,
    prologue "http://site/" sampleNumberToString sampleObjectToString
             sampleObjectsStore 0%nat
    = Some (h', opt,
            [methodXml "1" "Delete" (fieldXml "ID" "3");
             methodXml "2" "Delete" (fieldXml "ID" "4" +:+ fieldXml "Title" "t")]).
Proof.
  destruct (object_updates_end_to_end "http://site/" sampleNumberToString
              sampleObjectToString
              sampleObjectsStore 0%nat 1%nat _
              (VRef 2%nat) [VRef 3%nat; VRef 4%nat]
              eq_refl ltac:(compute_done)
              ltac:(right; eexists; reflexivity) eq_refl eq_refl eq_refl
              ltac:(repeat constructor; try discriminate; vm_compute; eauto)
              eq_refl ltac:(intros n _; reflexivity)
              ltac:(vm_compute; reflexivity))
    as (h' & opt & H).
  exists h', opt. rewrite H. vm_compute. reflexivity.
Defined.
